(** * Rule-consistency verification engine and orchestration workflows

    A shallow embedding of the deterministic core of the repository:

    - [backend/verification/cross_rule.py]  (Tier 4, module [CrossRule])
    - [backend/verification/nli.py]         (Tier 3 heuristics, module [Nli])
    - [backend/verification/embeddings.py]  (Tier 2 heuristics, module [Embeddings])
    - [backend/workflows/activities.py]     (module [Activities])
    - [backend/workflows/workflows.py]      (module [Workflows])

    Conventions of the embedding.

    - Python [str] is [string]; the texts considered are ASCII, so [\w] is
      [[A-Za-z0-9_]] and [str.lower] only touches [A-Z].
    - Python [float]: the similarity heuristics of [Embeddings] are
      written over the operations of the doubles (class [PyFloat]), run on
      binary64 itself ([PrimFloat]) and reasoned about in the standard
      model of rounding; elsewhere the code only adds, divides and
      compares scores, and these are exact rationals [Q].
    - What [workflow.execute_activity] hands back is a model or a [dict],
      as the data converter of the worker decides ([Workflows.Handed]).
    - Python [set] is stdpp's [gset]; a [dict] whose iteration order is
      observable is an association list.
    - An exception is a value [Raise msg] of the result type [Py.Result].
    - Wall-clock fields (timestamps, durations) are left out of the records. *)

From Stdlib Require Import QArith Qminmax Reals Lra Lqa Lia String Ascii List Bool
  Floats Uint63.
From stdpp Require Import gmap strings list pretty.

Set Warnings "-register-all,-clear-no-such-hyp".

Local Open Scope string_scope.
Local Open Scope nat_scope.
Local Open Scope list_scope.

(** ** Python values shared by all modules *)

Module Py.

(** Outcome of a call that may raise. *)
Inductive Result (A : Type) : Type :=
| Ok (a : A)
| Raise (exn : string).
Arguments Ok {A} a.
Arguments Raise {A} exn.

Definition bind {A B} (m : Result A) (k : A → Result B) : Result B :=
  match m with
  | Ok a => k a
  | Raise e => Raise e
  end.

(** *** Characters *)

Definition code (c : ascii) : nat := nat_of_ascii c.

Definition is_upper (c : ascii) : bool := (65 <=? code c) && (code c <=? 90).
Definition is_lower (c : ascii) : bool := (97 <=? code c) && (code c <=? 122).
Definition is_digit (c : ascii) : bool := (48 <=? code c) && (code c <=? 57).

(** [[a-zA-Z]] *)
Definition is_alpha (c : ascii) : bool := is_upper c || is_lower c.

(** [\w] on ASCII text. *)
Definition is_word (c : ascii) : bool :=
  is_alpha c || is_digit c || (code c =? 95).

(** Characters removed by [str.strip()]: TAB, LF, VT, FF, CR, the four
    separators 0x1c-0x1f and the space. *)
Definition is_space (c : ascii) : bool :=
  ((9 <=? code c) && (code c <=? 13)) || ((28 <=? code c) && (code c <=? 32)).

Definition lower_char (c : ascii) : ascii :=
  if is_upper c then ascii_of_nat (code c + 32) else c.

(** *** Strings *)

Definition chars (s : string) : list ascii := list_ascii_of_string s.
Definition str (l : list ascii) : string := string_of_list_ascii l.

(** [s.lower()] *)
Definition lower (s : string) : string := str (map lower_char (chars s)).

Fixpoint lstrip_chars (l : list ascii) : list ascii :=
  match l with
  | c :: l' => if is_space c then lstrip_chars l' else l
  | [] => []
  end.

(** [s.strip()] *)
Definition strip (s : string) : string :=
  str (rev (lstrip_chars (rev (lstrip_chars (chars s))))).

(** Truthiness of a [str]: non-empty. *)
Definition truthy (s : string) : bool :=
  match s with
  | EmptyString => false
  | String _ _ => true
  end.

(** [sep.join(parts)] *)
Fixpoint join (sep : string) (parts : list string) : string :=
  match parts with
  | [] => ""
  | [p] => p
  | p :: rest => p +:+ sep +:+ join sep rest
  end.

(** *** The two regular-expression shapes used by the checkers

    Both shapes are anchored by [\b] on either side.  A [\b] holds at a
    position exactly when one of the two neighbouring characters is a
    word character and the other is not (the ends of the text count as
    non-word). *)

Definition word_opt (c : option ascii) : bool :=
  match c with
  | Some c => is_word c
  | None => false
  end.

Definition boundary (prev next : option ascii) : bool :=
  xorb (word_opt prev) (word_opt next).

(** Is [pat] a prefix of [l]?  On success the rest of [l] is returned. *)
Fixpoint strip_prefix (pat l : list ascii) : option (list ascii) :=
  match pat, l with
  | [], _ => Some l
  | p :: pat', c :: l' => if decide (p = c) then strip_prefix pat' l' else None
  | _ :: _, [] => None
  end.

(** [re.search(r"\b" + pat + r"\b", text)] for a literal [pat]: scan the
    positions from left to right, [prev] being the character before the
    current position. *)
Fixpoint search_from (pat : list ascii) (prev : option ascii)
    (l : list ascii) : bool :=
  let here :=
    match strip_prefix pat l with
    | Some rest =>
        boundary prev (head l) && boundary (last pat) (head rest)
    | None => false
    end in
  here ||
  match l with
  | [] => false
  | c :: l' => search_from pat (Some c) l'
  end.

Definition search_word (pat text : string) : bool :=
  search_from (chars pat) None (chars text).

(** [re.findall(r"\b[a-zA-Z]{n,}\b", text)], as the matcher runs it.

    Length of the longest prefix of letters: what the greedy repetition
    [[a-zA-Z]{n,}] consumes first. *)
Fixpoint letters_prefix (l : list ascii) : nat :=
  match l with
  | c :: l' => if is_alpha c then S (letters_prefix l') else 0
  | [] => 0
  end.

(** [\b] after the first [k] characters of [l], [prev] being the character
    in front of [l]. *)
Definition boundary_at (prev : option ascii) (l : list ascii) (k : nat) : bool :=
  boundary (match k with 0 => prev | S k' => l !! k' end) (l !! k).

(** Backtracking: the repetition gives characters back one at a time, from
    [k] letters down to [n], until the closing [\b] holds. *)
Fixpoint backtrack (n : nat) (prev : option ascii) (l : list ascii) (k : nat)
    : option nat :=
  if (n <=? k) && boundary_at prev l k then Some k
  else match k with
       | 0 => None
       | S k' => backtrack n prev l k'
       end.

(** One attempt of the pattern at the start of [l]: the length of the
    match. *)
Definition match_here (n : nat) (prev : option ascii) (l : list ascii)
    : option nat :=
  if boundary_at prev l 0 then backtrack n prev l (letters_prefix l) else None.

(** The scan tries every position from left to right and resumes behind a
    match; [skip] counts the characters of the last match still to be
    passed.  Both uses have [n >= 2], so that no match is empty. *)
Fixpoint findall_go (n skip : nat) (prev : option ascii) (l : list ascii)
    : list (list ascii) :=
  match l with
  | [] => []
  | c :: l' =>
      match skip with
      | S s => findall_go n s (Some c) l'
      | 0 =>
          match match_here n prev l with
          | Some (S k) => take (S k) l :: findall_go n k (Some c) l'
          | _ => findall_go n 0 (Some c) l'
          end
      end
  end.

Definition findall_alpha (n : nat) (text : string) : list string :=
  map str (findall_go n 0 None (chars text)).

(** [str(n)] for a non-negative [int]. *)
Definition str_of_nat (n : nat) : string := pretty n.

(** *** Numbers *)

(** [float(n)] for a length or a count. *)
Definition of_nat (n : nat) : Q := inject_Z (Z.of_nat n).

(** [a > b] *)
Definition gt (a b : Q) : bool := negb (Qle_bool a b).

(** [sum(xs)]: a left fold that starts from [0]. *)
Definition sum (xs : list Q) : Q := fold_left Qplus xs 0%Q.

(** [min(a, b)]: [b] is returned only when it is strictly smaller. *)
Definition min2 (a b : Q) : Q := if gt a b then b else a.

(** [max(xs)]: the first largest element; [ValueError] on an empty
    sequence. *)
Definition max_list (xs : list Q) : Result Q :=
  match xs with
  | [] => Raise "ValueError: max() arg is an empty sequence"
  | x :: xs' => Ok (fold_left (λ best y, if gt y best then y else best) xs' x)
  end.

End Py.

(** ** [backend/verification/cross_rule.py] *)

Module CrossRule.

(** *** The rule model consumed by the checker ([backend.rules]) *)

(** [ConditionSpec | ConditionGroupSpec].  A missing [field] is the empty
    string.  A group's [all] / [any] is only ever tested for truthiness
    before it is iterated, so [None] and the empty list are one value. *)
Inductive Condition : Type :=
| ConditionSpec (field operator value : string)
| ConditionGroupSpec (all any : list Condition).

(** [DecisionLeaf | DecisionNode]; a missing [result] is the empty string. *)
Inductive DecisionTree : Type :=
| DecisionLeaf (result : string)
| DecisionNode (condition : option Condition)
               (true_branch false_branch : option DecisionTree).

(** [datetime.date], ordered as Python orders it: by year, month, day. *)
Record date : Type := Date { year : Z; month : Z; day : Z }.

Definition date_ltb (a b : date) : bool :=
  (year a <? year b)%Z
  || ((year a =? year b)%Z
      && ((month a <? month b)%Z
          || ((month a =? month b)%Z && (day a <? day b)%Z))).

(** [a <= b] on dates *)
Definition date_leb (a b : date) : bool := negb (date_ltb b a).

(** [max(a, b)] and [min(a, b)]: the first argument wins a tie. *)
Definition date_max (a b : date) : date := if date_ltb a b then b else a.
Definition date_min (a b : date) : date := if date_ltb b a then b else a.

Record Rule : Type := {
  rule_id : string;
  applies_if : option Condition;
  decision_tree : option DecisionTree;
  effective_from : option date;
  effective_to : option date;
}.

(** [ConsistencyEvidence], without its timestamp. *)
Record ConsistencyEvidence : Type := {
  tier : nat;
  category : string;
  label : string;
  score : Q;
  details : string;
  rule_element : option string;
}.

(** *** Class constants *)

Definition CONTRADICTING_OUTCOMES : list (string * string) :=
  [ ("permitted", "prohibited");
    ("required", "forbidden");
    ("authorized", "denied");
    ("compliant", "non_compliant");
    ("exempt", "subject_to");
    ("allowed", "forbidden");
    ("mandatory", "optional") ].

Definition MIN_DATE : date := Date 1900 1 1.
Definition MAX_DATE : date := Date 2999 12 31.

(** *** Helper methods *)

(** [_extract_outcomes]: the closure [traverse] appends to [outcomes] in
    a left-to-right walk; here the walk returns what it appends. *)
Fixpoint traverse (node : DecisionTree) : list string :=
  match node with
  | DecisionLeaf result =>
      if Py.truthy result then [Py.strip (Py.lower result)] else []
  | DecisionNode _ tb fb =>
      match tb with Some n => traverse n | None => [] end
      ++ match fb with Some n => traverse n | None => [] end
  end.

Definition _extract_outcomes (rule : Rule) : list string :=
  match decision_tree rule with
  | None => []
  | Some root => traverse root
  end.

Definition pair_in (p : string * string) (table : list (string * string)) : bool :=
  bool_decide (p ∈ table).

Definition _are_contradicting (outcome1 outcome2 : string) : bool :=
  pair_in (outcome1, outcome2) CONTRADICTING_OUTCOMES
  || pair_in (outcome2, outcome1) CONTRADICTING_OUTCOMES.

Fixpoint _extract_condition_fields (condition : Condition) : gset string :=
  match condition with
  | ConditionSpec field _ _ =>
      if Py.truthy field then {[ field ]} else ∅
  | ConditionGroupSpec all any =>
      (* [items] is [all] followed by [any]; the loop runs over both *)
      let fix update (items : list Condition) (fields : gset string)
          : gset string :=
        match items with
        | [] => fields
        | item :: items' =>
            update items' (fields ∪ _extract_condition_fields item)
        end in
      update any (update all ∅)
  end.

Definition _conditions_overlap (rule1 rule2 : Rule) : bool :=
  match applies_if rule1, applies_if rule2 with
  | Some c1, Some c2 =>
      let fields1 := _extract_condition_fields c1 in
      let fields2 := _extract_condition_fields c2 in
      if bool_decide (fields1 ≠ ∅) && bool_decide (fields2 ≠ ∅)
         && bool_decide (fields1 ∩ fields2 = ∅)
      then false
      else true
  | _, _ => true
  end.

Fixpoint _count_conditions (condition : Condition) : nat :=
  match condition with
  | ConditionSpec _ _ _ => 1
  | ConditionGroupSpec all any =>
      let fix sum_items (items : list Condition) (count : nat) : nat :=
        match items with
        | [] => count
        | item :: items' => sum_items items' (count + _count_conditions item)
        end in
      let count := sum_items all 0 in
      sum_items any count
  end.

Fixpoint _count_tree_nodes (node : DecisionTree) : nat :=
  match node with
  | DecisionLeaf _ => 1
  | DecisionNode _ tb fb =>
      let count := 1 in
      let count :=
        match tb with Some n => count + _count_tree_nodes n | None => count end in
      match fb with Some n => count + _count_tree_nodes n | None => count end
  end.

Definition _calculate_specificity (rule : Rule) : nat :=
  let specificity := 0 in
  let specificity :=
    match applies_if rule with
    | Some c => specificity + _count_conditions c
    | None => specificity
    end in
  match decision_tree rule with
  | Some t => specificity + _count_tree_nodes t
  | None => specificity
  end.

(** [_periods_overlap]: [None] bounds become the sentinels ([x or s]; a
    [date] is always truthy). *)
Definition _periods_overlap (start1 end1 start2 end2 : option date)
    : bool * option date * option date :=
  let s1 := default MIN_DATE start1 in
  let e1 := default MAX_DATE end1 in
  let s2 := default MIN_DATE start2 in
  let e2 := default MAX_DATE end2 in
  let overlap_start := date_max s1 s2 in
  let overlap_end := date_min e1 e2 in
  let overlaps := date_leb overlap_start overlap_end in
  let return_start := if overlaps then Some overlap_start else None in
  let return_end := if overlaps then Some overlap_end else None in
  (overlaps, return_start, return_end).

(** [date.isoformat()]: [YYYY-MM-DD], zero padded. *)
Definition zero_pad (width : nat) (n : Z) : string :=
  let digits := Py.str_of_nat (Z.to_nat n) in
  Py.str (replicate (width - String.length digits) "0"%char) +:+ digits.

Definition isoformat (d : date) : string :=
  zero_pad 4 (year d) +:+ "-" +:+ zero_pad 2 (month d) +:+ "-"
  +:+ zero_pad 2 (day d).

(** *** Result records *)

(** One entry of [contradictions] in [check_contradiction]. *)
Record Contradiction : Type := {
  rule1_id : string;
  rule1_outcome : string;
  rule2_id : string;
  rule2_outcome : string;
  conditions_overlap : bool;
}.

Record ContradictionResult : Type := {
  has_contradiction : bool;
  contradicting_rule_ids : list string;
  contradiction_pairs : list Contradiction;
  severity : string;
  cr_details : string;
}.

(** One entry of [violations] in [check_hierarchy]. *)
Record Violation : Type := {
  more_specific_rule : string;
  less_specific_rule : string;
  more_specific_score : nat;
  less_specific_score : nat;
}.

(** One entry of [overlapping_conflicts] in [check_temporal_consistency]. *)
Record TemporalConflict : Type := {
  tc_rule1_id : string;
  tc_rule2_id : string;
  overlap_start : option string;
  overlap_end : option string;
}.

Record TemporalResult : Type := {
  is_consistent : bool;
  overlapping_conflicts : list TemporalConflict;
  tr_details : string;
}.

(** *** The three checks of [CrossRuleChecker] *)

Section Checker.

(** [self.related_rules]; the constructor turns [None] into [[]]. *)
Variable related_rules : list Rule.

(** The inner two loops of [check_contradiction] for one [other]. *)
Definition scan_outcomes (rule other : Rule)
    (acc : list Contradiction * list string)
    : list Contradiction * list string :=
  fold_left (λ acc p_outcome,
    fold_left (λ '(contradictions, contradicting_ids) o_outcome,
      if _are_contradicting p_outcome o_outcome then
        let overlap := _conditions_overlap rule other in
        (contradictions ++
           [ {| rule1_id := rule_id rule;
                rule1_outcome := p_outcome;
                rule2_id := rule_id other;
                rule2_outcome := o_outcome;
                conditions_overlap := overlap |} ],
         if bool_decide (rule_id other ∈ contradicting_ids)
         then contradicting_ids
         else contradicting_ids ++ [rule_id other])
      else (contradictions, contradicting_ids))
      (_extract_outcomes other) acc)
    (_extract_outcomes rule) acc.

(** The outer loop: every [other] but the rule itself. *)
Definition scan_rules (rule : Rule) : list Contradiction * list string :=
  fold_left (λ acc other,
    if bool_decide (rule_id other = rule_id rule) then acc
    else scan_outcomes rule other acc)
    related_rules ([], []).

(** The [ContradictionResult] built by [check_contradiction] together
    with the label and score of the evidence. *)
Definition contradiction_result (rule : Rule)
    : ContradictionResult * string * Q :=
  let '(contradictions, contradicting_ids) := scan_rules rule in
  let result sev det :=
    {| has_contradiction := bool_decide (0 < length contradictions);
       contradicting_rule_ids := contradicting_ids;
       contradiction_pairs := contradictions;
       severity := sev;
       cr_details := det |} in
  match contradictions with
  | [] =>
      (result "none" "No contradicting outcomes found with related rules.",
       "pass", 1.0%Q)
  | _ :: _ =>
      let has_overlap := existsb conditions_overlap contradictions in
      if has_overlap then
        (result "high"
           ("Found " +:+ Py.str_of_nat (length contradictions)
            +:+ " contradiction(s) with overlapping conditions. "
            +:+ "Conflicting rules: " +:+ Py.join ", " contradicting_ids
            +:+ "."),
         "fail", 0.2%Q)
      else
        (result "low"
           ("Found " +:+ Py.str_of_nat (length contradictions)
            +:+ " potential contradiction(s) but conditions appear disjoint. "
            +:+ "Rules: " +:+ Py.join ", " contradicting_ids +:+ "."),
         "warning", 0.7%Q)
  end.

Definition check_contradiction (rule : Rule) : ConsistencyEvidence :=
  match related_rules with
  | [] =>
      {| tier := 4; category := "no_contradiction"; label := "pass";
         score := 1.0%Q;
         details := "No related rules provided for comparison.";
         rule_element := None |}
  | _ :: _ =>
      let '(result, label, score) := contradiction_result rule in
      {| tier := 4; category := "no_contradiction"; label := label;
         score := score; details := cr_details result;
         rule_element := Some "decision_tree" |}
  end.

(** The two nested loops with [break] that compute [has_conflict]. *)
Definition has_conflict (rule other : Rule) : bool :=
  existsb (λ p_outcome,
    existsb (λ o_outcome, _are_contradicting p_outcome o_outcome)
            (_extract_outcomes other))
    (_extract_outcomes rule).

Definition hierarchy_violations (rule : Rule) : list Violation :=
  let primary_specificity := _calculate_specificity rule in
  fold_left (λ violations other,
    if bool_decide (rule_id other = rule_id rule) then violations
    else
      let other_specificity := _calculate_specificity other in
      if has_conflict rule other
         && negb (primary_specificity =? other_specificity)
      then
        let primary_more := other_specificity <? primary_specificity in
        violations ++
          [ {| more_specific_rule :=
                 if primary_more then rule_id rule else rule_id other;
               less_specific_rule :=
                 if primary_more then rule_id other else rule_id rule;
               more_specific_score :=
                 Nat.max primary_specificity other_specificity;
               less_specific_score :=
                 Nat.min primary_specificity other_specificity |} ]
      else violations)
    related_rules [].

Definition check_hierarchy (rule : Rule) : ConsistencyEvidence :=
  match related_rules with
  | [] =>
      {| tier := 4; category := "hierarchy_consistent"; label := "pass";
         score := 1.0%Q;
         details := "No related rules provided for hierarchy comparison.";
         rule_element := None |}
  | _ :: _ =>
      let primary_specificity := _calculate_specificity rule in
      let violations := hierarchy_violations rule in
      match violations with
      | [] =>
          {| tier := 4; category := "hierarchy_consistent";
             label := "pass"; score := 1.0%Q;
             details :=
               "Rule specificity score: "
               +:+ Py.str_of_nat primary_specificity
               +:+ ". No lex specialis violations found.";
             rule_element := Some "applies_if,decision_tree" |}
      | _ :: _ =>
          {| tier := 4; category := "hierarchy_consistent";
             label := "warning"; score := 0.6%Q;
             details :=
               "Found " +:+ Py.str_of_nat (length violations)
               +:+ " hierarchy violation(s). Rule specificity: "
               +:+ Py.str_of_nat primary_specificity
               +:+ ". Consider ordering rules to ensure more specific rules take precedence.";
             rule_element := Some "applies_if,decision_tree" |}
      end
  end.

(** The loop of [check_temporal_consistency]. *)
Definition temporal_conflicts (rule : Rule) : list TemporalConflict :=
  fold_left (λ overlapping_conflicts other,
    if bool_decide (rule_id other = rule_id rule) then overlapping_conflicts
    else if negb (has_conflict rule other) then overlapping_conflicts
    else
      let '(overlaps, start, end_) :=
        _periods_overlap (effective_from rule) (effective_to rule)
                         (effective_from other) (effective_to other) in
      if overlaps then
        overlapping_conflicts ++
          [ {| tc_rule1_id := rule_id rule;
               tc_rule2_id := rule_id other;
               overlap_start := isoformat <$> start;
               overlap_end := isoformat <$> end_ |} ]
      else overlapping_conflicts)
    related_rules [].

Definition or_unbounded (d : option date) : string :=
  match d with
  | Some d => isoformat d
  | None => "unbounded"
  end.

Definition temporal_result (rule : Rule) : TemporalResult :=
  let conflicts := temporal_conflicts rule in
  {| is_consistent := bool_decide (length conflicts = 0);
     overlapping_conflicts := conflicts;
     tr_details :=
       match conflicts with
       | [] =>
           "Rule validity: " +:+ or_unbounded (effective_from rule)
           +:+ " to " +:+ or_unbounded (effective_to rule)
           +:+ ". No temporal conflicts found."
       | _ :: _ =>
           "Found " +:+ Py.str_of_nat (length conflicts)
           +:+ " temporal conflict(s). "
           +:+ "Conflicting rules active in same period: "
           +:+ Py.join ", " (map tc_rule2_id conflicts) +:+ "."
       end |}.

Definition check_temporal_consistency (rule : Rule) : ConsistencyEvidence :=
  match related_rules with
  | [] =>
      {| tier := 4; category := "temporal_consistent"; label := "pass";
         score := 1.0%Q;
         details := "No related rules provided for temporal comparison.";
         rule_element := None |}
  | _ :: _ =>
      let result := temporal_result rule in
      match overlapping_conflicts result with
      | [] =>
          {| tier := 4; category := "temporal_consistent";
             label := "pass"; score := 1.0%Q;
             details := tr_details result;
             rule_element := Some "effective_from,effective_to" |}
      | _ :: _ =>
          {| tier := 4; category := "temporal_consistent";
             label := "warning"; score := 0.5%Q;
             details := tr_details result;
             rule_element := Some "effective_from,effective_to" |}
      end
  end.

Definition check_all (rule : Rule) : list ConsistencyEvidence :=
  [ check_contradiction rule; check_hierarchy rule;
    check_temporal_consistency rule ].

End Checker.

(** Module-level convenience function. *)
Definition check_cross_rule_consistency (rule : Rule)
    (related_rules : option (list Rule)) : list ConsistencyEvidence :=
  check_all (default [] related_rules) rule.

End CrossRule.

(** ** [backend/verification/nli.py] *)

Module Nli.

Inductive NLILabel : Type := ENTAILMENT | NEUTRAL | CONTRADICTION.

#[global] Instance NLILabel_eq_dec : EqDecision NLILabel.
Proof. solve_decision. Defined.

Record NLIResult : Type := {
  label : NLILabel;
  confidence : Q;
  entailment_score : Q;
  neutral_score : Q;
  contradiction_score : Q;
}.

(** The literals between the two [\b] of [negation_patterns]. *)
Definition negation_patterns : list string :=
  [ "not"; "no"; "never"; "without"; "prohibited"; "forbidden";
    "excluded"; "denied"; "n't" ].

(** [_has_negation]: [re.IGNORECASE] with lower-case literals is a search
    in the lower-cased text. *)
Definition _has_negation (text : string) : bool :=
  existsb (λ p, Py.search_word p (Py.lower text)) negation_patterns.

(** [set(re.findall(r"\b[a-zA-Z]{3,}\b", text))] *)
Definition tokens (text : string) : gset string :=
  list_to_set (Py.findall_alpha 3 text).

(** [len(overlap) / len(hypothesis_tokens)] *)
Definition overlap_ratio (premise_tokens hypothesis_tokens : gset string) : Q :=
  (Py.of_nat (size (premise_tokens ∩ hypothesis_tokens))
   / Py.of_nat (size hypothesis_tokens))%Q.

Definition _classify_heuristic (premise hypothesis : string) : NLIResult :=
  let premise_lower := Py.lower premise in
  let hypothesis_lower := Py.lower hypothesis in
  let premise_negated := _has_negation premise_lower in
  let hypothesis_negated := _has_negation hypothesis_lower in
  if negb (eqb premise_negated hypothesis_negated) then
    {| label := CONTRADICTION; confidence := 0.6;
       entailment_score := 0.2; neutral_score := 0.2;
       contradiction_score := 0.6 |}
  else
    let premise_tokens := tokens premise_lower in
    let hypothesis_tokens := tokens hypothesis_lower in
    if bool_decide (hypothesis_tokens = ∅) then
      {| label := NEUTRAL; confidence := 0.4;
         entailment_score := 0.3; neutral_score := 0.4;
         contradiction_score := 0.3 |}
    else
      let ratio := overlap_ratio premise_tokens hypothesis_tokens in
      if Py.gt ratio 0.7 then
        let confidence := (0.5 + (ratio - 0.7) * 1.0)%Q in
        {| label := ENTAILMENT; confidence := Py.min2 confidence 0.8;
           entailment_score := confidence; neutral_score := 0.15;
           contradiction_score := 0.05 |}
      else if Py.gt ratio 0.4 then
        {| label := NEUTRAL; confidence := 0.5;
           entailment_score := 0.3; neutral_score := 0.5;
           contradiction_score := 0.2 |}
      else
        {| label := NEUTRAL; confidence := 0.4;
           entailment_score := 0.25; neutral_score := 0.4;
           contradiction_score := 0.35 |}.

Definition is_label (l : NLILabel) (r : NLIResult) : bool :=
  bool_decide (label r = l).

(** [label_counts[l]] after the counting loop. *)
Definition label_count (results : list NLIResult) (l : NLILabel) : nat :=
  length (filter (λ r, label r = l) results).

(** [max(label_counts, key=label_counts.get)]: the keys are visited in
    insertion order and a later key wins only with a strictly larger
    count. *)
Definition winning_label (results : list NLIResult) : NLILabel :=
  fold_left (λ best l,
    if label_count results best <? label_count results l then l else best)
    [NEUTRAL; CONTRADICTION] ENTAILMENT.

Definition _aggregate_results (results : list NLIResult)
    : Py.Result NLIResult :=
  match results with
  | [] =>
      Py.Ok {| label := NEUTRAL; confidence := 0.5;
               entailment_score := 0.33; neutral_score := 0.34;
               contradiction_score := 0.33 |}
  | _ :: _ =>
      let n := Py.of_nat (length results) in
      let avg_entailment := (Py.sum (map entailment_score results) / n)%Q in
      let avg_neutral := (Py.sum (map neutral_score results) / n)%Q in
      let avg_contradiction :=
        (Py.sum (map contradiction_score results) / n)%Q in
      if existsb (λ r, is_label CONTRADICTION r && Py.gt (confidence r) 0.6)
                 results
      then
        Py.bind
          (Py.max_list
             (map confidence (List.filter (is_label CONTRADICTION) results)))
          (λ top,
             Py.Ok {| label := CONTRADICTION; confidence := top;
                      entailment_score := avg_entailment;
                      neutral_score := avg_neutral;
                      contradiction_score := avg_contradiction |})
      else
        let avg_confidence := (Py.sum (map confidence results) / n)%Q in
        Py.Ok {| label := winning_label results;
                 confidence := avg_confidence;
                 entailment_score := avg_entailment;
                 neutral_score := avg_neutral;
                 contradiction_score := avg_contradiction |}
  end.

End Nli.

(** ** [backend/verification/embeddings.py] (heuristic mode) *)

Module Embeddings.

(** Python's [float], an IEEE 754 binary64 number, with the operations
    that the module applies to it: the conversion of an [int], [+], [*],
    [/], [math.sqrt], [math.log], the builtin [sum], [==] and [>=].  The
    code below is written once over these operations; [binary64] runs it
    on the doubles themselves, and the properties that hold for every
    text are proved for any arithmetic that rounds as the doubles do. *)
Class PyFloat (F : Type) : Type := {
  of_int : nat → F;
  add : F → F → F;
  mul : F → F → F;
  div : F → F → F;
  sqrt : F → F;
  log : F → F;
  sum : list F → F;
  eqb : F → F → bool;
  geb : F → F → bool;
}.

(** [SimilarityResult]; the formatted [details] text is left out. *)
Record SimilarityResult (F : Type) : Type := {
  label : string;
  score : F;
  matched_segments : list (string * string * F);
}.
Arguments label {F} _.
Arguments score {F} _.
Arguments matched_segments {F} _.

Definition _tokenize (text : string) : list string :=
  Py.findall_alpha 2 (Py.lower text).

(** [tokens.count(t)] *)
Definition count (t : string) (tokens : list string) : nat :=
  length (filter (λ u, u = t) tokens).

(** [{t: tokens.count(t) for t in set(tokens)}.get(t, 0)] *)
Definition tf_get (tokens : list string) (t : string) : nat :=
  if bool_decide (t ∈ (list_to_set tokens : gset string))
  then count t tokens else 0%nat.

(** [df[t]]: in how many of the two texts the term occurs. *)
Definition df (tokens1 tokens2 : list string) (t : string) : nat :=
  ((if bool_decide (t ∈ (list_to_set tokens1 : gset string)) then 1 else 0)
   + (if bool_decide (t ∈ (list_to_set tokens2 : gset string)) then 1 else 0))%nat.

(** [set(text[i:i+n] for i in range(len(text) - n + 1))] *)
Definition ngrams (n : nat) (text : string) : gset string :=
  list_to_set
    (map (λ i, substring i n text)
         (seq 0 (Z.to_nat (Z.of_nat (String.length text) - Z.of_nat n + 1)))).

Section Heuristic.

Context {F : Type} {float_ops : PyFloat F}.

(** A decimal literal [num/den] of the source: the double nearest to it,
    which is what the correctly rounded division of the two integers
    gives. *)
Definition literal (num den : nat) : F := div (of_int num) (of_int den).

Definition HIGH_THRESHOLD : F := literal 75 100.
Definition MEDIUM_THRESHOLD : F := literal 50 100.

Definition _cosine_similarity (vec1 vec2 : list F) : F :=
  let dot_product := sum (map (λ '(a, b), mul a b) (zip vec1 vec2)) in
  let norm1 := sqrt (sum (map (λ a, mul a a) vec1)) in
  let norm2 := sqrt (sum (map (λ b, mul b b) vec2)) in
  if eqb norm1 (of_int 0) || eqb norm2 (of_int 0) then of_int 0
  else div dot_product (mul norm1 norm2).

(** [math.log((num_docs + 1) / (df[t] + 1)) + 1] with [num_docs = 2] *)
Definition idf (tokens1 tokens2 : list string) (t : string) : F :=
  add (log (div (of_int (2 + 1)) (of_int (df tokens1 tokens2 t + 1))))
      (of_int 1).

(** [_tfidf_overlap].  The two vectors are built by iterating the set
    [all_tokens]; [order] is the order in which this call iterates it,
    which Python fixes by the hashes and the history of the set, not by
    its elements. *)
Definition _tfidf_overlap (order : list string)
    (tokens1 tokens2 : list string) : F :=
  let all_tokens : gset string := list_to_set tokens1 ∪ list_to_set tokens2 in
  if bool_decide (all_tokens = ∅) then of_int 0
  else
    let vec1 :=
      map (λ t, mul (of_int (tf_get tokens1 t)) (idf tokens1 tokens2 t))
          order in
    let vec2 :=
      map (λ t, mul (of_int (tf_get tokens2 t)) (idf tokens1 tokens2 t))
          order in
    _cosine_similarity vec1 vec2.

Definition _ngram_similarity_of (n_values : list nat) (text1 text2 : string)
    : F :=
  let text1_lower := Py.lower text1 in
  let text2_lower := Py.lower text2 in
  let total_score :=
    fold_left (λ total_score n,
      let ngrams1 := ngrams n text1_lower in
      let ngrams2 := ngrams n text2_lower in
      if bool_decide (ngrams1 ≠ ∅) && bool_decide (ngrams2 ≠ ∅) then
        add total_score
            (div (of_int (size (ngrams1 ∩ ngrams2)))
                 (of_int (size (ngrams1 ∪ ngrams2))))
      else total_score)
      n_values (of_int 0) in
  match n_values with
  | [] => of_int 0
  | _ :: _ => div total_score (of_int (length n_values))
  end.

(** [_ngram_similarity] with its default [n_values=[2, 3]]. *)
Definition _ngram_similarity (text1 text2 : string) : F :=
  _ngram_similarity_of [2; 3]%nat text1 text2.

Definition _jaccard_similarity (tokens1 tokens2 : list string) : F :=
  let set1 : gset string := list_to_set tokens1 in
  let set2 : gset string := list_to_set tokens2 in
  if bool_decide (set1 = ∅) && bool_decide (set2 = ∅) then of_int 0
  else div (of_int (size (set1 ∩ set2))) (of_int (size (set1 ∪ set2))).

(** [order] is the iteration order of [all_tokens] in the call of
    [_tfidf_overlap]. *)
Definition _compute_heuristic_similarity (order : list string)
    (text1 text2 : string) : SimilarityResult F :=
  let tokens1 := _tokenize text1 in
  let tokens2 := _tokenize text2 in
  match tokens1, tokens2 with
  | [], _ | _, [] =>
      {| label := "low"; score := of_int 0; matched_segments := [] |}
  | _ :: _, _ :: _ =>
      let tfidf_score := _tfidf_overlap order tokens1 tokens2 in
      let ngram_score := _ngram_similarity text1 text2 in
      let jaccard_score := _jaccard_similarity tokens1 tokens2 in
      let score :=
        add (add (mul (literal 4 10) tfidf_score)
                 (mul (literal 35 100) ngram_score))
            (mul (literal 25 100) jaccard_score) in
      let label :=
        if geb score HIGH_THRESHOLD then "high"
        else if geb score MEDIUM_THRESHOLD then "medium"
        else "low" in
      {| label := label; score := score; matched_segments := [] |}
  end.

End Heuristic.

(** *** The doubles *)

(** [float(n)] for an [int] below [2^63]. *)
Definition float_of_nat (n : nat) : PrimFloat.float :=
  PrimFloat.of_uint63 (Uint63.of_Z (Z.of_nat n)).

(** [math.log] at the arguments that [idf] passes to it: [3/3], [3/2] and
    [3/1]. *)
Definition math_log (x : PrimFloat.float) : PrimFloat.float :=
  if PrimFloat.eqb x 1%float then 0%float
  else if PrimFloat.eqb x 1.5%float then 0x1.9f323ecbf984cp-2%float
  else if PrimFloat.eqb x 3%float then 0x1.193ea7aad030bp+0%float
  else PrimFloat.nan.

(** The arithmetic of the interpreter; [sum] adds from left to right,
    starting from [0]. *)
#[export] Instance binary64 : PyFloat PrimFloat.float := {|
  of_int := float_of_nat;
  add := PrimFloat.add;
  mul := PrimFloat.mul;
  div := PrimFloat.div;
  sqrt := PrimFloat.sqrt;
  log := math_log;
  sum := λ xs, fold_left PrimFloat.add xs (float_of_nat 0);
  eqb := PrimFloat.eqb;
  geb := λ x y, PrimFloat.leb y x;
|}.

End Embeddings.

(** ** [backend/workflows/schemas.py] *)

Module Schemas.

Inductive WorkflowStatus : Type :=
| PENDING | RUNNING | COMPLETED | FAILED | CANCELLED | TIMED_OUT.

Inductive VerificationTier : Type :=
| SCHEMA | LEXICAL | SEMANTIC | NLI | CROSS_RULE.

(** [tier.value] *)
Definition value (t : VerificationTier) : nat :=
  match t with
  | SCHEMA => 0 | LEXICAL => 1 | SEMANTIC => 2 | NLI => 3 | CROSS_RULE => 4
  end.

(** [VerificationTier(n)]; [None] stands for the [ValueError]. *)
Definition tier_of_value (n : nat) : option VerificationTier :=
  match n with
  | 0 => Some SCHEMA | 1 => Some LEXICAL | 2 => Some SEMANTIC
  | 3 => Some NLI | 4 => Some CROSS_RULE | _ => None
  end.

#[global] Instance VerificationTier_eq_dec : EqDecision VerificationTier.
Proof. solve_decision. Defined.

#[global] Instance WorkflowStatus_eq_dec : EqDecision WorkflowStatus.
Proof. solve_decision. Defined.

#[global] Instance VerificationTier_countable : Countable VerificationTier.
Proof.
  refine (inj_countable value tier_of_value _).
  intros []; reflexivity.
Defined.

Inductive ScenarioType : Type :=
| JURISDICTION_CHANGE | ENTITY_CHANGE | ACTIVITY_RESTRUCTURE | THRESHOLD
| TEMPORAL | PROTOCOL_CHANGE | REGULATORY_CHANGE.

(** [ScenarioType(s)]; [None] stands for the [ValueError]. *)
Definition scenario_type_of (s : string) : option ScenarioType :=
  if bool_decide (s = "jurisdiction_change") then Some JURISDICTION_CHANGE
  else if bool_decide (s = "entity_change") then Some ENTITY_CHANGE
  else if bool_decide (s = "activity_restructure") then Some ACTIVITY_RESTRUCTURE
  else if bool_decide (s = "threshold") then Some THRESHOLD
  else if bool_decide (s = "temporal") then Some TEMPORAL
  else if bool_decide (s = "protocol_change") then Some PROTOCOL_CHANGE
  else if bool_decide (s = "regulatory_change") then Some REGULATORY_CHANGE
  else None.

(** One element of [TierResult.evidence]. *)
Inductive EvidenceEntry : Type :=
| EvidenceCheck (category label : string) (score : Q) (details : string)
| EvidenceError (error : string).

(** [TierResult], without [duration_ms]. *)
Record TierResult : Type := {
  tier : VerificationTier;
  tier_name : string;
  passed : bool;
  score : Q;
  checks_run : nat;
  checks_passed : nat;
  evidence : list EvidenceEntry;
}.

Record RuleVerificationInput : Type := {
  rule_id : string;
  source_text : option string;
  max_tier : VerificationTier;
  skip_tiers : list VerificationTier;
  fail_fast : bool;
}.

(** [RuleVerificationOutput], without the workflow id and the two
    timestamps. *)
Record RuleVerificationOutput : Type := {
  rv_status : WorkflowStatus;
  rv_rule_id : string;
  tier_results : list TierResult;
  highest_tier_passed : option VerificationTier;
  overall_score : Q;
  overall_passed : bool;
  stopped_early : bool;
  stop_reason : option string;
  rv_error : option string;
}.

(** A scalar fact, or a nested [list] / [dict] known by its printed form. *)
Inductive FactValue : Type :=
| VNone
| VBool (b : bool)
| VInt (z : Z)
| VStr (s : string)
| VList (repr : string)
| VDict (repr : string).

(** A [dict[str, Any]] in insertion order, keys unique. *)
Definition Facts : Type := list (string * FactValue).

Record Obligation : Type := {
  ob_id : string;
  ob_description : string;
  ob_deadline : option string;
}.

Record TraceStep : Type := {
  ts_node : string;
  ts_condition : string;
  ts_result : bool;
}.

Record ScenarioResult : Type := {
  scenario_id : string;
  scenario_type : ScenarioType;
  description : string;
  decision : string;
  applicable : bool;
  obligations : list Obligation;
  trace : list TraceStep;
  differs_from_baseline : bool;
  key_differences : list string;
}.

Record DriftDetectionInput : Type := {
  rule_ids : option (list string);
  notify_on_drift : bool;
}.

(** [RuleDriftResult], without [last_verified] and [current_check]. *)
Record RuleDriftResult : Type := {
  dr_rule_id : string;
  has_drift : bool;
  drift_types : list string;
  dr_details : list string;
  dr_severity : string;
}.

(** [DriftDetectionOutput], without the workflow id and the timestamps. *)
Record DriftDetectionOutput : Type := {
  dd_status : WorkflowStatus;
  rules_checked : nat;
  rules_with_drift : nat;
  drift_results : list RuleDriftResult;
  notifications_sent : nat;
  dd_error : option string;
}.

End Schemas.

(** ** [backend/workflows/activities.py] *)

Module Activities.

Import Schemas.

(** *** Dictionaries of facts *)

Fixpoint dict_get (d : Facts) (key : string) : option FactValue :=
  match d with
  | [] => None
  | (k, v) :: d' => if bool_decide (k = key) then Some v else dict_get d' key
  end.

(** [d[key] = v]: an existing key keeps its position. *)
Fixpoint dict_set (d : Facts) (key : string) (v : FactValue) : Facts :=
  match d with
  | [] => [(key, v)]
  | (k, w) :: d' =>
      if bool_decide (k = key) then (k, v) :: d'
      else (k, w) :: dict_set d' key v
  end.

(** The merge of two dicts by unpacking: [a] updated with [b]. *)
Definition dict_merge (a b : Facts) : Facts :=
  fold_left (λ d '(k, v), dict_set d k v) b a.

Definition is_nested (v : FactValue) : bool :=
  match v with
  | VList _ | VDict _ => true
  | _ => false
  end.

(** [{k: v for k, v in facts.items() if not isinstance(v, (list, dict))}] *)
Definition safe_facts (facts : Facts) : Facts :=
  List.filter (λ '(_, v), negb (is_nested v)) facts.

(** [a == b] on fact values; [True == 1] and [False == 0] as in Python. *)
Definition value_eqb (a b : FactValue) : bool :=
  match a, b with
  | VNone, VNone => true
  | VBool x, VBool y => eqb x y
  | VInt x, VInt y => (x =? y)%Z
  | VBool x, VInt y | VInt y, VBool x => (y =? (if x then 1 else 0))%Z
  | VStr x, VStr y => bool_decide (x = y)
  | VList x, VList y => bool_decide (x = y)
  | VDict x, VDict y => bool_decide (x = y)
  | _, _ => false
  end.

(** [str(v)], as an f-string prints it. *)
Definition value_str (v : FactValue) : string :=
  match v with
  | VNone => "None"
  | VBool true => "True"
  | VBool false => "False"
  | VInt z => pretty z
  | VStr s => s
  | VList r | VDict r => r
  end.

(** [str(d)] for an optional decision string. *)
Definition decision_str (d : option string) : string :=
  match d with
  | Some s => s
  | None => "None"
  end.

(** [d or "unknown"] *)
Definition or_unknown (d : option string) : string :=
  match d with
  | Some s => if Py.truthy s then s else "unknown"
  | None => "unknown"
  end.

(** What [DecisionEngine.evaluate] returns. *)
Record DecisionResult : Type := {
  er_decision : option string;
  er_applicable : bool;
  er_obligations : list Obligation;
  er_trace : list TraceStep;
}.

Section Counterfactual.

(** The collaborator outside this core: loading the rules, building
    the [Scenario] from [safe_facts] and [engine.evaluate(scenario, rule_id)]. *)
Variable evaluate : Facts → string → Py.Result DecisionResult.

Definition evaluate_baseline_activity (rule_id : string) (facts : Facts)
    : Py.Result ScenarioResult :=
  Py.bind (evaluate (safe_facts facts) rule_id) (λ result,
    Py.Ok {| scenario_id := "baseline";
             scenario_type := THRESHOLD;
             description := "Baseline scenario";
             decision := or_unknown (er_decision result);
             applicable := er_applicable result;
             obligations := er_obligations result;
             trace := er_trace result;
             differs_from_baseline := false;
             key_differences := [] |}).

(** The loop over [modified_facts.items()]. *)
Definition fact_differences (baseline_facts modified_facts : Facts)
    (key_differences : list string) : list string :=
  fold_left (λ key_differences '(key, new_val),
    let old_val := default VNone (dict_get baseline_facts key) in
    if negb (value_eqb old_val new_val) then
      key_differences ++
        [ key +:+ ": " +:+ value_str old_val +:+ " -> "
          +:+ value_str new_val ]
    else key_differences)
    modified_facts key_differences.

Definition analyze_counterfactual_activity
    (rule_id : string) (baseline_facts : Facts)
    (scenario_id scenario_type description : string)
    (modified_facts : Facts) (baseline_decision : string)
    : Py.Result ScenarioResult :=
  let merged_facts := dict_merge baseline_facts modified_facts in
  Py.bind (evaluate (safe_facts merged_facts) rule_id) (λ result,
    let differs :=
      negb (bool_decide (er_decision result = Some baseline_decision)) in
    let key_differences :=
      if differs then
        [ "Decision changed from " +:+ baseline_decision +:+ " to "
          +:+ decision_str (er_decision result) ]
      else [] in
    let key_differences :=
      fact_differences baseline_facts modified_facts key_differences in
    match scenario_type_of scenario_type with
    | None =>
        Py.Raise ("ValueError: '" +:+ scenario_type
                  +:+ "' is not a valid ScenarioType")
    | Some st =>
        Py.Ok {| scenario_id := scenario_id;
                 scenario_type := st;
                 description := description;
                 decision := or_unknown (er_decision result);
                 applicable := er_applicable result;
                 obligations := er_obligations result;
                 trace := er_trace result;
                 differs_from_baseline := differs;
                 key_differences := key_differences |}
    end).

End Counterfactual.

(** *** Tier and drift activities *)

Section Verification.

(** [RuleLoader] after [load_directory]: [get_rule] and [get_all_rules]. *)
Variable get_rule : string → option CrossRule.Rule.
Variable get_all_rules : list CrossRule.Rule.

(** [ConsistencyEngine.verify_rule(rule, source_text, tiers=[t])] for the
    tiers 0 to 3: the evidence list and [summary.status.value]. *)
Variable verify_rule :
  CrossRule.Rule → option string → nat
  → Py.Result (list CrossRule.ConsistencyEvidence * string).

Definition evidence_entry (e : CrossRule.ConsistencyEvidence) : EvidenceEntry :=
  EvidenceCheck (CrossRule.category e) (CrossRule.label e)
                (CrossRule.score e) (CrossRule.details e).

Definition is_pass (e : CrossRule.ConsistencyEvidence) : bool :=
  bool_decide (CrossRule.label e = "pass").
Definition not_fail (e : CrossRule.ConsistencyEvidence) : bool :=
  negb (bool_decide (CrossRule.label e = "fail")).

(** [sum(e.score for e in evidence) / checks_run if checks_run else 0] *)
Definition avg_score (evidence : list CrossRule.ConsistencyEvidence) : Q :=
  match evidence with
  | [] => 0%Q
  | _ :: _ =>
      (Py.sum (map CrossRule.score evidence)
       / Py.of_nat (length evidence))%Q
  end.

Definition rule_not_found (t : VerificationTier) (name rule_id : string)
    : TierResult :=
  {| tier := t; tier_name := name; passed := false; score := 0.0;
     checks_run := 0; checks_passed := 0;
     evidence := [EvidenceError ("Rule not found: " +:+ rule_id)] |}.

Definition tier_result (t : VerificationTier) (name : string)
    (passed : bool) (evidence : list CrossRule.ConsistencyEvidence) : TierResult :=
  {| tier := t; tier_name := name; passed := passed;
     score := avg_score evidence;
     checks_run := length evidence;
     checks_passed := length (List.filter is_pass evidence);
     evidence := map evidence_entry evidence |}.

Definition verify_tier_0_activity (rule_id : string)
    : Py.Result TierResult :=
  match get_rule rule_id with
  | None => Py.Ok (rule_not_found SCHEMA "Schema & Structural" rule_id)
  | Some rule =>
      Py.bind (verify_rule rule None 0) (λ '(evidence, status),
        Py.Ok (tier_result SCHEMA "Schema & Structural"
                 (negb (bool_decide (status = "inconsistent")))
                 evidence))
  end.

(** [embedding_available()] and [nli_available()]: whether the ML
    dependencies can be imported. *)
Variable embedding_available : bool.
Variable nli_available : bool.

(** The shared body of [verify_tier_1_activity], [verify_tier_2_activity]
    and [verify_tier_3_activity]: [missing_name] is the tier name of the
    result for a rule that is not found, [name] that of the result of
    the checks. *)
Definition verify_text_tier (t : VerificationTier)
    (missing_name name : string)
    (rule_id : string) (source_text : option string)
    : Py.Result TierResult :=
  match get_rule rule_id with
  | None => Py.Ok (rule_not_found t missing_name rule_id)
  | Some rule =>
      Py.bind (verify_rule rule source_text (value t)) (λ '(evidence, _),
        Py.Ok (tier_result t name (forallb not_fail evidence) evidence))
  end.

Definition verify_tier_1_activity :=
  verify_text_tier LEXICAL "Lexical & Heuristic" "Lexical & Heuristic".

(** [ml_mode = "ML" if ..._available() else "heuristic"] *)
Definition ml_mode (available : bool) : string :=
  if available then "ML" else "heuristic".

Definition verify_tier_2_activity :=
  verify_text_tier SEMANTIC "Semantic Similarity"
    ("Semantic Similarity (" +:+ ml_mode embedding_available +:+ ")").
Definition verify_tier_3_activity :=
  verify_text_tier NLI "NLI Entailment"
    ("NLI Entailment (" +:+ ml_mode nli_available +:+ ")").

Definition verify_tier_4_activity (rule_id : string)
    : Py.Result TierResult :=
  match get_rule rule_id with
  | None => Py.Ok (rule_not_found CROSS_RULE "Cross-Rule Consistency" rule_id)
  | Some rule =>
      let related_rules :=
        List.filter
          (λ r, negb (bool_decide (CrossRule.rule_id r = rule_id)))
          get_all_rules in
      let evidence_list :=
        CrossRule.check_cross_rule_consistency rule (Some related_rules) in
      Py.Ok (tier_result CROSS_RULE "Cross-Rule Consistency"
               (forallb not_fail evidence_list) evidence_list)
  end.

(** The loop of [check_rule_drift_activity] over the Tier-0 evidence. *)
Definition drift_scan (evidence : list CrossRule.ConsistencyEvidence)
    : list string * list string :=
  fold_left (λ '(drift_types, details) e,
    if bool_decide (CrossRule.label e = "fail") then
      (drift_types ++ ["schema_drift"],
       details ++ ["Schema check failed: " +:+ CrossRule.details e])
    else if bool_decide (CrossRule.label e = "warning")
            && bool_decide (CrossRule.category e = "source_exists") then
      (drift_types ++ ["reference_drift"],
       details ++ ["Reference issue: " +:+ CrossRule.details e])
    else (drift_types, details))
    evidence ([], []).

Definition drift_severity (drift_types : list string) : string :=
  if bool_decide ("schema_drift" ∈ drift_types) then "high"
  else if bool_decide ("reference_drift" ∈ drift_types) then "medium"
  else match drift_types with
       | _ :: _ => "low"
       | [] => "none"
       end.

Definition check_rule_drift_activity (rule_id : string)
    : Py.Result RuleDriftResult :=
  match get_rule rule_id with
  | None =>
      Py.Ok {| dr_rule_id := rule_id; has_drift := true;
               drift_types := ["rule_missing"];
               dr_details := ["Rule no longer exists in rule data"];
               dr_severity := "critical" |}
  | Some rule =>
      Py.bind (verify_rule rule None 0) (λ '(evidence, _),
        let '(drift_types, details) := drift_scan evidence in
        Py.Ok {| dr_rule_id := rule_id;
                 has_drift := bool_decide (0 < length drift_types);
                 drift_types := drift_types;
                 dr_details := details;
                 dr_severity := drift_severity drift_types |})
  end.

End Verification.

End Activities.

(** ** [backend/workflows/workflows.py] *)

Module Workflows.

Import Schemas.

(** [l.remove(x)]: drops the first occurrence, [ValueError] if there is
    none. *)
Fixpoint list_remove {A} `{EqDecision A} (x : A) (l : list A)
    : Py.Result (list A) :=
  match l with
  | [] => Py.Raise "ValueError: list.remove(x): x not in list"
  | y :: l' =>
      if decide (x = y) then Py.Ok l'
      else Py.bind (list_remove x l') (λ r, Py.Ok (y :: r))
  end.

(** [await asyncio.gather] over the tasks, without [return_exceptions]: the list
    of results when every task returns, else an exception of a failed
    task (here: of the first one in task order). *)
Fixpoint gather {A} (outcomes : list (Py.Result A)) : Py.Result (list A) :=
  match outcomes with
  | [] => Py.Ok []
  | o :: rest =>
      Py.bind o (λ a, Py.bind (gather rest) (λ l, Py.Ok (a :: l)))
  end.

(** *** What an activity call hands back

    The workflows start every activity by its name and pass no
    [result_type]; [worker.py] and [client.py] connect with the default
    data converter.  What [workflow.execute_activity] hands back for an
    activity that returned a pydantic model is then plain JSON data, a
    [dict] with the model's fields ([AsDict]).  An instance of the model
    ([AsModel]) is what a typed converter or a test double hands back.
    The form is part of what surrounds a run, so the environments below
    give it with every outcome. *)
Inductive Handed (A : Type) : Type :=
| AsModel (obj : A)
| AsDict (fields : A).

Arguments AsModel {A} obj.
Arguments AsDict {A} fields.

(** [str(e)] of the [AttributeError] for [name] on a [dict]. *)
Definition attribute_error (name : string) : string :=
  "'dict' object has no attribute '" +:+ name +:+ "'".

(** [result.name], for the attribute [name] that the model declares and
    [field] reads: a [dict] has no such attribute. *)
Definition getattr {A B : Type} (result : Handed A) (name : string)
    (field : A → B) : Py.Result B :=
  match result with
  | AsModel obj => Py.Ok (field obj)
  | AsDict _ => Py.Raise (attribute_error name)
  end.

(** pydantic validating a handed value for a field of the model's type:
    an instance is taken as it is, a [dict] of the fields is turned into
    one. *)
Definition validate {A : Type} (result : Handed A) : A :=
  match result with
  | AsModel obj => obj
  | AsDict fields => fields
  end.

(** *** RuleVerificationWorkflow *)

(** The fields of a workflow instance ([self]). *)
Record RuleVerificationState : Type := {
  _status : WorkflowStatus;
  _rule_id : string;
  _current_tier : option VerificationTier;
  _tier_results : list (Handed TierResult);
  _tiers_completed : list VerificationTier;
  _tiers_remaining : list VerificationTier;
  _skip_tiers : gset VerificationTier;
  _stopped_early : bool;
  _stop_reason : option string;
  _error : option string;
}.

(** [__init__] *)
Definition init : RuleVerificationState :=
  {| _status := PENDING; _rule_id := ""; _current_tier := None;
     _tier_results := []; _tiers_completed := []; _tiers_remaining := [];
     _skip_tiers := ∅; _stopped_early := false; _stop_reason := None;
     _error := None |}.

Definition set_skip_tiers (v : gset VerificationTier)
    (st : RuleVerificationState) : RuleVerificationState :=
  {| _status := _status st; _rule_id := _rule_id st;
     _current_tier := _current_tier st; _tier_results := _tier_results st;
     _tiers_completed := _tiers_completed st;
     _tiers_remaining := _tiers_remaining st; _skip_tiers := v;
     _stopped_early := _stopped_early st; _stop_reason := _stop_reason st;
     _error := _error st |}.

Definition set_tiers_remaining (v : list VerificationTier)
    (st : RuleVerificationState) : RuleVerificationState :=
  {| _status := _status st; _rule_id := _rule_id st;
     _current_tier := _current_tier st; _tier_results := _tier_results st;
     _tiers_completed := _tiers_completed st;
     _tiers_remaining := v; _skip_tiers := _skip_tiers st;
     _stopped_early := _stopped_early st; _stop_reason := _stop_reason st;
     _error := _error st |}.

Definition set_current_tier (v : option VerificationTier)
    (st : RuleVerificationState) : RuleVerificationState :=
  {| _status := _status st; _rule_id := _rule_id st;
     _current_tier := v; _tier_results := _tier_results st;
     _tiers_completed := _tiers_completed st;
     _tiers_remaining := _tiers_remaining st; _skip_tiers := _skip_tiers st;
     _stopped_early := _stopped_early st; _stop_reason := _stop_reason st;
     _error := _error st |}.

(** The three statements after a tier's activity has returned. *)
Definition record_result (tier : VerificationTier)
    (result : Handed TierResult) (remaining : list VerificationTier)
    (st : RuleVerificationState) : RuleVerificationState :=
  {| _status := _status st; _rule_id := _rule_id st;
     _current_tier := _current_tier st;
     _tier_results := _tier_results st ++ [result];
     _tiers_completed := _tiers_completed st ++ [tier];
     _tiers_remaining := remaining; _skip_tiers := _skip_tiers st;
     _stopped_early := _stopped_early st; _stop_reason := _stop_reason st;
     _error := _error st |}.

(** [self._stopped_early = True] *)
Definition mark_stopped (st : RuleVerificationState) : RuleVerificationState :=
  {| _status := _status st; _rule_id := _rule_id st;
     _current_tier := _current_tier st; _tier_results := _tier_results st;
     _tiers_completed := _tiers_completed st;
     _tiers_remaining := _tiers_remaining st; _skip_tiers := _skip_tiers st;
     _stopped_early := true; _stop_reason := _stop_reason st;
     _error := _error st |}.

(** [self._stop_reason = reason] *)
Definition set_stop_reason (reason : string)
    (st : RuleVerificationState) : RuleVerificationState :=
  {| _status := _status st; _rule_id := _rule_id st;
     _current_tier := _current_tier st; _tier_results := _tier_results st;
     _tiers_completed := _tiers_completed st;
     _tiers_remaining := _tiers_remaining st; _skip_tiers := _skip_tiers st;
     _stopped_early := _stopped_early st; _stop_reason := Some reason;
     _error := _error st |}.

(** The two statements of the early termination, one after the other. *)
Definition stop_early (reason : string)
    (st : RuleVerificationState) : RuleVerificationState :=
  set_stop_reason reason (mark_stopped st).

Definition finish (status : WorkflowStatus) (error : option string)
    (st : RuleVerificationState) : RuleVerificationState :=
  {| _status := status; _rule_id := _rule_id st;
     _current_tier := match status with COMPLETED => None | _ => _current_tier st end;
     _tier_results := _tier_results st;
     _tiers_completed := _tiers_completed st;
     _tiers_remaining := _tiers_remaining st; _skip_tiers := _skip_tiers st;
     _stopped_early := _stopped_early st; _stop_reason := _stop_reason st;
     _error := error |}.

(** The signal handler [skip_tier].  A signal carries a valid tier
    number. *)
Definition skip_tier (tier : VerificationTier)
    (st : RuleVerificationState) : RuleVerificationState :=
  set_skip_tiers (_skip_tiers st ∪ {[ tier ]}) st.

(** Signals are handled one by one, in order of arrival. *)
Definition deliver (signals : list VerificationTier)
    (st : RuleVerificationState) : RuleVerificationState :=
  fold_left (λ st tier, skip_tier tier st) signals st.

(** What surrounds one run: for every activity the outcome that
    [workflow.execute_activity] hands back once the retry policy is
    spent, and the [skip_tier] signals that arrive while the run is
    suspended in that call.  Signal handlers only run while the body is
    suspended ([await]) or before it starts. *)
Record RuleVerificationEnv : Type := {
  signals_before_run : list VerificationTier;
  load_rule_outcome : string → Py.Result unit;
  signals_during_load : list VerificationTier;
  tier_outcome :
    VerificationTier → string → option string
    → Py.Result (Handed TierResult);
  signals_during_tier : VerificationTier → list VerificationTier;
}.

(** A workflow instance together with the log of the tier activities it
    has started. *)
Record Machine : Type := {
  self : RuleVerificationState;
  executed : list VerificationTier;
}.

Definition all_tiers : list VerificationTier :=
  [SCHEMA; LEXICAL; SEMANTIC; NLI; CROSS_RULE].

(** [tier_activities[tier]] *)
Definition tier_activities (tier : VerificationTier) : string :=
  match tier with
  | SCHEMA => "verify_tier_0_activity"
  | LEXICAL => "verify_tier_1_activity"
  | SEMANTIC => "verify_tier_2_activity"
  | NLI => "verify_tier_3_activity"
  | CROSS_RULE => "verify_tier_4_activity"
  end.

(** Tiers 1, 2 and 3 are called with the source text. *)
Definition takes_source_text (tier : VerificationTier) : bool :=
  bool_decide (tier ∈ [LEXICAL; SEMANTIC; NLI]).

(** The scan [for result in reversed(self._tier_results)], on the
    reversed list. *)
Fixpoint scan_passed (reversed : list (Handed TierResult))
    : Py.Result (option VerificationTier) :=
  match reversed with
  | [] => Py.Ok None
  | result :: rest =>
      Py.bind (getattr result "passed" passed) (λ p,
        if p then
          Py.bind (getattr result "tier" tier) (λ t, Py.Ok (Some t))
        else scan_passed rest)
  end.

Definition highest_passed (results : list (Handed TierResult))
    : Py.Result (option VerificationTier) :=
  scan_passed (rev results).

(** [sum(r.score for r in self._tier_results)]: the scores are read one
    after the other. *)
Fixpoint scores (results : list (Handed TierResult)) : Py.Result (list Q) :=
  match results with
  | [] => Py.Ok []
  | r :: rest =>
      Py.bind (getattr r "score" score) (λ s,
        Py.bind (scores rest) (λ l, Py.Ok (s :: l)))
  end.

Definition average_score (results : list (Handed TierResult))
    : Py.Result Q :=
  Py.bind (scores results) (λ l,
    let total_score := Py.sum l in
    Py.Ok match results with
          | [] => 0.0%Q
          | _ :: _ => (total_score / Py.of_nat (length results))%Q
          end).

(** [all(r.passed for r in self._tier_results)]: stops at the first
    result that did not pass. *)
Fixpoint all_passed (results : list (Handed TierResult)) : Py.Result bool :=
  match results with
  | [] => Py.Ok true
  | r :: rest =>
      Py.bind (getattr r "passed" passed) (λ p,
        if p then all_passed rest else Py.Ok false)
  end.

Section RuleVerification.

Variable env : RuleVerificationEnv.
Variable input : RuleVerificationInput.

(** [await workflow.execute_activity(tier_activities[tier], ...)]: the
    call is logged, the signals that arrive meanwhile are handled, and
    the outcome comes back. *)
Definition execute_tier (tier : VerificationTier) (m : Machine)
    : Py.Result (Handed TierResult) * Machine :=
  let args_source :=
    if takes_source_text tier then source_text input else None in
  (tier_outcome env tier (rule_id input) args_source,
   {| self := deliver (signals_during_tier env tier) (self m);
      executed := executed m ++ [tier] |}).

(** The [for tier in list(self._tiers_remaining)] loop.  [Ok] is a
    normal exit (end of the list or [break]); [Raise] leaves the loop
    towards the [except] clause. *)
Fixpoint run_tiers (tiers : list VerificationTier) (m : Machine)
    : Py.Result unit * Machine :=
  match tiers with
  | [] => (Py.Ok (), m)
  | tier :: rest =>
      if bool_decide (tier ∈ _skip_tiers (self m)) then
        match list_remove tier (_tiers_remaining (self m)) with
        | Py.Raise e => (Py.Raise e, m)
        | Py.Ok remaining =>
            run_tiers rest
              {| self := set_tiers_remaining remaining (self m);
                 executed := executed m |}
        end
      else
        let m := {| self := set_current_tier (Some tier) (self m);
                    executed := executed m |} in
        match execute_tier tier m with
        | (Py.Raise e, m) => (Py.Raise e, m)
        | (Py.Ok result, m) =>
            match list_remove tier (_tiers_remaining (self m)) with
            | Py.Raise e =>
                (Py.Raise e,
                 {| self := record_result tier result
                              (_tiers_remaining (self m)) (self m);
                    executed := executed m |})
            | Py.Ok remaining =>
                let m := {| self := record_result tier result remaining (self m);
                            executed := executed m |} in
                (* if input.fail_fast and not result.passed: *)
                if fail_fast input then
                  match getattr result "passed" passed with
                  | Py.Raise e => (Py.Raise e, m)
                  | Py.Ok true => run_tiers rest m
                  | Py.Ok false =>
                      let m := {| self := mark_stopped (self m);
                                  executed := executed m |} in
                      match getattr result "tier_name" tier_name with
                      | Py.Raise e => (Py.Raise e, m)
                      | Py.Ok name =>
                          (Py.Ok (),
                           {| self :=
                                set_stop_reason
                                  ("Tier " +:+ Py.str_of_nat (value tier)
                                   +:+ " (" +:+ name +:+ ") failed")
                                  (self m);
                              executed := executed m |})
                      end
                  end
                else run_tiers rest m
            end
        end
  end.

(** The state when the body of [run] reaches its [try]. *)
Definition started : RuleVerificationState :=
  let st := deliver (signals_before_run env) init in
  let st :=
    {| _status := RUNNING; _rule_id := rule_id input;
       _current_tier := _current_tier st;
       _tier_results := _tier_results st;
       _tiers_completed := _tiers_completed st;
       _tiers_remaining := _tiers_remaining st;
       _skip_tiers := _skip_tiers st;
       _stopped_early := _stopped_early st;
       _stop_reason := _stop_reason st; _error := _error st |} in
  let st := deliver (skip_tiers input) st in
  set_tiers_remaining
    (List.filter
       (λ t, (value t <=? value (max_tier input))
             && negb (bool_decide (t ∈ _skip_tiers st)))
       all_tiers)
    st.

(** The [try] block up to the end of the loop. *)
Definition body : Py.Result unit * Machine :=
  let m := {| self := started; executed := [] |} in
  (* await load_rule_activity *)
  let m := {| self := deliver (signals_during_load env) (self m);
              executed := executed m |} in
  match load_rule_outcome env (rule_id input) with
  | Py.Raise e => (Py.Raise e, m)
  | Py.Ok _ => run_tiers (_tiers_remaining (self m)) m
  end.

(** "Compute final results", still inside the [try]. *)
Definition final_results (results : list (Handed TierResult))
    : Py.Result (option VerificationTier * Q * bool) :=
  Py.bind (highest_passed results) (λ highest_passed,
    Py.bind (average_score results) (λ avg_score,
      Py.bind (all_passed results) (λ overall_passed,
        Py.Ok (highest_passed, avg_score, overall_passed)))).

(** The [except] clause. *)
Definition failed (e : string) (m : Machine)
    : RuleVerificationOutput * Machine :=
  let m := {| self := finish FAILED (Some e) (self m);
              executed := executed m |} in
  ({| rv_status := FAILED;
      rv_rule_id := rule_id input;
      tier_results := validate <$> _tier_results (self m);
      highest_tier_passed := None;
      overall_score := 0.0%Q;
      overall_passed := false;
      stopped_early := true;
      stop_reason := Some e;
      rv_error := Some e |}, m).

(** [run]: the output record and the final machine. *)
Definition run : RuleVerificationOutput * Machine :=
  match body with
  | (Py.Raise e, m) => failed e m
  | (Py.Ok _, m) =>
      match final_results (_tier_results (self m)) with
      | Py.Raise e => failed e m
      | Py.Ok (highest_passed, avg_score, overall_passed) =>
          let m := {| self := finish COMPLETED (_error (self m)) (self m);
                      executed := executed m |} in
          ({| rv_status := COMPLETED;
              rv_rule_id := rule_id input;
              tier_results := validate <$> _tier_results (self m);
              highest_tier_passed := highest_passed;
              overall_score := avg_score;
              overall_passed := overall_passed;
              stopped_early := _stopped_early (self m);
              stop_reason := _stop_reason (self m);
              rv_error := None |}, m)
      end
  end.

End RuleVerification.

(** *** DriftDetectionWorkflow *)

Record DriftDetectionState : Type := {
  d_status : WorkflowStatus;
  _total_rules : nat;
  _checked_rules : nat;
  _drift_detected : nat;
  _drift_results : list (Handed RuleDriftResult);
  _notifications_sent : nat;
  d_error : option string;
}.

(** The outcomes of the three activities of a drift sweep, as handed
    back by [workflow.execute_activity] once the retry policy is spent.
    The notification receives the dicts that the workflow builds. *)
Record DriftEnv : Type := {
  get_all_rule_ids_outcome : Py.Result (list string);
  check_rule_drift_outcome : string → Py.Result (Handed RuleDriftResult);
  notify_drift_detected_outcome : list RuleDriftResult → Py.Result nat;
}.

Definition batch_size : nat := 10.

(** [range(0, n, step)] *)
Definition range_step (n step : nat) : list nat :=
  map (λ k, k * step) (seq 0 ((n + step - 1) / step)).

(** The loop [for result in batch_results]: the result is appended and
    counted before [result.has_drift] is read. *)
Fixpoint record_batch (batch_results : list (Handed RuleDriftResult))
    (st : DriftDetectionState) : Py.Result unit * DriftDetectionState :=
  match batch_results with
  | [] => (Py.Ok (), st)
  | result :: rest =>
      let st :=
        {| d_status := d_status st; _total_rules := _total_rules st;
           _checked_rules := _checked_rules st + 1;
           _drift_detected := _drift_detected st;
           _drift_results := _drift_results st ++ [result];
           _notifications_sent := _notifications_sent st;
           d_error := d_error st |} in
      match getattr result "has_drift" has_drift with
      | Py.Raise e => (Py.Raise e, st)
      | Py.Ok drifting =>
          record_batch rest
            {| d_status := d_status st; _total_rules := _total_rules st;
               _checked_rules := _checked_rules st;
               _drift_detected :=
                 if drifting then _drift_detected st + 1
                 else _drift_detected st;
               _drift_results := _drift_results st;
               _notifications_sent := _notifications_sent st;
               d_error := d_error st |}
      end
  end.

(** The dict built for one result with [has_drift]. *)
Definition drift_result_dict (r : Handed RuleDriftResult)
    : Py.Result RuleDriftResult :=
  Py.bind (getattr r "rule_id" dr_rule_id) (λ rule_id,
    Py.bind (getattr r "has_drift" has_drift) (λ drifting,
      Py.bind (getattr r "drift_types" drift_types) (λ types,
        Py.bind (getattr r "details" dr_details) (λ details,
          Py.bind (getattr r "severity" dr_severity) (λ severity,
            Py.Ok {| dr_rule_id := rule_id; has_drift := drifting;
                     drift_types := types; dr_details := details;
                     dr_severity := severity |}))))).

(** [[{...} for r in self._drift_results if r.has_drift]] *)
Fixpoint drift_results_dicts (results : list (Handed RuleDriftResult))
    : Py.Result (list RuleDriftResult) :=
  match results with
  | [] => Py.Ok []
  | r :: rest =>
      Py.bind (getattr r "has_drift" has_drift) (λ drifting,
        if drifting then
          Py.bind (drift_result_dict r) (λ d,
            Py.bind (drift_results_dicts rest) (λ l, Py.Ok (d :: l)))
        else drift_results_dicts rest)
  end.

Section DriftDetection.

Variable env : DriftEnv.
Variable input : DriftDetectionInput.

(** The loop over the batches; a batch whose [gather] raises leaves the
    state as the batches before it made it. *)
Fixpoint run_batches (batches : list (list string))
    (st : DriftDetectionState) : Py.Result unit * DriftDetectionState :=
  match batches with
  | [] => (Py.Ok (), st)
  | batch :: rest =>
      match gather (map (check_rule_drift_outcome env) batch) with
      | Py.Raise e => (Py.Raise e, st)
      | Py.Ok batch_results =>
          match record_batch batch_results st with
          | (Py.Raise e, st) => (Py.Raise e, st)
          | (Py.Ok _, st) => run_batches rest st
          end
      end
  end.

Definition drift_started : DriftDetectionState :=
  {| d_status := RUNNING; _total_rules := 0; _checked_rules := 0;
     _drift_detected := 0; _drift_results := [];
     _notifications_sent := 0; d_error := None |}.

(** Phase 1: the explicit list when it is non-empty, else the corpus. *)
Definition resolve_rule_ids : Py.Result (list string) :=
  match rule_ids input with
  | Some ((_ :: _) as ids) => Py.Ok ids
  | _ => get_all_rule_ids_outcome env
  end.

Definition drift_body : Py.Result unit * DriftDetectionState :=
  match resolve_rule_ids with
  | Py.Raise e => (Py.Raise e, drift_started)
  | Py.Ok rule_ids =>
      let st :=
        {| d_status := RUNNING; _total_rules := length rule_ids;
           _checked_rules := 0; _drift_detected := 0;
           _drift_results := []; _notifications_sent := 0;
           d_error := None |} in
      let batches :=
        map (λ i, take batch_size (drop i rule_ids))
            (range_step (length rule_ids) batch_size) in
      match run_batches batches st with
      | (Py.Raise e, st) => (Py.Raise e, st)
      | (Py.Ok _, st) =>
          if notify_on_drift input && (0 <? _drift_detected st) then
            match drift_results_dicts (_drift_results st) with
            | Py.Raise e => (Py.Raise e, st)
            | Py.Ok drift_results_dicts =>
                match notify_drift_detected_outcome env
                        drift_results_dicts with
                | Py.Raise e => (Py.Raise e, st)
                | Py.Ok sent =>
                    (Py.Ok (),
                     {| d_status := d_status st;
                        _total_rules := _total_rules st;
                        _checked_rules := _checked_rules st;
                        _drift_detected := _drift_detected st;
                        _drift_results := _drift_results st;
                        _notifications_sent := sent;
                        d_error := d_error st |})
                end
            end
          else (Py.Ok (), st)
      end
  end.

Definition drift_run : DriftDetectionOutput :=
  match drift_body with
  | (Py.Ok _, st) =>
      {| dd_status := COMPLETED;
         rules_checked := _checked_rules st;
         rules_with_drift := _drift_detected st;
         drift_results := validate <$> _drift_results st;
         notifications_sent := _notifications_sent st;
         dd_error := None |}
  | (Py.Raise e, st) =>
      {| dd_status := FAILED;
         rules_checked := _checked_rules st;
         rules_with_drift := _drift_detected st;
         drift_results := validate <$> _drift_results st;
         notifications_sent := _notifications_sent st;
         dd_error := Some e |}
  end.

End DriftDetection.

End Workflows.

(** * Vocabulary of the statements

    Definitions that the theorems below use to say what the code does:
    predicates on runs and results, and the sample data of the worked
    examples.  None of them is part of the embedding. *)

Module Common.

(** The mean of a list of numbers, as the statements name it. *)
Definition mean (xs : list Q) : Q :=
  (fold_right Qplus 0 xs / Py.of_nat (length xs))%Q.

End Common.

Module PyVocab.

Import Py.

(** Length of the longest prefix of word characters. *)
Fixpoint word_prefix (l : list ascii) : nat :=
  match l with
  | c :: l' => if is_word c then S (word_prefix l') else 0
  | [] => 0
  end.

(** Maximal runs of word characters of a text, in order. *)
Fixpoint word_runs_go (cur : list ascii) (l : list ascii) : list (list ascii) :=
  match l with
  | [] => match cur with [] => [] | _ => [rev cur] end
  | c :: l' =>
      if is_word c then word_runs_go (c :: cur) l'
      else match cur with
           | [] => word_runs_go [] l'
           | _ => rev cur :: word_runs_go [] l'
           end
  end.

Definition word_runs (s : string) : list (list ascii) :=
  word_runs_go [] (chars s).

(** The maximal runs of word characters that consist of letters only and
    have at least [n] of them. *)
Definition alpha_runs (n : nat) (text : string) : list string :=
  map str
    (filter (λ run, forallb is_alpha run ∧ n ≤ length run)
            (word_runs text)).

End PyVocab.

Module CrossRuleVocab.

Import CrossRule.

Definition leaf_rule (id outcome : string) (applies : option Condition)
    (from to : option date) : Rule :=
  {| rule_id := id; applies_if := applies;
     decision_tree := Some (DecisionLeaf outcome);
     effective_from := from; effective_to := to |}.

(** Validity periods A, B and C of the temporal example. *)
Definition period_A : Rule :=
  leaf_rule "A" "permitted" None
    (Some (Date 2024 1 1)) (Some (Date 2024 6 30)).
Definition period_B : Rule :=
  leaf_rule "B" "prohibited" None
    (Some (Date 2024 6 1)) (Some (Date 2024 12 31)).
Definition period_C : Rule :=
  leaf_rule "C" "prohibited" None
    (Some (Date 2024 7 1)) (Some (Date 2024 12 31)).

(** Two rules with contradicting outcomes that test different fields. *)
Definition retail_rule : Rule :=
  leaf_rule "retail" "Permitted"
    (Some (ConditionGroupSpec [ConditionSpec "investor_type" "==" "retail"] []))
    None None.
Definition issuer_rule : Rule :=
  leaf_rule "issuer" "prohibited"
    (Some (ConditionSpec "issuer_licensed" "==" "false")) None None.

(** The outcome pairs that the scans test, with the rule they belong to. *)
Definition contradicts (related : list Rule) (rule other : Rule)
    (p o : string) : Prop :=
  other ∈ related ∧ rule_id other ≠ rule_id rule
  ∧ p ∈ _extract_outcomes rule ∧ o ∈ _extract_outcomes other
  ∧ _are_contradicting p o = true.

(** A field name occurs in a condition: it labels a leaf reached through
    [all] and [any] members. *)
Inductive field_of (f : string) : Condition → Prop :=
| field_of_spec op v : f ≠ "" → field_of f (ConditionSpec f op v)
| field_of_all all any c :
    c ∈ all → field_of f c → field_of f (ConditionGroupSpec all any)
| field_of_any all any c :
    c ∈ any → field_of f c → field_of f (ConditionGroupSpec all any).

(** The entry appended for one contradicting pair. *)
Definition entry (rule other : Rule) (p o : string) : Contradiction :=
  {| rule1_id := rule_id rule; rule1_outcome := p;
     rule2_id := rule_id other; rule2_outcome := o;
     conditions_overlap := _conditions_overlap rule other |}.

Definition pairs_of (rule other : Rule) : list Contradiction :=
  flat_map (λ p,
    flat_map (λ o, if _are_contradicting p o then [entry rule other p o] else [])
             (_extract_outcomes other))
    (_extract_outcomes rule).

(** The accumulating loop over a group's members. *)
Definition update_fields (items : list Condition) (fields : gset string)
    : gset string :=
  fold_left (λ fields item, fields ∪ _extract_condition_fields item)
            items fields.

(** The later of the two starts and the earlier of the two ends, absent
    bounds replaced by the sentinels. *)
Definition window_start (rule other : Rule) : date :=
  date_max (default (Date 1900 1 1) (effective_from rule))
           (default (Date 1900 1 1) (effective_from other)).

Definition window_end (rule other : Rule) : date :=
  date_min (default (Date 2999 12 31) (effective_to rule))
           (default (Date 2999 12 31) (effective_to other)).

Definition windows_overlap (rule other : Rule) : bool :=
  date_leb (window_start rule other) (window_end rule other).

Definition temporal_entry (rule other : Rule) : TemporalConflict :=
  {| tc_rule1_id := rule_id rule;
     tc_rule2_id := rule_id other;
     overlap_start := Some (isoformat (window_start rule other));
     overlap_end := Some (isoformat (window_end rule other)) |}.

(** Which of the related rules end up in [overlapping_conflicts]. *)
Definition conflicting (rule other : Rule) : bool :=
  negb (bool_decide (rule_id other = rule_id rule))
  && has_conflict rule other && windows_overlap rule other.

End CrossRuleVocab.

Module NliVocab.

Import Nli.

(** [m] is a largest element of [xs]. *)
Definition is_maximum (m : Q) (xs : list Q) : Prop :=
  m ∈ xs ∧ ∀ x, x ∈ xs → (x <= m)%Q.

(** No label has more votes than [l]. *)
Definition is_majority (results : list NLIResult) (l : NLILabel) : Prop :=
  ∀ l', label_count results l' ≤ label_count results l.

Definition contradiction_confidences (results : list NLIResult) : list Q :=
  map confidence (List.filter (is_label CONTRADICTION) results).

Definition strong_contradiction : NLIResult :=
  {| label := CONTRADICTION; confidence := 0.9; entailment_score := 0.05;
     neutral_score := 0.05; contradiction_score := 0.9 |}.

Definition weak_entailment : NLIResult :=
  {| label := ENTAILMENT; confidence := 0.7; entailment_score := 0.7;
     neutral_score := 0.2; contradiction_score := 0.1 |}.

End NliVocab.

Module ActivitiesVocab.

Import Schemas Activities.

(** C8 for one engine, rule and set of baseline facts: the scenario that
    changes nothing is reported as not differing from the baseline. *)
Definition unchanged_scenario_agrees
    (evaluate : Facts → string → Py.Result DecisionResult)
    (rule_id : string) (baseline_facts : Facts) : Prop :=
  ∀ baseline scenario_id scenario_type description,
    evaluate_baseline_activity evaluate rule_id baseline_facts
    = Py.Ok baseline →
    is_Some (scenario_type_of scenario_type) →
    ∃ result,
      analyze_counterfactual_activity evaluate rule_id baseline_facts
        scenario_id scenario_type description [] (decision baseline)
      = Py.Ok result
      ∧ differs_from_baseline result = false
      ∧ key_differences result = [].

(** An engine that reaches no decision, as for a rule that does not apply. *)
Definition undecided : Facts → string → Py.Result DecisionResult :=
  λ _ _, Py.Ok {| er_decision := None; er_applicable := false;
                  er_obligations := []; er_trace := [] |}.

End ActivitiesVocab.

Module EmbeddingsVocab.

Import Embeddings.
Local Open Scope R_scope.

(** The unit roundoff of binary64, and what one rounding can take off a
    positive number. *)
Definition unit_roundoff : R := / 2 ^ 53.
Definition one_rounding : R := 1 - unit_roundoff.

(** [x] and [y] are apart by at most [k] roundings:
    [(1-u)^k * y <= x] and [(1-u)^k * x <= y]. *)
Definition near (k : nat) (x y : R) : Prop :=
  one_rounding ^ k * y <= x ∧ one_rounding ^ k * x <= y.

(** The sum of numbers, without rounding. *)
Definition exact_sum (xs : list R) : R := fold_right Rplus 0 xs.

(** Arithmetic on the numbers that the doubles denote: every operation
    returns its exact result rounded by [rnd]; [flog] is [math.log] and
    [fsum] the builtin [sum]. *)
Definition rounded (rnd flog : R → R) (fsum : list R → R) : PyFloat R := {|
  of_int := λ n, rnd (INR n);
  add := λ x y, rnd (x + y);
  mul := λ x y, rnd (x * y);
  div := λ x y, rnd (x / y);
  sqrt := λ x, rnd (R_sqrt.sqrt x);
  log := flog;
  sum := fsum;
  eqb := λ x y, if Req_dec_T x y then true else false;
  geb := λ x y, if Rge_dec x y then true else false;
|}.

(** The standard model of binary64 arithmetic, away from overflow and
    underflow: a rounding moves a number by the relative error
    [unit_roundoff] at most and leaves 1 and 2 alone; the logarithm of 1
    is 0 and that of a larger number is not negative; a sum of [n]
    numbers, none negative, is within [n] roundings of their exact
    sum. *)
Record standard_model (rnd flog : R → R) (fsum : list R → R) : Prop := {
  rnd_near : ∀ x, 0 <= x → near 1 (rnd x) x;
  rnd_one : rnd 1 = 1;
  rnd_two : rnd 2 = 2;
  log_one : flog 1 = 0;
  log_nonneg : ∀ x, 1 <= x → 0 <= flog x;
  sum_near :
    ∀ xs, Forall (λ x, 0 <= x) xs → near (length xs) (fsum xs) (exact_sum xs);
}.

(** [order] lists the elements of the set, each once. *)
Definition listing (order : list string) (tokens : gset string) : Prop :=
  NoDup order ∧ ∀ t, t ∈ order ↔ t ∈ tokens.

(** The set [all_tokens] of a call on two texts. *)
Definition all_tokens (text1 text2 : string) : gset string :=
  list_to_set (_tokenize text1) ∪ list_to_set (_tokenize text2).

End EmbeddingsVocab.

Module WorkflowsVocab.

Import Schemas Workflows.

(** The outcome that the run is handed for tier [t]. *)
Definition outcome_of (env : RuleVerificationEnv) (input : RuleVerificationInput)
    (t : VerificationTier) : Py.Result (Handed TierResult) :=
  tier_outcome env t (rule_id input)
    (if takes_source_text t then source_text input else None).

(** The text recorded as [stop_reason] when tier [t] fails with [r]. *)
Definition stop_message (t : VerificationTier) (r : TierResult) : string :=
  "Tier " +:+ Py.str_of_nat (value t) +:+ " (" +:+ tier_name r +:+ ") failed".

(** Tier [t] has been asked to be skipped before its turn: it is listed in
    the input, or a [skip_tier] signal for it arrived before the run
    started, while the rule was loaded, or while an earlier tier of the
    run was executing. *)
Definition requested_before (env : RuleVerificationEnv)
    (input : RuleVerificationInput) (ran : list VerificationTier)
    (t : VerificationTier) : Prop :=
  t ∈ skip_tiers input
  ∨ t ∈ signals_before_run env
  ∨ t ∈ signals_during_load env
  ∨ ∃ t', t' ∈ ran ∧ value t' < value t ∧ t ∈ signals_during_tier env t'.

(** Two environments that differ at most in what they hold for tier [t]. *)
Definition agree_except (t : VerificationTier)
    (env env' : RuleVerificationEnv) : Prop :=
  signals_before_run env' = signals_before_run env
  ∧ load_rule_outcome env' = load_rule_outcome env
  ∧ signals_during_load env' = signals_during_load env
  ∧ ∀ t', t' ≠ t →
      tier_outcome env' t' = tier_outcome env t'
      ∧ signals_during_tier env' t' = signals_during_tier env t'.

(** Every activity reports under its own tier, as the five tier activities
    do. *)
Definition tagged (env : RuleVerificationEnv) : Prop :=
  ∀ t rule_id source h,
    tier_outcome env t rule_id source = Py.Ok h → tier (validate h) = t.

(** Every result comes back as the deployment hands it: a [dict]. *)
Definition hands_dicts (env : RuleVerificationEnv) : Prop :=
  ∀ t rule_id source h,
    tier_outcome env t rule_id source = Py.Ok h → ∃ r, h = AsDict r.

(** The machine after tier [t] has returned [h] and the bookkeeping of the
    loop body is done. *)
Definition after_result (env : RuleVerificationEnv) (t : VerificationTier)
    (h : Handed TierResult) (rest : list VerificationTier) (m : Machine)
    : Machine :=
  {| self := record_result t h rest
               (deliver (signals_during_tier env t)
                        (set_current_tier (Some t) (self m)));
     executed := executed m ++ [t] |}.

(** Tiers in ascending order of their number. *)
Fixpoint ascending (tiers : list VerificationTier) : Prop :=
  match tiers with
  | [] => True
  | t :: rest => (∀ t', t' ∈ rest → value t < value t') ∧ ascending rest
  end.

(** What one pass of the tier loop did, seen from outside: the tiers it
    started ([ran]) and the results it appended ([results]). *)
Record LoopSummary (env : RuleVerificationEnv) (input : RuleVerificationInput)
    (tiers : list VerificationTier) (m : Machine)
    (res : Py.Result unit) (m' : Machine)
    (ran : list VerificationTier) (results : list (Handed TierResult))
    : Prop := {
  ran_logged : executed m' = executed m ++ ran;
  results_appended :
    _tier_results (self m') = _tier_results (self m) ++ results;
  ran_listed : ∀ t, t ∈ ran → t ∈ tiers;
  ran_ascending : ascending ran;
  results_of_ran :
    outcome_of env input <$> take (length results) ran = Py.Ok <$> results;
  results_complete : res = Py.Ok () → length results = length ran;
  results_from_ran :
    ∀ h, h ∈ results → ∃ t, t ∈ ran ∧ outcome_of env input t = Py.Ok h;
  skipped_not_ran :
    ∀ t, (t ∈ _skip_tiers (self m)
          ∨ ∃ t', t' ∈ ran ∧ value t' < value t
                  ∧ t ∈ signals_during_tier env t') →
         t ∉ ran;
  failure_stops :
    fail_fast input = true →
    ∀ t r, t ∈ ran → outcome_of env input t = Py.Ok (AsModel r) →
      passed r = false →
      res = Py.Ok () ∧ last ran = Some t ∧ last results = Some (AsModel r)
      ∧ _stopped_early (self m') = true
      ∧ _stop_reason (self m') = Some (stop_message t r);
  dict_stops :
    fail_fast input = true →
    ∀ t r, t ∈ ran → outcome_of env input t = Py.Ok (AsDict r) →
      res = Py.Raise (attribute_error "passed")
      ∧ last ran = Some t ∧ last results = Some (AsDict r)
      ∧ length results = length ran;
  read_results :
    fail_fast input = true → res = Py.Ok () →
    ∀ h, h ∈ results → ∃ r, h = AsModel r;
  nothing_ran :
    (∀ t, t ∈ tiers → t ∈ _skip_tiers (self m)) →
    res = Py.Ok () ∧ ran = []
    ∧ _stopped_early (self m') = _stopped_early (self m)
    ∧ _stop_reason (self m') = _stop_reason (self m);
}.

Definition sample_result (t : VerificationTier) (ok : bool) : TierResult :=
  {| tier := t; tier_name := tier_activities t; passed := ok;
     score := if ok then 1.0%Q else 0.0%Q; checks_run := 1;
     checks_passed := if ok then 1 else 0; evidence := [] |}.

(** Every tier passes but tier 0; no signals.  The results come back as
    dicts. *)
Definition schema_fails : RuleVerificationEnv :=
  {| signals_before_run := [];
     load_rule_outcome := λ _, Py.Ok ();
     signals_during_load := [];
     tier_outcome := λ t _ _,
       Py.Ok (AsDict (sample_result t (negb (bool_decide (t = SCHEMA)))));
     signals_during_tier := λ _, [] |}.

(** The same activities behind a converter that hands back models. *)
Definition schema_fails_typed : RuleVerificationEnv :=
  {| signals_before_run := [];
     load_rule_outcome := λ _, Py.Ok ();
     signals_during_load := [];
     tier_outcome := λ t _ _,
       Py.Ok (AsModel (sample_result t (negb (bool_decide (t = SCHEMA)))));
     signals_during_tier := λ _, [] |}.

(** Every tier passes; while tier 0 runs, a signal asks to skip tier 2. *)
Definition skip_semantic_signalled : RuleVerificationEnv :=
  {| signals_before_run := [];
     load_rule_outcome := λ _, Py.Ok ();
     signals_during_load := [];
     tier_outcome := λ t _ _, Py.Ok (AsDict (sample_result t true));
     signals_during_tier := λ t,
       if bool_decide (t = SCHEMA) then [SEMANTIC] else [] |}.

(** While the rule is loaded, a signal asks to skip tier 1. *)
Definition skip_lexical_on_load : RuleVerificationEnv :=
  {| signals_before_run := [];
     load_rule_outcome := λ _, Py.Ok ();
     signals_during_load := [LEXICAL];
     tier_outcome := λ t _ _, Py.Ok (AsDict (sample_result t true));
     signals_during_tier := λ _, [] |}.

Definition verify_all : RuleVerificationInput :=
  {| rule_id := "rule"; source_text := None; max_tier := CROSS_RULE;
     skip_tiers := []; fail_fast := true |}.

Definition verify_two_skip_schema : RuleVerificationInput :=
  {| rule_id := "rule"; source_text := None; max_tier := LEXICAL;
     skip_tiers := [SCHEMA]; fail_fast := true |}.

End WorkflowsVocab.

Module DriftVocab.

Import Schemas Workflows.

(** The isolation of per-rule failures, as C9 words it: whenever the drift
    check of one rule of the resolved list fails, the run does not end
    failed, that rule has an entry, and the results of the other rules are
    in [drift_results]. *)
Definition isolates_failures (env : DriftEnv) (input : DriftDetectionInput)
    : Prop :=
  ∀ ids rid e,
    resolve_rule_ids env input = Py.Ok ids →
    rid ∈ ids →
    check_rule_drift_outcome env rid = Py.Raise e →
    dd_status (drift_run env input) ≠ FAILED
    ∧ (∃ d, d ∈ drift_results (drift_run env input) ∧ dr_rule_id d = rid)
    ∧ (∀ other h, other ∈ ids →
         check_rule_drift_outcome env other = Py.Ok h →
         validate h ∈ drift_results (drift_run env input)).

(** The batches of a sweep over [ids]. *)
Definition batches_of (ids : list string) : list (list string) :=
  map (λ i, take batch_size (drop i ids)) (range_step (length ids) batch_size).

(** Batch number [j] of the sweep, and the rules of the batches before
    it. *)
Definition batch (ids : list string) (j : nat) : list string :=
  take batch_size (drop (j * batch_size) ids).

Definition before_batch (ids : list string) (j : nat) : list string :=
  take (j * batch_size) ids.

(** The drift check of some rule of the batch raises. *)
Definition raises_in (env : DriftEnv) (rules : list string) : Prop :=
  ∃ rid e, rid ∈ rules ∧ check_rule_drift_outcome env rid = Py.Raise e.

(** The drift check of every rule of the list returns, and its result
    comes back as a model, whose attributes the workflow can read. *)
Definition returns_models (env : DriftEnv) (rules : list string) : Prop :=
  ∀ rid, rid ∈ rules →
    ∃ d, check_rule_drift_outcome env rid = Py.Ok (AsModel d).

(** A sweep in which the check of ["r2"] raises. *)
Definition clean (rid : string) : RuleDriftResult :=
  {| dr_rule_id := rid; has_drift := false; drift_types := [];
     dr_details := []; dr_severity := "none" |}.

Definition one_bad_rule : DriftEnv :=
  {| get_all_rule_ids_outcome := Py.Ok ["r1"; "r2"];
     check_rule_drift_outcome := λ rid,
       if bool_decide (rid = "r2") then Py.Raise "ActivityError: drift check failed"
       else Py.Ok (AsDict (clean rid));
     notify_drift_detected_outcome := λ l, Py.Ok (length l) |}.

Definition sweep_two : DriftDetectionInput :=
  {| rule_ids := Some ["r1"; "r2"]; notify_on_drift := true |}.

(** A sweep over twelve rules in which the check of the eleventh raises
    and the results come back as models. *)
Definition twelve_rules : list string :=
  ["r01"; "r02"; "r03"; "r04"; "r05"; "r06"; "r07"; "r08"; "r09"; "r10";
   "r11"; "r12"].

Definition eleventh_bad : DriftEnv :=
  {| get_all_rule_ids_outcome := Py.Ok twelve_rules;
     check_rule_drift_outcome := λ rid,
       if bool_decide (rid = "r11") then Py.Raise "ActivityError: drift check failed"
       else Py.Ok (AsModel (clean rid));
     notify_drift_detected_outcome := λ l, Py.Ok (length l) |}.

Definition sweep_all : DriftDetectionInput :=
  {| rule_ids := None; notify_on_drift := true |}.

(** The batches [a], [a+1], ..., [a+n-1] of the sweep. *)
Definition batches_from (ids : list string) (a n : nat) : list (list string) :=
  map (λ k, take batch_size (drop (k * batch_size) ids)) (seq a n).

(** The fields of a sweep after the results [ds] have been recorded on
    top of [st]. *)
Definition recorded (ds : list RuleDriftResult)
    (st st' : DriftDetectionState) : Prop :=
  _drift_results st' = _drift_results st ++ (AsModel <$> ds)
  ∧ _checked_rules st' = _checked_rules st + length ds
  ∧ _total_rules st' = _total_rules st
  ∧ _notifications_sent st' = _notifications_sent st
  ∧ _drift_detected st'
    = _drift_detected st + length (List.filter has_drift ds).

End DriftVocab.

(** * Properties *)

Module CommonSpec.

Import Common.

Lemma sum_fold_right xs a :
  (fold_left Qplus xs a == a + fold_right Qplus 0 xs)%Q.
Proof.
  revert a. induction xs as [|x xs IH]; intros a; simpl.
  - ring.
  - rewrite IH. ring.
Qed.

Lemma sum_mean xs :
  (Py.sum xs / Py.of_nat (length xs) == mean xs)%Q.
Proof.
  unfold Py.sum, mean. rewrite sum_fold_right. by rewrite Qplus_0_l.
Qed.

Lemma sum_mean_map {A} (f : A → Q) (l : list A) :
  (Py.sum (map f l) / Py.of_nat (length l) == mean (map f l))%Q.
Proof. rewrite <- (length_map f l). apply sum_mean. Qed.

End CommonSpec.

Module PySpec.

Import Py PyVocab.

Lemma alpha_word c : is_alpha c = true → is_word c = true.
Proof. unfold is_word. by intros ->. Qed.

Lemma letters_le_word l : letters_prefix l ≤ word_prefix l.
Proof.
  induction l as [|c l IH]; simpl; [done|].
  destruct (is_alpha c) eqn:E; [|lia].
  rewrite (alpha_word c E). lia.
Qed.

Lemma lookup_letters l i :
  i < letters_prefix l → ∃ c, l !! i = Some c ∧ is_alpha c = true.
Proof.
  revert i. induction l as [|c l IH]; intros i; simpl; [lia|].
  destruct (is_alpha c) eqn:E; [|lia].
  destruct i as [|i]; simpl; [eauto|]. intros H. apply IH. lia.
Qed.

Lemma lookup_word_prefix l : word_opt (l !! word_prefix l) = false.
Proof.
  induction l as [|c l IH]; simpl; [done|].
  destruct (is_word c) eqn:E; simpl; [done|]. by rewrite E.
Qed.

Lemma lookup_letters_prefix l :
  word_opt (l !! letters_prefix l)
  = negb (letters_prefix l =? word_prefix l).
Proof.
  induction l as [|c l IH]; simpl; [done|].
  destruct (is_alpha c) eqn:E.
  - rewrite (alpha_word c E). simpl. apply IH.
  - simpl. destruct (is_word c); done.
Qed.

Lemma forallb_letters l :
  forallb is_alpha (take (word_prefix l) l) = true
  ↔ letters_prefix l = word_prefix l.
Proof.
  induction l as [|c l IH]; simpl; [done|].
  destruct (is_alpha c) eqn:E.
  - rewrite (alpha_word c E). simpl. rewrite E. simpl. rewrite IH. lia.
  - destruct (is_word c); simpl; [|done]. rewrite E. simpl. split; [done|lia].
Qed.

Lemma length_take_word l : length (take (word_prefix l) l) = word_prefix l.
Proof.
  induction l as [|c l IH]; simpl; [done|].
  destruct (is_word c); simpl; [by rewrite IH|done].
Qed.

Lemma backtrack_below n prev l k :
  1 ≤ n → k < letters_prefix l → backtrack n prev l k = None.
Proof.
  intros Hn. induction k as [|k IH]; intros Hk; cbn [backtrack].
  - destruct n; [lia|done].
  - destruct (lookup_letters l k) as (c & Hc & Ec); [lia|].
    destruct (lookup_letters l (S k)) as (d & Hd & Ed); [lia|].
    unfold boundary_at, boundary. rewrite Hc, Hd. cbn [word_opt].
    rewrite (alpha_word c Ec), (alpha_word d Ed). cbn [xorb].
    rewrite andb_false_r. apply IH. lia.
Qed.

Lemma backtrack_top n prev l :
  1 ≤ n →
  backtrack n prev l (letters_prefix l)
  = if (1 <=? letters_prefix l) && (n <=? letters_prefix l)
       && (letters_prefix l =? word_prefix l)
    then Some (letters_prefix l) else None.
Proof.
  intros Hn. pose proof (lookup_letters_prefix l) as Hlast.
  destruct (letters_prefix l) as [|k] eqn:Ek; cbn [backtrack].
  - destruct n; [lia|done].
  - destruct (lookup_letters l k) as (c & Hc & Ec); [lia|].
    unfold boundary_at, boundary. rewrite Hc, Hlast. cbn [word_opt].
    rewrite (alpha_word c Ec).
    replace (1 <=? S k) with true by done. cbn [andb].
    destruct (n <=? S k); cbn [andb]; [|apply backtrack_below; lia].
    destruct (S k =? word_prefix l); cbn [xorb negb]; [done|].
    apply backtrack_below; lia.
Qed.

(** When the position is inside a run of word characters, or the run that
    starts here is not a token, the attempt fails; otherwise it takes the
    whole run. *)
Lemma match_here_spec n prev l :
  1 ≤ n →
  match_here n prev l
  = if negb (word_opt prev) && (1 <=? letters_prefix l)
       && (n <=? letters_prefix l) && (letters_prefix l =? word_prefix l)
    then Some (letters_prefix l) else None.
Proof.
  intros Hn. unfold match_here, boundary_at, boundary.
  rewrite backtrack_top by done.
  destruct (word_opt prev) eqn:Ep; simpl.
  - destruct l as [|c l]; simpl.
    + destruct n; [lia|done].
    + destruct (is_word c) eqn:Ew; simpl; [done|].
      destruct (is_alpha c) eqn:Ea; [by rewrite (alpha_word c Ea) in Ew|].
      simpl. done.
  - destruct l as [|c l]; simpl; [done|].
    destruct (is_word c) eqn:Ew; simpl; [done|].
    destruct (is_alpha c) eqn:Ea; [by rewrite (alpha_word c Ea) in Ew|done].
Qed.

Lemma word_runs_go_run cur l :
  cur ≠ [] ∨ 1 ≤ word_prefix l →
  word_runs_go cur l
  = (rev cur ++ take (word_prefix l) l)
      :: word_runs_go [] (drop (word_prefix l) l).
Proof.
  revert cur. induction l as [|c l IH]; intros cur H.
  - simpl in *. destruct cur; [destruct H; [done|lia]|].
    by rewrite app_nil_r.
  - cbn [word_runs_go word_prefix] in *. destruct (is_word c) eqn:E.
    + rewrite IH by (by left). cbn [rev take drop].
      by rewrite <- app_assoc.
    + cbn [take drop]. rewrite app_nil_r.
      destruct cur; [destruct H; [done|lia]|].
      cbn [word_runs_go]. by rewrite E.
Qed.

Lemma run_is_token n l :
  (n <=? letters_prefix l) && (letters_prefix l =? word_prefix l) = true
  ↔ forallb is_alpha (take (word_prefix l) l)
    ∧ n ≤ length (take (word_prefix l) l).
Proof.
  rewrite length_take_word, andb_true_iff, Nat.leb_le, Nat.eqb_eq.
  rewrite Is_true_true, forallb_letters.
  split; intros [H1 H2]; split; lia.
Qed.

(** The scan, started anywhere: behind a word character, or with part of a
    match still to be passed, it resumes after the current run of word
    characters. *)
Lemma findall_go_runs n l : ∀ k prev,
  1 ≤ n → k ≤ word_prefix l →
  findall_go n k prev l
  = filter (λ run, forallb is_alpha run ∧ n ≤ length run)
      (word_runs_go []
         (if (0 <? k) || word_opt prev then drop (word_prefix l) l else l)).
Proof.
  induction l as [|c l IH]; intros k prev Hn Hk.
  { simpl. by destruct (_ || _). }
  destruct k as [|k].
  - cbn [findall_go Nat.ltb Nat.leb orb]. rewrite match_here_spec by done.
    destruct (word_opt prev) eqn:Ep; cbn [negb andb].
    + rewrite IH by (done || lia). cbn [Nat.ltb Nat.leb orb word_opt].
      cbn [word_prefix]. destruct (is_word c) eqn:E; cbn [drop]; [done|].
      cbn [word_runs_go]. by rewrite E.
    + destruct (is_word c) eqn:E.
      * rewrite (word_runs_go_run [] (c :: l))
          by (right; cbn [word_prefix]; rewrite E; lia).
        cbn [rev app]. rewrite filter_cons.
        pose proof (run_is_token n (c :: l)) as Htok.
        assert (1 ≤ letters_prefix (c :: l) ∨ letters_prefix (c :: l) = 0)
          as [Hpos|Hzero] by lia.
        -- replace (1 <=? letters_prefix (c :: l)) with true
             by (symmetry; by apply Nat.leb_le).
           cbn [andb].
           destruct ((n <=? letters_prefix (c :: l))
                     && (letters_prefix (c :: l) =? word_prefix (c :: l)))
             eqn:Em.
           ++ rewrite decide_True by (by apply Htok).
              apply andb_true_iff in Em as [_ Em%Nat.eqb_eq].
              rewrite Em. cbn [word_prefix]. rewrite E.
              rewrite IH by (done || lia).
              cbn [word_opt]. rewrite E, orb_true_r. done.
           ++ rewrite decide_False by (by rewrite <- Htok).
              rewrite IH by (done || lia).
              cbn [Nat.ltb Nat.leb orb word_opt word_prefix].
              rewrite E. done.
        -- rewrite Hzero. cbn [Nat.leb andb].
           rewrite decide_False.
           2:{ rewrite <- Htok, Hzero. cbn [word_prefix]. rewrite E.
               rewrite andb_true_iff, Nat.leb_le, Nat.eqb_eq. lia. }
           rewrite IH by (done || lia).
           cbn [Nat.ltb Nat.leb orb word_opt word_prefix]. rewrite E. done.
      * assert (letters_prefix (c :: l) = 0) as ->.
        { cbn [letters_prefix]. destruct (is_alpha c) eqn:Ea; [|done].
          by rewrite (alpha_word c Ea) in E. }
        cbn [Nat.leb andb]. rewrite IH by (done || lia).
        cbn [Nat.ltb Nat.leb orb word_opt word_runs_go]. by rewrite E.
  - cbn [findall_go]. cbn [word_prefix] in *.
    destruct (is_word c) eqn:E; [|lia].
    rewrite IH by (done || lia). cbn [word_opt]. rewrite E, orb_true_r.
    by cbn [Nat.ltb Nat.leb orb drop].
Qed.

(** What the matcher finds are the maximal runs of word characters that
    are made of letters and long enough, for every minimum length of at
    least one letter: giving letters back never produces a boundary. *)
Lemma findall_alpha_runs n text :
  1 ≤ n → findall_alpha n text = alpha_runs n text.
Proof.
  intros Hn. unfold findall_alpha, alpha_runs, word_runs.
  by rewrite findall_go_runs by (done || lia).
Qed.

End PySpec.

Module CrossRuleSpec.

Import CrossRule CrossRuleVocab.

(** *** Sample rules *)

Lemma scan_outcomes_fst rule other acc :
  (scan_outcomes rule other acc).1 = acc.1 ++ pairs_of rule other.
Proof.
  unfold scan_outcomes, pairs_of.
  generalize (_extract_outcomes rule) as ps.
  intros ps. revert acc.
  induction ps as [|p ps IH]; intros acc; simpl.
  - by rewrite app_nil_r.
  - rewrite IH. clear IH.
    assert (H : ∀ os acc,
      (fold_left (λ '(contradictions, contradicting_ids) o_outcome,
          if _are_contradicting p o_outcome then
            (contradictions ++ [entry rule other p o_outcome],
             if bool_decide (rule_id other ∈ contradicting_ids)
             then contradicting_ids
             else contradicting_ids ++ [rule_id other])
          else (contradictions, contradicting_ids)) os acc).1
      = acc.1 ++ flat_map (λ o, if _are_contradicting p o
                                then [entry rule other p o] else []) os).
    { induction os as [|o os IH]; intros [cs ids]; simpl.
      - by rewrite app_nil_r.
      - destruct (_are_contradicting p o); rewrite IH; simpl.
        + by rewrite <- app_assoc.
        + done. }
    unfold entry in H. rewrite H. by rewrite <- app_assoc.
Qed.

Lemma scan_rules_fst related rule :
  (scan_rules related rule).1 =
  flat_map (λ other,
    if bool_decide (rule_id other = rule_id rule) then []
    else pairs_of rule other) related.
Proof.
  unfold scan_rules.
  assert (H : ∀ acc,
    (fold_left (λ acc other,
        if bool_decide (rule_id other = rule_id rule) then acc
        else scan_outcomes rule other acc) related acc).1
    = acc.1 ++ flat_map (λ other,
        if bool_decide (rule_id other = rule_id rule) then []
        else pairs_of rule other) related).
  { induction related as [|other related IH]; intros acc; simpl.
    - by rewrite app_nil_r.
    - rewrite IH. case_bool_decide.
      + done.
      + rewrite scan_outcomes_fst. by rewrite <- app_assoc. }
  by rewrite H.
Qed.

Lemma elem_of_pairs_of rule other c :
  c ∈ pairs_of rule other ↔
  ∃ p o, p ∈ _extract_outcomes rule ∧ o ∈ _extract_outcomes other
         ∧ _are_contradicting p o = true ∧ c = entry rule other p o.
Proof.
  unfold pairs_of. rewrite !list_elem_of_In, in_flat_map. split.
  - intros (p & Hp & Hc). apply in_flat_map in Hc as (o & Ho & Hc).
    destruct (_are_contradicting p o) eqn:E; simpl in Hc; [|done].
    destruct Hc as [<-|[]]. exists p, o. by rewrite !list_elem_of_In.
  - intros (p & o & Hp & Ho & E & ->). exists p.
    rewrite list_elem_of_In in Hp. split; [done|].
    apply in_flat_map. exists o. rewrite list_elem_of_In in Ho.
    split; [done|]. rewrite E. by left.
Qed.

Lemma elem_of_scan_rules related rule c :
  c ∈ (scan_rules related rule).1 ↔
  ∃ other p o, contradicts related rule other p o ∧ c = entry rule other p o.
Proof.
  rewrite scan_rules_fst, list_elem_of_In, in_flat_map. split.
  - intros (other & Hin & Hc). case_bool_decide; [by destruct Hc|].
    apply list_elem_of_In, elem_of_pairs_of in Hc as (p & o & ? & ? & ? & ->).
    exists other, p, o. split; [|done]. unfold contradicts.
    by rewrite list_elem_of_In.
  - intros (other & p & o & (Hin & Hne & Hp & Ho & E) & ->).
    exists other. rewrite list_elem_of_In in Hin. split; [done|].
    rewrite bool_decide_false by done.
    apply list_elem_of_In, elem_of_pairs_of. by exists p, o.
Qed.

Lemma Condition_nested_ind (P : Condition → Prop) :
  (∀ f op v, P (ConditionSpec f op v)) →
  (∀ all any, Forall P all → Forall P any → P (ConditionGroupSpec all any)) →
  ∀ c, P c.
Proof.
  intros Hspec Hgroup. fix IH 1. intros [f op v|all any].
  - apply Hspec.
  - apply Hgroup.
    + revert all. fix IHl 1. intros [|c l]; constructor; [apply IH|apply IHl].
    + revert any. fix IHl 1. intros [|c l]; constructor; [apply IH|apply IHl].
Qed.

Lemma extract_group all any :
  _extract_condition_fields (ConditionGroupSpec all any)
  = update_fields any (update_fields all ∅).
Proof.
  simpl. unfold update_fields.
  assert (H : ∀ items acc,
    (fix update (items : list Condition) (fields : gset string)
       {struct items} : gset string :=
       match items with
       | [] => fields
       | item :: items' => update items' (fields ∪ _extract_condition_fields item)
       end) items acc
    = fold_left (λ fields item, fields ∪ _extract_condition_fields item)
                items acc).
  { induction items as [|i items IH]; intros acc; simpl; [done|apply IH]. }
  by rewrite !H.
Qed.

Lemma elem_of_update_fields f items acc :
  f ∈ update_fields items acc ↔
  f ∈ acc ∨ ∃ c, c ∈ items ∧ f ∈ _extract_condition_fields c.
Proof.
  unfold update_fields. revert acc.
  induction items as [|i items IH]; intros acc; simpl.
  - split; [by left|]. intros [?|(c & Hc & _)]; [done|]. by apply elem_of_nil in Hc.
  - rewrite IH, elem_of_union. split.
    + intros [[?|?]|(c & Hc & ?)]; [by left| |].
      * right. exists i. split; [left|done].
      * right. exists c. split; [by right|done].
    + intros [?|(c & Hc & ?)]; [by left; left|].
      apply elem_of_cons in Hc as [->|Hc]; [by left; right|].
      right. by exists c.
Qed.

Lemma elem_of_extract_condition_fields f c :
  f ∈ _extract_condition_fields c ↔ field_of f c.
Proof.
  revert c. apply (Condition_nested_ind (λ c, _ ↔ _)).
  - intros g op v. simpl. destruct g as [|a g]; simpl.
    + split; [set_solver|]. inversion 1; done.
    + rewrite elem_of_singleton. split.
      * intros ->. by constructor.
      * by inversion 1.
  - intros all any Hall Hany. rewrite extract_group, !elem_of_update_fields.
    rewrite Forall_forall in Hall, Hany. split.
    + intros [[?|(c & Hc & Hf)]|(c & Hc & Hf)]; [set_solver| |].
      * eapply field_of_all; [done|]. by apply (Hall c Hc).
      * eapply field_of_any; [done|]. by apply (Hany c Hc).
    + inversion 1 as [|? ? c Hc Hf|? ? c Hc Hf]; subst.
      * left; right. exists c. split; [done|]. by apply (Hall c Hc).
      * right. exists c. split; [done|]. by apply (Hany c Hc).
Qed.

Lemma conditions_overlap_false rule1 rule2 :
  _conditions_overlap rule1 rule2 = false ↔
  ∃ c1 c2, applies_if rule1 = Some c1 ∧ applies_if rule2 = Some c2
    ∧ _extract_condition_fields c1 ≠ ∅
    ∧ _extract_condition_fields c2 ≠ ∅
    ∧ _extract_condition_fields c1 ∩ _extract_condition_fields c2 = ∅.
Proof.
  unfold _conditions_overlap.
  destruct (applies_if rule1) as [c1|], (applies_if rule2) as [c2|].
  2-4: split; [done|]; intros (? & ? & ? & ? & _); done.
  split.
  - intros H. exists c1, c2.
    repeat case_bool_decide; simpl in H; try done.
  - intros (? & ? & [= <-] & [= <-] & ? & ? & ?).
    by rewrite !bool_decide_true.
Qed.

Lemma are_contradicting_sym a b :
  _are_contradicting a b = _are_contradicting b a.
Proof. unfold _are_contradicting. apply orb_comm. Qed.

Lemma are_contradicting_table a b :
  _are_contradicting a b = true ↔
  (a, b) ∈ CONTRADICTING_OUTCOMES ∨ (b, a) ∈ CONTRADICTING_OUTCOMES.
Proof.
  unfold _are_contradicting, pair_in.
  by rewrite orb_true_iff, !bool_decide_eq_true.
Qed.

Lemma existsb_conditions_overlap related rule :
  existsb conditions_overlap (scan_rules related rule).1 = true ↔
  ∃ other p o, contradicts related rule other p o
               ∧ _conditions_overlap rule other = true.
Proof.
  rewrite existsb_exists. split.
  - intros (c & Hc & Ho). apply list_elem_of_In, elem_of_scan_rules in Hc
      as (other & p & o & Hcon & ->). by exists other, p, o.
  - intros (other & p & o & Hcon & Ho). exists (entry rule other p o).
    split; [|done]. apply list_elem_of_In, elem_of_scan_rules.
    by exists other, p, o.
Qed.

(** C4.  For a non-empty corpus [related], the evidence of
    [check_contradiction] is: pass with score 1.0 when no other rule (a
    rule of the corpus with a different id) has an outcome contradicting
    one of the primary rule's; fail with score 0.2 when some contradicting
    pair comes from a rule whose conditions overlap the primary rule's;
    warning with score 0.7 when there are contradicting pairs and none of
    them has overlapping conditions.  Two outcomes contradict when the
    pair is in the fixed table in either order.  Conditions fail to
    overlap exactly when both rules have an [applies_if], both collect at
    least one field name through their [all] / [any] members, and no field
    name is common to both; a null [applies_if] on either side overlaps. *)
Theorem check_contradiction_severity (related : list Rule) (rule : Rule) :
  related ≠ [] →
  let ev := check_contradiction related rule in
  ((¬ ∃ other p o, contradicts related rule other p o) →
     label ev = "pass" ∧ score ev = 1.0%Q)
  ∧ ((∃ other p o, contradicts related rule other p o
                   ∧ _conditions_overlap rule other = true) →
     label ev = "fail" ∧ score ev = 0.2%Q)
  ∧ ((∃ other p o, contradicts related rule other p o) →
     (∀ other p o, contradicts related rule other p o →
                   _conditions_overlap rule other = false) →
     label ev = "warning" ∧ score ev = 0.7%Q)
  ∧ (∀ a b, _are_contradicting a b = true ↔
            (a, b) ∈ CONTRADICTING_OUTCOMES ∨ (b, a) ∈ CONTRADICTING_OUTCOMES)
  ∧ (∀ r1 r2, _conditions_overlap r1 r2 = false ↔
       ∃ c1 c2, applies_if r1 = Some c1 ∧ applies_if r2 = Some c2
         ∧ (∃ f, field_of f c1) ∧ (∃ f, field_of f c2)
         ∧ ¬ ∃ f, field_of f c1 ∧ field_of f c2)
  ∧ (∀ r1 r2, applies_if r1 = None ∨ applies_if r2 = None →
              _conditions_overlap r1 r2 = true).
Proof.
  intros Hne ev. subst ev. unfold check_contradiction.
  destruct related as [|r0 related']; [done|]. clear Hne.
  set (related := r0 :: related').
  unfold contradiction_result.
  pose proof (elem_of_scan_rules related rule) as Hscan.
  pose proof (existsb_conditions_overlap related rule) as Hex.
  destruct (scan_rules related rule) as [cs ids]; simpl in Hscan, Hex.
  split; [|split; [|split; [|split; [|split]]]].
  - intros Hnone. destruct cs as [|c cs]; [done|].
    destruct Hnone. destruct (proj1 (Hscan c)) as (other & p & o & ? & _); [left|].
    by exists other, p, o.
  - intros Hsome. apply Hex in Hsome.
    destruct cs as [|c cs]; [done|]. by rewrite Hsome.
  - intros (other & p & o & Hcon) Hall.
    destruct cs as [|c cs].
    { exfalso. eapply elem_of_nil, Hscan. by exists other, p, o. }
    destruct (existsb conditions_overlap (c :: cs)) eqn:E; [|done].
    destruct (proj1 Hex eq_refl) as (other' & p' & o' & Hcon' & Ho').
    by rewrite (Hall _ _ _ Hcon') in Ho'.
  - apply are_contradicting_table.
  - intros r1 r2. rewrite conditions_overlap_false. split.
    + intros (c1 & c2 & H1 & H2 & Hn1 & Hn2 & Hd). exists c1, c2.
      split_and!; [done..| | |].
      * apply set_choose_L in Hn1 as [f Hf]. exists f.
        by apply elem_of_extract_condition_fields.
      * apply set_choose_L in Hn2 as [f Hf]. exists f.
        by apply elem_of_extract_condition_fields.
      * intros (f & Hf1 & Hf2).
        apply elem_of_extract_condition_fields in Hf1, Hf2. set_solver.
    + intros (c1 & c2 & H1 & H2 & [f1 Hf1] & [f2 Hf2] & Hd).
      exists c1, c2.
      apply elem_of_extract_condition_fields in Hf1, Hf2.
      split_and!; [done|done|set_solver|set_solver|].
      apply elem_of_equiv_empty_L. intros f [Hf1' Hf2']%elem_of_intersection.
      apply Hd. exists f. by rewrite <- !elem_of_extract_condition_fields.
  - intros r1 r2 [H|H]; unfold _conditions_overlap; rewrite H; [done|].
    by destruct (applies_if r1).
Qed.

(** *** Temporal check *)

Lemma date_ltb_lt a b :
  date_ltb a b = true ↔
  (year a < year b
   ∨ (year a = year b ∧ (month a < month b
                         ∨ (month a = month b ∧ day a < day b))))%Z.
Proof.
  unfold date_ltb.
  rewrite !orb_true_iff, !andb_true_iff, !orb_true_iff, !andb_true_iff,
    !Z.ltb_lt, !Z.eqb_eq. tauto.
Qed.

Lemma date_leb_le a b :
  date_leb a b = true ↔
  (year a < year b
   ∨ (year a = year b ∧ (month a < month b
                         ∨ (month a = month b ∧ day a ≤ day b))))%Z.
Proof.
  unfold date_leb. rewrite negb_true_iff, <- not_true_iff_false, date_ltb_lt.
  lia.
Qed.

Lemma periods_overlap_windows rule other :
  _periods_overlap (effective_from rule) (effective_to rule)
                   (effective_from other) (effective_to other)
  = if windows_overlap rule other
    then (true, Some (window_start rule other), Some (window_end rule other))
    else (false, None, None).
Proof.
  unfold _periods_overlap, windows_overlap, window_start, window_end,
    MIN_DATE, MAX_DATE.
  by destruct (date_leb _ _).
Qed.

Lemma has_conflict_iff rule other :
  has_conflict rule other = true ↔
  ∃ p o, p ∈ _extract_outcomes rule ∧ o ∈ _extract_outcomes other
         ∧ _are_contradicting p o = true.
Proof.
  unfold has_conflict. rewrite existsb_exists. split.
  - intros (p & Hp & (o & Ho & E)%existsb_exists).
    exists p, o. by rewrite !list_elem_of_In.
  - intros (p & o & Hp & Ho & E). exists p.
    rewrite list_elem_of_In in Hp. split; [done|].
    apply existsb_exists. exists o. by rewrite <- list_elem_of_In.
Qed.

Lemma temporal_conflicts_filter related rule :
  temporal_conflicts related rule
  = temporal_entry rule <$> List.filter (conflicting rule) related.
Proof.
  unfold temporal_conflicts.
  match goal with |- fold_left ?f _ _ = _ => set (step := f) end.
  enough (H : ∀ acc, fold_left step related acc
    = acc ++ (temporal_entry rule <$> List.filter (conflicting rule) related))
    by by rewrite H.
  induction related as [|other related IH]; intros acc.
  - simpl. by rewrite app_nil_r.
  - change (fold_left step (other :: related) acc)
      with (fold_left step related (step acc other)).
    rewrite IH. unfold step at 1. simpl List.filter. unfold conflicting at 2.
    case_bool_decide; cbn [negb andb]; [done|].
    destruct (has_conflict rule other); cbn [negb andb]; [|done].
    rewrite periods_overlap_windows.
    destruct (windows_overlap rule other); [|done].
    rewrite <- app_assoc. done.
Qed.

Lemma NoDup_fmap_eq {A B} (f : A → B) (l : list A) x y :
  NoDup (f <$> l) → x ∈ l → y ∈ l → f x = f y → x = y.
Proof.
  induction l as [|a l IH]; simpl; [by intros _ ?%elem_of_nil|].
  intros [Hnotin Hnd]%NoDup_cons [->|Hx]%elem_of_cons [->|Hy]%elem_of_cons Hf;
    [done| | |by apply IH].
  - destruct Hnotin. rewrite Hf. by apply list_elem_of_fmap_2.
  - destruct Hnotin. rewrite <- Hf. by apply list_elem_of_fmap_2.
Qed.

(** C3.  Let [other] be a rule of the corpus (ids unique) with an id
    different from [rule]'s and an outcome that contradicts one of
    [rule]'s.  With an absent [effective_from] read as 1900-01-01 and an
    absent [effective_to] as 2999-12-31, [start] the later of the two
    starts and [end_] the earlier of the two ends: [_periods_overlap]
    reports an overlap exactly when [start <= end_] and then returns
    [start] and [end_]; the temporal check records a conflict for [other]
    exactly in that case, with [overlap_start] and [overlap_end] the ISO
    dates of [start] and [end_]; and its evidence is then a warning with
    score 0.5. *)
Theorem temporal_overlap_reported (related : list Rule) (rule other : Rule) :
  NoDup (rule_id <$> related) →
  other ∈ related →
  rule_id other ≠ rule_id rule →
  (∃ p o, p ∈ _extract_outcomes rule ∧ o ∈ _extract_outcomes other
          ∧ _are_contradicting p o = true) →
  let start := window_start rule other in
  let end_ := window_end rule other in
  _periods_overlap (effective_from rule) (effective_to rule)
                   (effective_from other) (effective_to other)
  = (date_leb start end_,
     if date_leb start end_ then Some start else None,
     if date_leb start end_ then Some end_ else None)
  ∧ ((∃ c, c ∈ temporal_conflicts related rule ∧ tc_rule2_id c = rule_id other)
     ↔ date_leb start end_ = true)
  ∧ (∀ c, c ∈ temporal_conflicts related rule →
          tc_rule2_id c = rule_id other →
          tc_rule1_id c = rule_id rule
          ∧ overlap_start c = Some (isoformat start)
          ∧ overlap_end c = Some (isoformat end_))
  ∧ (date_leb start end_ = true →
     label (check_temporal_consistency related rule) = "warning"
     ∧ score (check_temporal_consistency related rule) = 0.5%Q).
Proof.
  intros Hnd Hin Hne Hcon start end_. subst start end_.
  apply has_conflict_iff in Hcon.
  assert (Hentry : ∀ c, c ∈ temporal_conflicts related rule →
            tc_rule2_id c = rule_id other →
            c = temporal_entry rule other ∧ windows_overlap rule other = true).
  { intros c Hc Hid. rewrite temporal_conflicts_filter in Hc.
    apply list_elem_of_fmap in Hc as (other' & -> & Hf).
    apply list_elem_of_In, filter_In in Hf as [Hin' Hf].
    apply list_elem_of_In in Hin'. simpl in Hid.
    assert (other' = other) as -> by eauto using NoDup_fmap_eq.
    split; [done|]. unfold conflicting in Hf.
    by apply andb_true_iff in Hf as [_ ?]. }
  assert (Hthere : windows_overlap rule other = true →
            temporal_entry rule other ∈ temporal_conflicts related rule).
  { intros Hov. rewrite temporal_conflicts_filter.
    apply list_elem_of_fmap_2, list_elem_of_In, filter_In.
    split; [by apply list_elem_of_In|]. unfold conflicting.
    by rewrite bool_decide_false, Hcon, Hov. }
  split; [|split; [|split]].
  - rewrite periods_overlap_windows. unfold windows_overlap.
    by destruct (date_leb _ _).
  - split.
    + intros (c & Hc & Hid). by destruct (Hentry c Hc Hid).
    + intros Hov. exists (temporal_entry rule other). split; [by apply Hthere|done].
  - intros c Hc Hid. by destruct (Hentry c Hc Hid) as [-> _].
  - intros Hov. apply Hthere in Hov. unfold check_temporal_consistency.
    destruct related as [|r0 related']; [by apply elem_of_nil in Hin|].
    unfold temporal_result. simpl.
    destruct (temporal_conflicts (r0 :: related') rule); [|done].
    by apply elem_of_nil in Hov.
Qed.

Lemma temporal_overlap_reported_witness :
  ((∃ c, c ∈ temporal_conflicts [period_B] period_A ∧ tc_rule2_id c = "B")
   ↔ date_leb (Date 2024 6 1) (Date 2024 6 30) = true)
  ∧ temporal_conflicts [period_B] period_A
    = [ {| tc_rule1_id := "A"; tc_rule2_id := "B";
           overlap_start := Some "2024-06-01";
           overlap_end := Some "2024-06-30" |} ]
  ∧ temporal_conflicts [period_A] period_C = [].
Proof.
  split; [|split; reflexivity].
  assert (Hnd : NoDup (rule_id <$> [period_B])) by apply NoDup_singleton.
  assert (Hin : period_B ∈ [period_B]) by left.
  assert (Hne : rule_id period_B ≠ rule_id period_A) by discriminate.
  assert (Hcon : ∃ p o, p ∈ _extract_outcomes period_A
                        ∧ o ∈ _extract_outcomes period_B
                        ∧ _are_contradicting p o = true).
  { exists "permitted", "prohibited". split; [left|split; [left|reflexivity]]. }
  exact (proj1 (proj2
    (temporal_overlap_reported [period_B] period_A period_B Hnd Hin Hne Hcon))).
Defined.

Lemma check_contradiction_severity_witness :
  (label (check_contradiction [issuer_rule] retail_rule) = "warning"
   ∧ score (check_contradiction [issuer_rule] retail_rule) = 0.7%Q)
  ∧ (label (check_contradiction [period_B] period_A) = "fail"
     ∧ score (check_contradiction [period_B] period_A) = 0.2%Q).
Proof.
  assert (Hne : [issuer_rule] ≠ []) by discriminate.
  assert (Hne' : [period_B] ≠ []) by discriminate.
  split.
  - apply (check_contradiction_severity [issuer_rule] retail_rule Hne).
    + exists issuer_rule, "permitted", "prohibited".
      split; [left|]. split; [discriminate|].
      split; [left|]. split; [left|reflexivity].
    + intros other p o (Hin & _).
      apply list_elem_of_singleton in Hin. subst other. reflexivity.
  - apply (check_contradiction_severity [period_B] period_A Hne').
    exists period_B, "permitted", "prohibited". split; [|reflexivity].
    split; [left|]. split; [discriminate|].
    split; [left|]. split; [left|reflexivity].
Defined.

End CrossRuleSpec.

Module NliSpec.

Import Nli Common CommonSpec NliVocab.
Local Ltac lra := Lqa.lra.

Lemma gt_lt a b : Py.gt a b = true ↔ (b < a)%Q.
Proof.
  unfold Py.gt. rewrite negb_true_iff, <- not_true_iff_false, Qle_bool_iff.
  split; [apply Qnot_le_lt|apply Qlt_not_le].
Qed.

Lemma gt_le a b : Py.gt a b = false ↔ (a <= b)%Q.
Proof.
  unfold Py.gt. by rewrite negb_false_iff, Qle_bool_iff.
Qed.

Lemma max_list_is_maximum x xs :
  ∃ m, Py.max_list (x :: xs) = Py.Ok m ∧ is_maximum m (x :: xs).
Proof.
  simpl. eexists. split; [done|].
  enough (H : ∀ best seen,
    is_maximum best seen →
    is_maximum (fold_left (λ best y, if Py.gt y best then y else best) xs best)
               (seen ++ xs)).
  { apply (H x [x]). split; [left|].
    intros y ->%list_elem_of_singleton. apply Qle_refl. }
  induction xs as [|y xs IH]; intros best seen [Hin Hmax]; simpl.
  - by rewrite app_nil_r.
  - replace (seen ++ y :: xs) with ((seen ++ [y]) ++ xs)
      by by rewrite <- app_assoc.
    apply IH. destruct (Py.gt y best) eqn:E.
    + apply gt_lt in E. split; [set_solver|].
      intros z [Hz| ->%list_elem_of_singleton]%elem_of_app.
      * apply Qle_trans with best; [by apply Hmax|by apply Qlt_le_weak].
      * apply Qle_refl.
    + apply gt_le in E. split; [set_solver|].
      intros z [Hz| ->%list_elem_of_singleton]%elem_of_app; [by apply Hmax|done].
Qed.

Lemma winning_label_majority results :
  is_majority results (winning_label results).
Proof.
  unfold is_majority, winning_label. simpl.
  intros l'.
  destruct (Nat.ltb_spec (label_count results ENTAILMENT)
                         (label_count results NEUTRAL));
    match goal with
    | |- context [?a <? ?b] => destruct (Nat.ltb_spec a b)
    end; destruct l'; lia.
Qed.

Lemma existsb_contradiction results :
  existsb (λ r, is_label CONTRADICTION r && Py.gt (confidence r) 0.6) results
  = true ↔
  ∃ r, r ∈ results ∧ label r = CONTRADICTION ∧ (0.6 < confidence r)%Q.
Proof.
  rewrite existsb_exists. split.
  - intros (r & Hin & [Hl Hc]%andb_true_iff). exists r.
    apply list_elem_of_In in Hin. apply bool_decide_eq_true in Hl.
    by apply gt_lt in Hc.
  - intros (r & Hin & Hl & Hc). exists r. apply list_elem_of_In in Hin.
    split; [done|]. apply andb_true_iff. split.
    + by apply bool_decide_eq_true.
    + by apply gt_lt.
Qed.

(** C6.  For a non-empty list of per-hypothesis results the aggregate
    exists; its three component scores are the means of the components;
    if some result is a contradiction with confidence above 0.6, the
    aggregate is a contradiction whose confidence is the largest
    confidence among the contradiction-labelled results; otherwise its
    label is a majority label (no label has more votes) and its
    confidence is the mean of the confidences. *)
Theorem aggregate_results_spec (results : list NLIResult) :
  results ≠ [] →
  ∃ agg, _aggregate_results results = Py.Ok agg
  ∧ (entailment_score agg == mean (map entailment_score results))%Q
  ∧ (neutral_score agg == mean (map neutral_score results))%Q
  ∧ (contradiction_score agg == mean (map contradiction_score results))%Q
  ∧ ((∃ r, r ∈ results ∧ label r = CONTRADICTION ∧ (0.6 < confidence r)%Q) →
     label agg = CONTRADICTION
     ∧ is_maximum (confidence agg) (contradiction_confidences results))
  ∧ ((¬ ∃ r, r ∈ results ∧ label r = CONTRADICTION ∧ (0.6 < confidence r)%Q) →
     is_majority results (label agg)
     ∧ (confidence agg == mean (map confidence results))%Q).
Proof.
  intros Hne. destruct results as [|r0 results']; [done|]. clear Hne.
  set (results := r0 :: results').
  unfold _aggregate_results. fold results.
  pose proof (existsb_contradiction results) as Hex.
  destruct (existsb _ results) eqn:E.
  - destruct (proj1 Hex eq_refl) as (r & Hin & Hl & Hc).
    assert (Hsome : ∃ x xs, contradiction_confidences results = x :: xs).
    { unfold contradiction_confidences.
      destruct (List.filter (is_label CONTRADICTION) results) as [|x xs] eqn:F.
      - assert (r ∈ @nil NLIResult); [|set_solver].
        rewrite <- F. apply list_elem_of_In, filter_In.
        split; [by apply list_elem_of_In|by apply bool_decide_eq_true].
      - simpl. eauto. }
    destruct Hsome as (x & xs & Hx).
    destruct (max_list_is_maximum x xs) as (m & Hm & Hmax).
    unfold contradiction_confidences in Hx. rewrite Hx, Hm. simpl.
    eexists. split; [done|]. cbn [entailment_score neutral_score
      contradiction_score label confidence].
    split; [exact (sum_mean_map _ results)|].
    split; [exact (sum_mean_map _ results)|].
    split; [exact (sum_mean_map _ results)|]. split.
    + intros _. split; [done|]. unfold contradiction_confidences. by rewrite Hx.
    + intros Hnot. destruct Hnot. eauto.
  - eexists. split; [done|]. cbn [entailment_score neutral_score
      contradiction_score label confidence].
    split; [exact (sum_mean_map _ results)|].
    split; [exact (sum_mean_map _ results)|].
    split; [exact (sum_mean_map _ results)|]. split.
    + intros Hyes. apply Hex in Hyes. done.
    + intros _. split; [apply winning_label_majority|exact (sum_mean_map _ results)].
Qed.

Lemma lower_char_idemp c : Py.lower_char (Py.lower_char c) = Py.lower_char c.
Proof. by destruct c as [[] [] [] [] [] [] [] []]. Qed.

Lemma chars_str l : Py.chars (Py.str l) = l.
Proof. apply list_ascii_of_string_of_list_ascii. Qed.

Lemma lower_idemp s : Py.lower (Py.lower s) = Py.lower s.
Proof.
  unfold Py.lower. rewrite chars_str, map_map. f_equal.
  apply map_ext. intros c. apply lower_char_idemp.
Qed.

Lemma has_negation_lower s : _has_negation (Py.lower s) = _has_negation s.
Proof. unfold _has_negation. by rewrite lower_idemp. Qed.

Lemma classify_negation_differs premise hypothesis :
  _has_negation premise ≠ _has_negation hypothesis →
  _classify_heuristic premise hypothesis
  = {| label := CONTRADICTION; confidence := 0.6;
       entailment_score := 0.2; neutral_score := 0.2;
       contradiction_score := 0.6 |}.
Proof.
  intros Hne. unfold _classify_heuristic. rewrite !has_negation_lower.
  by destruct (_has_negation premise), (_has_negation hypothesis).
Qed.

Lemma classify_negation_agrees premise hypothesis :
  _has_negation premise = _has_negation hypothesis →
  label (_classify_heuristic premise hypothesis) ≠ CONTRADICTION.
Proof.
  intros Heq. unfold _classify_heuristic. rewrite !has_negation_lower, Heq.
  rewrite eqb_reflx. cbn [negb].
  case_bool_decide; [done|].
  destruct (Py.gt _ 0.7); [done|]. by destruct (Py.gt _ 0.4).
Qed.

Lemma classify_overlap premise hypothesis :
  _has_negation premise = _has_negation hypothesis →
  tokens (Py.lower hypothesis) ≠ ∅ →
  let overlap :=
    overlap_ratio (tokens (Py.lower premise)) (tokens (Py.lower hypothesis)) in
  let r := _classify_heuristic premise hypothesis in
  ((0.7 < overlap)%Q →
     label r = ENTAILMENT
     ∧ (confidence r == Qmin (0.5 + (overlap - 0.7)) 0.8)%Q)
  ∧ ((0.4 < overlap)%Q → (overlap <= 0.7)%Q →
     label r = NEUTRAL ∧ confidence r = 0.5%Q)
  ∧ ((overlap <= 0.4)%Q → label r = NEUTRAL ∧ confidence r = 0.4%Q).
Proof.
  intros Heq Hne overlap r. subst r. unfold _classify_heuristic.
  rewrite !has_negation_lower, Heq, eqb_reflx. cbn [negb].
  rewrite bool_decide_false by done. fold overlap. clearbody overlap.
  destruct (Py.gt overlap 0.7) eqn:E7; [apply gt_lt in E7|apply gt_le in E7].
  - split; [|split].
    + intros _. split; [done|]. cbn [confidence]. unfold Py.min2.
      destruct (Py.gt _ 0.8) eqn:E8; [apply gt_lt in E8|apply gt_le in E8].
      * rewrite Q.min_r; [reflexivity|]. lra.
      * rewrite Q.min_l; lra.
    + intros _ H. exfalso. lra.
    + intros H. exfalso. lra.
  - destruct (Py.gt overlap 0.4) eqn:E4; [apply gt_lt in E4|apply gt_le in E4].
    + split; [|split]; [intros H; exfalso; lra|done|intros H; exfalso; lra].
    + split; [|split]; [intros H; exfalso; lra|intros H; exfalso; lra|done].
Qed.

(** The decision table of C7 with the negation test of the code,
    [_has_negation], as the notion of marker presence: contradiction with
    confidence 0.6 exactly when the test differs on premise and
    hypothesis; otherwise neutral 0.4 on an empty hypothesis token set,
    entailment with confidence [min(0.5 + (overlap - 0.7), 0.8)] above
    0.7, neutral 0.5 in (0.4, 0.7], neutral 0.4 up to 0.4. *)
Lemma classify_heuristic_table (premise hypothesis : string) :
  let r := _classify_heuristic premise hypothesis in
  let htoks := tokens (Py.lower hypothesis) in
  let overlap := overlap_ratio (tokens (Py.lower premise)) htoks in
  ((label r = CONTRADICTION ∧ confidence r = 0.6%Q)
   ↔ _has_negation premise ≠ _has_negation hypothesis)
  ∧ (_has_negation premise = _has_negation hypothesis →
     (htoks = ∅ → label r = NEUTRAL ∧ confidence r = 0.4%Q)
     ∧ (htoks ≠ ∅ →
        ((0.7 < overlap)%Q →
           label r = ENTAILMENT
           ∧ (confidence r == Qmin (0.5 + (overlap - 0.7)) 0.8)%Q)
        ∧ ((0.4 < overlap)%Q → (overlap <= 0.7)%Q →
           label r = NEUTRAL ∧ confidence r = 0.5%Q)
        ∧ ((overlap <= 0.4)%Q →
           label r = NEUTRAL ∧ confidence r = 0.4%Q))).
Proof.
  intros r htoks overlap. subst r htoks overlap. split; [split|].
  - intros [Hl _] Heq. by apply classify_negation_agrees in Heq.
  - intros Hne. by rewrite classify_negation_differs.
  - intros Heq. split; [|by apply classify_overlap].
    intros Hempty. unfold _classify_heuristic.
    rewrite !has_negation_lower, Heq, eqb_reflx. cbn [negb].
    by rewrite bool_decide_true.
Qed.

(** C7.  The code on a premise with a contraction: the marker [n't] is
    not seen in ["isn't"], because the [\b] in front of the [n] asks for a
    non-word character there, while the comment of [_has_negation] lists
    [isn't] and [doesn't] as what the marker is for.  The premise negates,
    the hypothesis does not, and the classifier answers entailment with
    confidence 0.8 instead of contradiction with confidence 0.6. *)
Lemma contraction_not_detected :
  _has_negation "X isn't permitted" = false
  ∧ _has_negation "X is permitted" = false
  ∧ label (_classify_heuristic "X isn't permitted" "X is permitted")
    = ENTAILMENT
  ∧ (confidence (_classify_heuristic "X isn't permitted" "X is permitted")
     == 0.8)%Q.
Proof. by vm_compute. Qed.

Lemma aggregate_results_spec_witness :
  ∃ agg,
    _aggregate_results [strong_contradiction; weak_entailment] = Py.Ok agg
    ∧ label agg = CONTRADICTION
    ∧ is_maximum (confidence agg) [0.9%Q].
Proof.
  assert (Hne : [strong_contradiction; weak_entailment] ≠ []) by discriminate.
  destruct (aggregate_results_spec [strong_contradiction; weak_entailment] Hne)
    as (agg & Hagg & _ & _ & _ & Hcon & _).
  exists agg. split; [exact Hagg|]. apply Hcon.
  exists strong_contradiction. split; [left|]. split; reflexivity.
Defined.

End NliSpec.

Module EmbeddingsSpec.

Import Embeddings EmbeddingsVocab.
Local Open Scope R_scope.
Local Ltac lra := Lra.lra.
Local Ltac nra := Lra.nra.

(** [INR] of a numeral, as the numeral. *)
Local Ltac numerals H :=
  rewrite ?INR_IZR_INZ in H;
  repeat match type of H with
         | context [Z.of_nat ?n] =>
             let z := eval vm_compute in (Z.of_nat n) in
             change (Z.of_nat n) with z in H
         end;
  rewrite ?pow_1 in H.

(** *** Numbers within a few roundings of each other *)

Lemma one_rounding_bounds : 99 / 100 <= one_rounding ∧ one_rounding <= 1.
Proof.
  unfold one_rounding, unit_roundoff.
  assert (H : 100 <= 2 ^ 53).
  { rewrite pow_IZR. apply IZR_le. by vm_compute. }
  assert (Hp : 0 < 2 ^ 53) by lra.
  assert (Hi : 0 < / 2 ^ 53) by by apply Rinv_0_lt_compat.
  assert (Hle : / 2 ^ 53 <= / 100) by (apply Rinv_le_contravar; lra).
  lra.
Qed.

Lemma shrink_pos k : 0 < one_rounding ^ k.
Proof. apply pow_lt. pose proof one_rounding_bounds as [? ?]. lra. Qed.

Lemma shrink_le_1 k : one_rounding ^ k <= 1.
Proof.
  pose proof one_rounding_bounds as [? ?].
  induction k as [|k IH]; simpl; [lra|]. pose proof (shrink_pos k). nra.
Qed.

Lemma shrink_mono j k : (j ≤ k)%nat → one_rounding ^ k <= one_rounding ^ j.
Proof.
  intros Hle. replace k with (j + (k - j))%nat by lia. rewrite pow_add.
  pose proof (shrink_pos j). pose proof (shrink_le_1 (k - j)). nra.
Qed.

Lemma near_refl x : near 0 x x.
Proof. unfold near. simpl. lra. Qed.

Lemma near_sym k x y : near k x y → near k y x.
Proof. intros [? ?]. by split. Qed.

Lemma near_nonneg k x y : near k x y → 0 <= y → 0 <= x.
Proof.
  intros [H1 H2] Hy. pose proof (shrink_pos k). nra.
Qed.

Lemma near_pos k x y : near k x y → 0 < y → 0 < x.
Proof.
  intros [H1 H2] Hy. pose proof (shrink_pos k). nra.
Qed.

Lemma near_zero k x : near k x 0 → x = 0.
Proof.
  intros [H1 H2]. pose proof (shrink_pos k). nra.
Qed.

Lemma near_weaken j k x y :
  (j ≤ k)%nat → 0 <= y → near j x y → near k x y.
Proof.
  intros Hle Hy Hn. pose proof (near_nonneg _ _ _ Hn Hy) as Hx.
  destruct Hn as [H1 H2]. pose proof (shrink_mono j k Hle).
  pose proof (shrink_pos k). split; nra.
Qed.

Lemma near_trans j k x y z :
  0 <= z → near j x y → near k y z → near (j + k) x z.
Proof.
  intros Hz Hxy Hyz. pose proof (near_nonneg _ _ _ Hyz Hz) as Hy.
  pose proof (near_nonneg _ _ _ Hxy Hy) as Hx.
  destruct Hxy as [H1 H2], Hyz as [H3 H4]. unfold near. rewrite pow_add.
  pose proof (shrink_pos j). pose proof (shrink_pos k). split; nra.
Qed.

Lemma near_mul j k x a y b :
  0 <= a → 0 <= b → near j x a → near k y b → near (j + k) (x * y) (a * b).
Proof.
  intros Ha Hb Hx Hy.
  pose proof (near_nonneg _ _ _ Hx Ha). pose proof (near_nonneg _ _ _ Hy Hb).
  destruct Hx as [H1 H2], Hy as [H3 H4]. unfold near. rewrite pow_add.
  pose proof (shrink_pos j). pose proof (shrink_pos k).
  split.
  - replace (one_rounding ^ j * one_rounding ^ k * (a * b))
      with ((one_rounding ^ j * a) * (one_rounding ^ k * b)) by ring.
    apply Rmult_le_compat; nra.
  - replace (one_rounding ^ j * one_rounding ^ k * (x * y))
      with ((one_rounding ^ j * x) * (one_rounding ^ k * y)) by ring.
    apply Rmult_le_compat; nra.
Qed.

Lemma near_inv k y b : 0 < b → near k y b → near k (/ y) (/ b).
Proof.
  intros Hb Hy. pose proof (near_pos _ _ _ Hy Hb) as Hy0.
  destruct Hy as [H1 H2]. pose proof (shrink_pos k) as Hk.
  assert (Hiy : 0 < / y) by by apply Rinv_0_lt_compat.
  assert (Hib : 0 < / b) by by apply Rinv_0_lt_compat.
  split.
  - apply (Rmult_le_reg_r (y * b)); [nra|].
    replace (one_rounding ^ k * / b * (y * b))
      with (one_rounding ^ k * y * (b * / b)) by ring.
    replace (/ y * (y * b)) with (b * (y * / y)) by ring.
    rewrite !Rinv_r by lra. lra.
  - apply (Rmult_le_reg_r (y * b)); [nra|].
    replace (one_rounding ^ k * / y * (y * b))
      with (one_rounding ^ k * b * (y * / y)) by ring.
    replace (/ b * (y * b)) with (y * (b * / b)) by ring.
    rewrite !Rinv_r by lra. lra.
Qed.

Lemma near_div j k x a y b :
  0 <= a → 0 < b → near j x a → near k y b → near (j + k) (x / y) (a / b).
Proof.
  intros Ha Hb Hx Hy. unfold Rdiv. apply near_mul; try done.
  - left. by apply Rinv_0_lt_compat.
  - by apply near_inv.
Qed.

Lemma near_sqrt k x a :
  0 <= a → near k x a → near k (R_sqrt.sqrt x) (R_sqrt.sqrt a).
Proof.
  intros Ha Hx. pose proof (near_nonneg _ _ _ Hx Ha) as Hx0.
  destruct Hx as [H1 H2]. pose proof (shrink_pos k) as Hk.
  pose proof (shrink_le_1 k) as Hk1.
  assert (Hs : ∀ z, 0 <= z →
    one_rounding ^ k * R_sqrt.sqrt z
    <= R_sqrt.sqrt (one_rounding ^ k * z)).
  { intros z Hz. rewrite sqrt_mult by lra.
    apply Rmult_le_compat_r; [apply sqrt_pos|].
    rewrite <- (sqrt_square (one_rounding ^ k)) at 1 by lra.
    apply sqrt_le_1_alt. nra. }
  split.
  - etrans; [apply Hs; lra|]. by apply sqrt_le_1_alt.
  - etrans; [apply Hs; lra|]. by apply sqrt_le_1_alt.
Qed.

Lemma near_add k x a y b :
  near k x a → near k y b → near k (x + y) (a + b).
Proof. intros [H1 H2] [H3 H4]. split; lra. Qed.

Lemma exact_sum_nonneg xs : Forall (λ x, 0 <= x) xs → 0 <= exact_sum xs.
Proof. induction 1 as [|x xs Hx _ IH]; simpl; lra. Qed.

Lemma exact_sum_pos x xs :
  x ∈ xs → 0 < x → Forall (λ x, 0 <= x) xs → 0 < exact_sum xs.
Proof.
  intros Hin Hx Hall. induction Hall as [|y xs Hy Hall IH];
    [by apply elem_of_nil in Hin|].
  pose proof (exact_sum_nonneg _ Hall). simpl.
  apply elem_of_cons in Hin as [<-|Hin]; [lra|]. specialize (IH Hin). lra.
Qed.

Lemma exact_sum_perm xs ys : xs ≡ₚ ys → exact_sum xs = exact_sum ys.
Proof. induction 1; simpl; lra. Qed.

Lemma exact_sum_zero xs :
  Forall (λ x, 0 <= x) xs → exact_sum xs = 0 → Forall (λ x, x = 0) xs.
Proof.
  induction 1 as [|x xs Hx Hall IH]; simpl; [done|].
  pose proof (exact_sum_nonneg _ Hall). intros Hs.
  constructor; [lra|]. apply IH. lra.
Qed.

Lemma shrink_lower k : 1 - INR k * unit_roundoff <= one_rounding ^ k.
Proof.
  pose proof one_rounding_bounds as [Hlo Hhi]. unfold one_rounding in *.
  induction k as [|k IH]; [simpl; lra|].
  rewrite S_INR. cbn [pow]. pose proof (pos_INR k).
  pose proof (shrink_pos k) as Hk. unfold one_rounding in Hk. nra.
Qed.

Lemma INR_lit (n : nat) : INR n = IZR (Z.of_nat n).
Proof. apply INR_IZR_INZ. Qed.

Lemma zip_diag {A} (v : list A) : zip v v = map (λ a, (a, a)) v.
Proof. induction v as [|a v IH]; simpl; [done|by rewrite IH]. Qed.

Lemma zip_map {A B C} (f : A → B) (g : A → C) (l : list A) :
  zip (map f l) (map g l) = map (λ t, (f t, g t)) l.
Proof. induction l as [|a l IH]; simpl; [done|by rewrite IH]. Qed.

Lemma count_pos t (toks : list string) : t ∈ toks → (1 ≤ count t toks)%nat.
Proof.
  unfold count. induction toks as [|u toks IH]; [by intros ?%elem_of_nil|].
  intros [->|Hin]%elem_of_cons.
  - rewrite filter_cons_True by done. rewrite length_cons. lia.
  - rewrite filter_cons. case_decide; [rewrite length_cons; lia|by apply IH].
Qed.

Lemma df_sym toks1 toks2 t : df toks1 toks2 t = df toks2 toks1 t.
Proof. unfold df. lia. Qed.

Lemma length_str l : String.length (Py.str l) = length l.
Proof. induction l as [|c l IH]; simpl; [done|by rewrite IH]. Qed.

Lemma length_chars s : length (Py.chars s) = String.length s.
Proof. induction s as [|c s IH]; simpl; [done|by rewrite IH]. Qed.

Lemma length_lower s : String.length (Py.lower s) = String.length s.
Proof.
  unfold Py.lower. by rewrite length_str, length_map, length_chars.
Qed.

Lemma ngrams_nonempty n text :
  (n ≤ String.length text)%nat → ngrams n text ≠ ∅.
Proof.
  intros Hle. unfold ngrams.
  replace (Z.to_nat (Z.of_nat (String.length text) - Z.of_nat n + 1))
    with (Datatypes.S (String.length text - n)) by lia.
  simpl. set_solver.
Qed.

Lemma size_pos (G : gset string) : G ≠ ∅ → (1 ≤ size G)%nat.
Proof.
  intros HG. destruct (size G) eqn:E; [|lia].
  by apply size_empty_inv, leibniz_equiv in E.
Qed.

Lemma listing_perm order1 order2 (tokens : gset string) :
  listing order1 tokens → listing order2 tokens → order1 ≡ₚ order2.
Proof.
  intros [Hn1 Hm1] [Hn2 Hm2]. apply NoDup_Permutation; try done.
  intros t. by rewrite Hm1, Hm2.
Qed.

Lemma listing_length order (tokens : gset string) :
  listing order tokens → length order = size tokens.
Proof.
  intros [Hn Hm]. unfold size, set_size. cbn. apply Permutation_length.
  apply NoDup_Permutation; [done|apply NoDup_elements|].
  intros t. by rewrite Hm, elem_of_elements.
Qed.

(** The two parts that only count: whatever the arithmetic, they do not
    depend on the order of the two texts. *)
Lemma ngram_sym {F} {float_ops : PyFloat F} text1 text2 :
  _ngram_similarity (F := F) text1 text2 = _ngram_similarity text2 text1.
Proof.
  unfold _ngram_similarity, _ngram_similarity_of. cbn [fold_left].
  rewrite (intersection_comm_L (ngrams 2 (Py.lower text1))),
    (union_comm_L (ngrams 2 (Py.lower text1))),
    (andb_comm (bool_decide (ngrams 2 (Py.lower text1) ≠ ∅))).
  rewrite (intersection_comm_L (ngrams 3 (Py.lower text1))),
    (union_comm_L (ngrams 3 (Py.lower text1))),
    (andb_comm (bool_decide (ngrams 3 (Py.lower text1) ≠ ∅))).
  done.
Qed.

Lemma jaccard_sym {F} {float_ops : PyFloat F} toks1 toks2 :
  _jaccard_similarity (F := F) toks1 toks2 = _jaccard_similarity toks2 toks1.
Proof.
  unfold _jaccard_similarity. cbn zeta. rewrite andb_comm.
  by rewrite (intersection_comm_L (list_to_set toks1)),
    (union_comm_L (list_to_set toks1)).
Qed.

Lemma idf_sym {F} {float_ops : PyFloat F} toks1 toks2 t :
  idf (F := F) toks1 toks2 t = idf toks2 toks1 t.
Proof. unfold idf. by rewrite df_sym. Qed.

Lemma div_nonneg x y : 0 <= x → 0 <= y → 0 <= x / y.
Proof.
  intros Hx Hy. apply Rmult_le_pos; [done|].
  destruct (Req_dec_T y 0) as [->|Hne]; [rewrite Rinv_0; lra|].
  left. apply Rinv_0_lt_compat. lra.
Qed.

Section Rounded.

Variable rnd flog : R → R.
Variable fsum : list R → R.
Hypothesis Hstd : standard_model rnd flog fsum.

Local Abbreviation fl := (rounded rnd flog fsum).
Local Abbreviation int := (@of_int R fl).
Local Abbreviation fadd := (@add R fl).
Local Abbreviation fmul := (@mul R fl).
Local Abbreviation fdiv := (@div R fl).
Local Abbreviation fsqrt := (@sqrt R fl).
Local Abbreviation fidf := (idf (float_ops := fl)).

Lemma rnd_nonneg x : 0 <= x → 0 <= rnd x.
Proof. intros Hx. eapply near_nonneg; [by apply (rnd_near _ _ _ Hstd)|done]. Qed.

Lemma rnd_pos x : 0 < x → 0 < rnd x.
Proof.
  intros Hx. eapply near_pos; [apply (rnd_near _ _ _ Hstd); lra|done].
Qed.

Lemma rnd_zero : rnd 0 = 0.
Proof. eapply near_zero. apply (rnd_near _ _ _ Hstd). lra. Qed.

Lemma near_rnd k x y : 0 <= y → near k x y → near (S k) (rnd x) y.
Proof.
  intros Hy Hn. apply (near_trans 1 k _ x); [done| |done].
  apply (rnd_near _ _ _ Hstd). by eapply near_nonneg.
Qed.

(** Two computed numbers stay near each other when both are rounded. *)
Lemma near_rnd_both k x y :
  0 <= y → near k x y → near (S (S k)) (rnd x) (rnd y).
Proof.
  intros Hy Hn. pose proof (rnd_nonneg y Hy).
  replace (S (S k)) with (S k + 1)%nat by lia.
  apply (near_trans _ _ _ y); [done|by apply near_rnd|].
  apply near_sym. by apply (rnd_near _ _ _ Hstd).
Qed.

Lemma of_int_nonneg n : 0 <= int n.
Proof. cbn. apply rnd_nonneg, pos_INR. Qed.

Lemma of_int_pos n : (1 ≤ n)%nat → 0 < int n.
Proof. intros Hn. cbn. apply rnd_pos. apply (lt_INR 0). lia. Qed.

Lemma of_int_0 : int 0 = 0.
Proof. cbn. apply rnd_zero. Qed.

Lemma of_int_1 : int 1 = 1.
Proof. cbn. apply (rnd_one _ _ _ Hstd). Qed.

Lemma of_int_2 : int 2 = 2.
Proof.
  cbn. replace (1 + 1) with 2 by lra. apply (rnd_two _ _ _ Hstd).
Qed.

Lemma of_int_near n : near 1 (int n) (INR n).
Proof. cbn. apply (rnd_near _ _ _ Hstd), pos_INR. Qed.

Lemma div_self x : x ≠ 0 → fdiv x x = 1.
Proof.
  intros Hx. cbn. unfold Rdiv. rewrite Rinv_r by done.
  apply (rnd_one _ _ _ Hstd).
Qed.

Lemma ratio_self n :
  (1 ≤ n)%nat → fdiv (int n) (int n) = 1.
Proof.
  intros Hn. apply div_self. pose proof (of_int_pos n Hn). lra.
Qed.

Lemma literal_near num den :
  (1 ≤ den)%nat →
  near 3 (literal (float_ops := fl) num den) (INR num / INR den).
Proof.
  intros Hden. unfold literal.
  assert (Hd : 0 < INR den) by (apply (lt_INR 0); lia).
  assert (Hq : 0 <= INR num / INR den).
  { apply Rmult_le_pos; [apply pos_INR|]. left. by apply Rinv_0_lt_compat. }
  change (near 3 (rnd (int num
                       / int den))
                 (INR num / INR den)).
  apply near_rnd; [done|].
  apply (near_div 1 1); [apply pos_INR|done|apply of_int_near..].
Qed.

Lemma literal_nonneg num den :
  (1 ≤ den)%nat → 0 <= literal (float_ops := fl) num den.
Proof.
  intros Hden. eapply near_nonneg; [by apply literal_near|].
  apply Rmult_le_pos; [apply pos_INR|]. left.
  apply Rinv_0_lt_compat, (lt_INR 0). lia.
Qed.

Lemma fsum_near xs :
  Forall (λ x, 0 <= x) xs → near (length xs) (fsum xs) (exact_sum xs).
Proof. apply (sum_near _ _ _ Hstd). Qed.

Lemma fsum_nonneg xs : Forall (λ x, 0 <= x) xs → 0 <= fsum xs.
Proof.
  intros Hxs. eapply near_nonneg; [by apply fsum_near|].
  by apply exact_sum_nonneg.
Qed.

Lemma eqb_zero x :
  @eqb R fl x (int 0) = if Req_dec_T x 0 then true else false.
Proof. cbn. by rewrite rnd_zero. Qed.

Lemma eqb_zero_true x : x = 0 → @eqb R fl x (int 0) = true.
Proof. intros ->. rewrite eqb_zero. by destruct (Req_dec_T 0 0). Qed.

Lemma eqb_zero_false x : x ≠ 0 → @eqb R fl x (int 0) = false.
Proof. intros Hx. rewrite eqb_zero. by destruct (Req_dec_T x 0). Qed.

(** The norm of a vector: zero exactly when the exact sum of the rounded
    squares is, and otherwise within [n + 1] roundings of its root. *)
Lemma norm_near (sq : list R) :
  Forall (λ x, 0 <= x) sq →
  near (S (length sq)) (fsqrt (fsum sq))
       (R_sqrt.sqrt (exact_sum sq)).
Proof.
  intros Hsq. cbn. apply near_rnd; [apply sqrt_pos|].
  apply near_sqrt; [by apply exact_sum_nonneg|by apply fsum_near].
Qed.

Lemma squares_nonneg {A} (f : A → R) (l : list A) :
  (∀ t, 0 <= f t) →
  Forall (λ x, 0 <= x) (map (λ t, fmul (f t) (f t)) l).
Proof.
  intros Hf. apply Forall_forall. intros x (t & -> & _)%list_elem_of_fmap.
  cbn. apply rnd_nonneg. by apply Rmult_le_pos.
Qed.

Lemma products_nonneg {A} (f g : A → R) (l : list A) :
  (∀ t, 0 <= f t) → (∀ t, 0 <= g t) →
  Forall (λ x, 0 <= x) (map (λ t, fmul (f t) (g t)) l).
Proof.
  intros Hf Hg. apply Forall_forall. intros x (t & -> & _)%list_elem_of_fmap.
  cbn. apply rnd_nonneg. by apply Rmult_le_pos.
Qed.

(** The cosine of two vectors over the same index list, in terms of the
    index list. *)
Lemma cosine_indexed {A} (f g : A → R) (l : list A) :
  _cosine_similarity (float_ops := fl) (map f l) (map g l)
  = let dot := fsum (map (λ t, fmul (f t) (g t)) l) in
    let norm1 := fsqrt (fsum (map (λ t, fmul (f t) (f t)) l)) in
    let norm2 := fsqrt (fsum (map (λ t, fmul (g t) (g t)) l)) in
    if @eqb R fl norm1 (int 0) || @eqb R fl norm2 (int 0) then int 0
    else fdiv dot (fmul norm1 norm2).
Proof.
  unfold _cosine_similarity. rewrite zip_map, !map_map. done.
Qed.

(** The cosine of a vector with itself: the dot product and the two
    squared norms are one and the same sum. *)
Lemma cosine_self {A} (f : A → R) (l : list A) :
  (∀ t, 0 <= f t) →
  0 < exact_sum (map (λ t, fmul (f t) (f t)) l) →
  near 4 (_cosine_similarity (float_ops := fl) (map f l) (map f l)) 1.
Proof.
  intros Hf Hpos. rewrite cosine_indexed. cbn zeta.
  set (S := fsum (map (λ t, fmul (f t) (f t)) l)).
  assert (HS : 0 < S).
  { eapply near_pos; [apply fsum_near, squares_nonneg, Hf|done]. }
  assert (Hroot : 0 < R_sqrt.sqrt S) by by apply sqrt_lt_R0.
  assert (HN : 0 < fsqrt S) by by apply rnd_pos.
  rewrite eqb_zero_false by lra. cbn [orb].
  assert (Hn1 : near 1 (fsqrt S) (R_sqrt.sqrt S)).
  { apply (rnd_near _ _ _ Hstd). lra. }
  assert (Hn2 : near 2 (fsqrt S * fsqrt S) S).
  { rewrite <- (sqrt_sqrt S) at 3 by lra. apply (near_mul 1 1); try done; lra. }
  assert (Hn3 : near 3 (fmul (fsqrt S) (fsqrt S)) S).
  { apply near_rnd; [lra|done]. }
  assert (Hn4 : near 3 (S / fmul (fsqrt S) (fsqrt S)) 1).
  { replace 1 with (S / S) by (field; lra).
    apply (near_div 0 3); [lra|done|apply near_refl|done]. }
  apply near_rnd; [lra|done].
Qed.

Lemma idf_self (toks : list string) t :
  t ∈ toks → idf (float_ops := fl) toks toks t = 1.
Proof.
  intros Hin. unfold idf, df.
  rewrite bool_decide_true by by apply elem_of_list_to_set.
  change (fadd (flog (fdiv (int 3) (int 3))) (int 1) = 1).
  rewrite ratio_self by lia. rewrite (log_one _ _ _ Hstd), of_int_1.
  cbn. rewrite Rplus_0_l. apply (rnd_one _ _ _ Hstd).
Qed.

(** The inverse document frequency is at least what one rounding leaves
    of 1. *)
Lemma idf_nonneg (toks1 toks2 : list string) t :
  0 <= idf (float_ops := fl) toks1 toks2 t.
Proof.
  unfold idf.
  assert (Hy : 1 <= fdiv (int (2 + 1)) (int (df toks1 toks2 t + 1))).
  { pose proof one_rounding_bounds as [Hlo Hhi]. cbn [Nat.add].
    assert (H3 : 297 / 100 <= int 3).
    { destruct (of_int_near 3) as [H _]. numerals H. lra. }
    assert (Hcase : df toks1 toks2 t = 0%nat ∨ df toks1 toks2 t = 1%nat
                    ∨ df toks1 toks2 t = 2%nat).
    { unfold df. repeat case_bool_decide; lia. }
    destruct Hcase as [-> | [-> | ->]]; cbn [Nat.add].
    - rewrite of_int_1.
      assert (Hq : 0 <= int 3 / 1) by lra.
      destruct (rnd_near _ _ _ Hstd _ Hq) as [H _].
      change (1 <= rnd (int 3 / 1)). nra.
    - rewrite of_int_2.
      assert (Hq : 0 <= int 3 / 2) by lra.
      destruct (rnd_near _ _ _ Hstd _ Hq) as [H _].
      change (1 <= rnd (int 3 / 2)). nra.
    - rewrite ratio_self by lia. lra. }
  pose proof (log_nonneg _ _ _ Hstd _ Hy) as Hl. rewrite of_int_1.
  change (0 <= rnd (flog (fdiv (int (2 + 1)) (int (df toks1 toks2 t + 1)))
                    + 1)).
  apply rnd_nonneg. lra.
Qed.

(** The entry of a term in the vector of a text. *)
Lemma entry_nonneg (toks toks1 toks2 : list string) t :
  0 <= fmul (int (tf_get toks t)) (idf (float_ops := fl) toks1 toks2 t).
Proof.
  cbn. apply rnd_nonneg. apply Rmult_le_pos;
    [apply rnd_nonneg, pos_INR|apply idf_nonneg].
Qed.

Lemma entry_self_pos (toks : list string) t :
  t ∈ toks →
  0 < fmul (int (tf_get toks t)) (idf (float_ops := fl) toks toks t).
Proof.
  intros Hin. rewrite idf_self by done. cbn. apply rnd_pos.
  rewrite Rmult_1_r. apply rnd_pos. apply (lt_INR 0).
  unfold tf_get. rewrite bool_decide_true by by apply elem_of_list_to_set.
  by apply count_pos.
Qed.

Lemma tfidf_self order (toks : list string) :
  listing order (list_to_set toks ∪ list_to_set toks) →
  toks ≠ [] →
  near 4 (_tfidf_overlap (float_ops := fl) order toks toks) 1.
Proof.
  intros [_ Hmem] Hne. unfold _tfidf_overlap. cbn zeta.
  assert (HS : (list_to_set toks ∪ list_to_set toks : gset string) ≠ ∅).
  { destruct toks as [|t toks]; [done|]. set_solver. }
  rewrite bool_decide_false by done.
  pose (f := λ t, fmul (int (tf_get toks t))
                       (idf (float_ops := fl) toks toks t)).
  change (near 4 (_cosine_similarity (float_ops := fl)
                    (map f order) (map f order)) 1).
  assert (Hf : ∀ t, 0 <= f t) by (intros t; apply entry_nonneg).
  apply cosine_self; [done|].
  assert (Ht0 : ∃ t0, t0 ∈ toks).
  { destruct toks as [|t0 toks]; [done|]. exists t0. left. }
  destruct Ht0 as [t0 Ht0].
  assert (Hin : t0 ∈ order) by (apply Hmem; set_solver).
  apply (exact_sum_pos (fmul (f t0) (f t0))).
  - apply list_elem_of_fmap. by exists t0.
  - pose proof (entry_self_pos toks t0 Ht0) as Hpos.
    cbn. apply rnd_pos. by apply Rmult_lt_0_compat.
  - by apply squares_nonneg.
Qed.

Lemma overlap_self (G : gset string) :
  G ≠ ∅ → fdiv (int (size (G ∩ G))) (int (size (G ∪ G))) = 1.
Proof.
  intros HG.
  replace (G ∩ G) with G by set_solver.
  replace (G ∪ G) with G by set_solver.
  apply ratio_self. by apply size_pos.
Qed.

Lemma ngram_self_long text :
  (3 ≤ String.length text)%nat →
  _ngram_similarity (float_ops := fl) text text = 1.
Proof.
  intros Hlen. unfold _ngram_similarity, _ngram_similarity_of.
  cbn [fold_left length].
  assert (H2 : ngrams 2 (Py.lower text) ≠ ∅).
  { apply ngrams_nonempty. rewrite length_lower. lia. }
  assert (H3 : ngrams 3 (Py.lower text) ≠ ∅).
  { apply ngrams_nonempty. by rewrite length_lower. }
  rewrite !bool_decide_true by done. cbn [andb].
  rewrite !overlap_self by done. rewrite of_int_0, of_int_2.
  assert (H1 : fadd 0 1 = 1).
  { cbn. rewrite Rplus_0_l. apply (rnd_one _ _ _ Hstd). }
  rewrite H1.
  assert (H11 : fadd 1 1 = 2).
  { cbn. replace (1 + 1) with 2 by lra. apply (rnd_two _ _ _ Hstd). }
  rewrite H11. apply div_self. lra.
Qed.

Lemma jaccard_self (toks : list string) :
  toks ≠ [] → _jaccard_similarity (float_ops := fl) toks toks = 1.
Proof.
  intros Hne. unfold _jaccard_similarity. cbn zeta.
  assert (HS : (list_to_set toks : gset string) ≠ ∅).
  { destruct toks as [|t toks]; [done|]. set_solver. }
  rewrite (bool_decide_false _ HS). cbn [andb]. by apply overlap_self.
Qed.

(** The weighted combination of three parts that are near their exact
    values. *)
Lemma combination_near k tfidf ngram jaccard T N J :
  0 <= T → 0 <= N → 0 <= J → (4 ≤ k)%nat →
  near k tfidf T → near 0 ngram N → near 0 jaccard J →
  near (k + 6)
    (fadd (fadd (fmul (literal (float_ops := fl) 4 10) tfidf)
                (fmul (literal (float_ops := fl) 35 100) ngram))
          (fmul (literal (float_ops := fl) 25 100) jaccard))
    (4 / 10 * T + 35 / 100 * N + 25 / 100 * J).
Proof.
  intros HT HN HJ Hk Ht Hn Hj.
  assert (L4 : near 3 (literal (float_ops := fl) 4 10) (4 / 10)).
  { pose proof (literal_near 4 10 ltac:(lia)) as H. by numerals H. }
  assert (L35 : near 3 (literal (float_ops := fl) 35 100) (35 / 100)).
  { pose proof (literal_near 35 100 ltac:(lia)) as H. by numerals H. }
  assert (L25 : near 3 (literal (float_ops := fl) 25 100) (25 / 100)).
  { pose proof (literal_near 25 100 ltac:(lia)) as H. by numerals H. }
  assert (X1 : near (k + 4) (fmul (literal (float_ops := fl) 4 10) tfidf)
                    (4 / 10 * T)).
  { replace (k + 4)%nat with (S (3 + k)) by lia.
    apply near_rnd; [lra|]. apply near_mul; try done; lra. }
  assert (X2 : near (k + 4) (fmul (literal (float_ops := fl) 35 100) ngram)
                    (35 / 100 * N)).
  { apply (near_weaken 4); [lia|lra|].
    apply near_rnd; [lra|]. apply (near_mul 3 0); try done; lra. }
  assert (X3 : near (k + 5) (fmul (literal (float_ops := fl) 25 100) jaccard)
                    (25 / 100 * J)).
  { apply (near_weaken 4); [lia|lra|].
    apply near_rnd; [lra|]. apply (near_mul 3 0); try done; lra. }
  replace (k + 6)%nat with (S (k + 5)) by lia.
  apply near_rnd; [lra|]. apply near_add; [|done].
  replace (k + 5)%nat with (S (k + 4)) by lia.
  apply near_rnd; [lra|]. by apply near_add.
Qed.

Lemma high_threshold_below x :
  near 10 x 1 → @geb R fl x (HIGH_THRESHOLD (float_ops := fl)) = true.
Proof.
  intros [Hlo _]. unfold HIGH_THRESHOLD.
  pose proof (literal_near 75 100 ltac:(lia)) as [_ Hup]. numerals Hup.
  pose proof (shrink_lower 13) as H13. numerals H13.
  pose proof one_rounding_bounds as [Hr _]. unfold one_rounding in Hr.
  pose proof (shrink_pos 3) as H3.
  assert (Hsplit : one_rounding ^ 13 = one_rounding ^ 3 * one_rounding ^ 10).
  { by rewrite <- pow_add. }
  assert (Hge : literal (float_ops := fl) 75 100 <= x).
  { apply (Rmult_le_reg_l (one_rounding ^ 3)); [done|]. nra. }
  change ((if Rge_dec x (literal (float_ops := fl) 75 100)
           then true else false) = true).
  destruct (Rge_dec _ _); [done|lra].
Qed.

(** *** The same order in both calls *)

Lemma dot_sym (v w : list R) :
  map (λ '(a, b), fmul a b) (zip v w) = map (λ '(a, b), fmul a b) (zip w v).
Proof.
  revert w. induction v as [|a v IH]; intros [|b w]; simpl; try done.
  rewrite IH. f_equal. f_equal. lra.
Qed.

Lemma cosine_sym v w :
  _cosine_similarity (float_ops := fl) v w
  = _cosine_similarity (float_ops := fl) w v.
Proof.
  unfold _cosine_similarity. rewrite (dot_sym v w), orb_comm.
  destruct (_ || _); [done|]. cbn. do 2 f_equal. f_equal. lra.
Qed.

Lemma tfidf_sym order toks1 toks2 :
  _tfidf_overlap (float_ops := fl) order toks1 toks2
  = _tfidf_overlap (float_ops := fl) order toks2 toks1.
Proof.
  unfold _tfidf_overlap. cbn zeta.
  rewrite (union_comm_L (list_to_set toks1)).
  case_bool_decide; [done|].
  rewrite cosine_sym.
  f_equal; apply map_ext; intros t; by rewrite idf_sym.
Qed.

Lemma similarity_sym order text1 text2 :
  _compute_heuristic_similarity (float_ops := fl) order text1 text2
  = _compute_heuristic_similarity (float_ops := fl) order text2 text1.
Proof.
  unfold _compute_heuristic_similarity. cbn zeta.
  rewrite (tfidf_sym order (_tokenize text1)),
    (jaccard_sym (_tokenize text1)), (ngram_sym text1).
  by destruct (_tokenize text1), (_tokenize text2).
Qed.

(** *** Two orders *)

Lemma cosine_nonneg {A} (f g : A → R) (l : list A) :
  (∀ t, 0 <= f t) → (∀ t, 0 <= g t) →
  0 <= _cosine_similarity (float_ops := fl) (map f l) (map g l).
Proof.
  intros Hf Hg. rewrite cosine_indexed. cbn zeta.
  destruct (_ || _); [rewrite of_int_0; lra|].
  cbn. apply rnd_nonneg. apply div_nonneg.
  - apply fsum_nonneg. by apply products_nonneg.
  - apply rnd_nonneg. apply Rmult_le_pos; apply rnd_nonneg, sqrt_pos.
Qed.

(** The cosine against its exact value over the rounded products: zero
    when a vector is, and otherwise within [3n + 4] roundings. *)
Lemma cosine_near {A} (f g : A → R) (l : list A) :
  (∀ t, 0 <= f t) → (∀ t, 0 <= g t) →
  let P := exact_sum (map (λ t, fmul (f t) (g t)) l) in
  let QA := exact_sum (map (λ t, fmul (f t) (f t)) l) in
  let QB := exact_sum (map (λ t, fmul (g t) (g t)) l) in
  (QA = 0 ∨ QB = 0 →
   _cosine_similarity (float_ops := fl) (map f l) (map g l) = 0)
  ∧ (0 < QA → 0 < QB →
     near (3 * length l + 4)
       (_cosine_similarity (float_ops := fl) (map f l) (map g l))
       (P / (R_sqrt.sqrt QA * R_sqrt.sqrt QB))).
Proof.
  intros Hf Hg P QA QB. rewrite cosine_indexed. cbn zeta.
  pose proof (squares_nonneg f l Hf) as HsqA.
  pose proof (squares_nonneg g l Hg) as HsqB.
  pose proof (products_nonneg f g l Hf Hg) as Hprod.
  pose proof (fsum_near _ HsqA) as HnA. pose proof (fsum_near _ HsqB) as HnB.
  pose proof (fsum_near _ Hprod) as HnP.
  rewrite length_map in HnA, HnB, HnP. fold QA in HnA. fold QB in HnB.
  fold P in HnP.
  assert (Hzero : ∀ S, S = 0 → fsqrt S = 0).
  { intros S ->. cbn. rewrite sqrt_0. apply rnd_zero. }
  split.
  - intros [H0|H0].
    + rewrite H0 in HnA. apply near_zero in HnA.
      rewrite (eqb_zero_true _ (Hzero _ HnA)). cbn [orb]. apply of_int_0.
    + rewrite H0 in HnB. apply near_zero in HnB.
      rewrite (eqb_zero_true (fsqrt (fsum (map (λ t, fmul (g t) (g t)) l)))
                 (Hzero _ HnB)).
      rewrite orb_true_r. apply of_int_0.
  - intros HA HB.
    set (SA := fsum (map (λ t, fmul (f t) (f t)) l)) in *.
    set (SB := fsum (map (λ t, fmul (g t) (g t)) l)) in *.
    set (D := fsum (map (λ t, fmul (f t) (g t)) l)) in *.
    assert (HP : 0 <= P) by by apply exact_sum_nonneg.
    assert (HrA : 0 < R_sqrt.sqrt QA) by by apply sqrt_lt_R0.
    assert (HrB : 0 < R_sqrt.sqrt QB) by by apply sqrt_lt_R0.
    assert (N1 : near (S (length l)) (fsqrt SA) (R_sqrt.sqrt QA)).
    { apply near_rnd; [lra|]. apply near_sqrt; [lra|done]. }
    assert (N2 : near (S (length l)) (fsqrt SB) (R_sqrt.sqrt QB)).
    { apply near_rnd; [lra|]. apply near_sqrt; [lra|done]. }
    pose proof (near_pos _ _ _ N1 HrA) as Hp1.
    pose proof (near_pos _ _ _ N2 HrB) as Hp2.
    rewrite !eqb_zero_false by lra. cbn [orb].
    assert (Href : 0 < R_sqrt.sqrt QA * R_sqrt.sqrt QB)
      by by apply Rmult_lt_0_compat.
    assert (N12 : near (S (S (length l) + S (length l)))
                       (fmul (fsqrt SA) (fsqrt SB))
                       (R_sqrt.sqrt QA * R_sqrt.sqrt QB)).
    { apply near_rnd; [lra|]. apply near_mul; try done; lra. }
    replace (3 * length l + 4)%nat
      with (S (length l + S (S (length l) + S (length l)))) by lia.
    apply near_rnd; [by apply div_nonneg; lra|].
    by apply near_div.
Qed.

(** The two calls iterate the same set in two orders, with the vectors
    exchanged. *)
Lemma cosine_swap {A} (f g : A → R) (l1 l2 : list A) :
  l1 ≡ₚ l2 → (∀ t, 0 <= f t) → (∀ t, 0 <= g t) →
  near (6 * length l1 + 8)
    (_cosine_similarity (float_ops := fl) (map f l1) (map g l1))
    (_cosine_similarity (float_ops := fl) (map g l2) (map f l2)).
Proof.
  intros Hperm Hf Hg.
  destruct (cosine_near f g l1 Hf Hg) as [Hz1 Hn1].
  destruct (cosine_near g f l2 Hg Hf) as [Hz2 Hn2].
  cbn zeta in *.
  assert (HP : exact_sum (map (λ t, fmul (g t) (f t)) l2)
               = exact_sum (map (λ t, fmul (f t) (g t)) l1)).
  { rewrite (exact_sum_perm _ (map (λ t, fmul (g t) (f t)) l1)).
    - f_equal. apply map_ext. intros t. cbn. f_equal. lra.
    - apply Permutation_map. by symmetry. }
  assert (HA : exact_sum (map (λ t, fmul (f t) (f t)) l2)
               = exact_sum (map (λ t, fmul (f t) (f t)) l1)).
  { apply exact_sum_perm, Permutation_map. by symmetry. }
  assert (HB : exact_sum (map (λ t, fmul (g t) (g t)) l2)
               = exact_sum (map (λ t, fmul (g t) (g t)) l1)).
  { apply exact_sum_perm, Permutation_map. by symmetry. }
  rewrite HP, HA, HB in *. rewrite <- (Permutation_length Hperm) in Hn2.
  set (P := exact_sum (map (λ t, fmul (f t) (g t)) l1)) in *.
  set (QA := exact_sum (map (λ t, fmul (f t) (f t)) l1)) in *.
  set (QB := exact_sum (map (λ t, fmul (g t) (g t)) l1)) in *.
  assert (HQA : 0 <= QA) by by apply exact_sum_nonneg, squares_nonneg.
  assert (HQB : 0 <= QB) by by apply exact_sum_nonneg, squares_nonneg.
  assert (HPn : 0 <= P) by by apply exact_sum_nonneg, products_nonneg.
  destruct (Req_dec_T QA 0) as [H0|HA0].
  { rewrite Hz1, Hz2 by auto. split; lra. }
  destruct (Req_dec_T QB 0) as [H0|HB0].
  { rewrite Hz1, Hz2 by auto. split; lra. }
  assert (HpA : 0 < QA) by lra. assert (HpB : 0 < QB) by lra.
  specialize (Hn1 HpA HpB). specialize (Hn2 HpB HpA).
  rewrite (Rmult_comm (R_sqrt.sqrt QB)) in Hn2.
  assert (Href : 0 <= P / (R_sqrt.sqrt QA * R_sqrt.sqrt QB)).
  { apply div_nonneg; [done|].
    apply Rmult_le_pos; apply sqrt_pos. }
  replace (6 * length l1 + 8)%nat
    with ((3 * length l1 + 4) + (3 * length l1 + 4))%nat by lia.
  apply (near_trans _ _ _ (P / (R_sqrt.sqrt QA * R_sqrt.sqrt QB)));
    [|done|by apply near_sym].
  by apply cosine_nonneg.
Qed.

Lemma tfidf_nonneg order toks1 toks2 :
  0 <= _tfidf_overlap (float_ops := fl) order toks1 toks2.
Proof.
  unfold _tfidf_overlap. cbn zeta.
  case_bool_decide; [rewrite of_int_0; lra|].
  apply (cosine_nonneg
           (λ t, fmul (int (tf_get toks1 t)) (fidf toks1 toks2 t))
           (λ t, fmul (int (tf_get toks2 t)) (fidf toks1 toks2 t)));
    intros t; apply entry_nonneg.
Qed.

Lemma tfidf_swap order1 order2 toks1 toks2 :
  order1 ≡ₚ order2 →
  near (6 * length order1 + 8)
    (_tfidf_overlap (float_ops := fl) order1 toks1 toks2)
    (_tfidf_overlap (float_ops := fl) order2 toks2 toks1).
Proof.
  intros Hperm. unfold _tfidf_overlap. cbn zeta.
  rewrite (union_comm_L (list_to_set toks2)).
  case_bool_decide; [rewrite of_int_0; split; lra|].
  rewrite (map_ext (λ t, fmul (int (tf_get toks2 t)) (fidf toks2 toks1 t))
                   (λ t, fmul (int (tf_get toks2 t)) (fidf toks1 toks2 t)))
    by (intros t; by rewrite idf_sym).
  rewrite (map_ext (λ t, fmul (int (tf_get toks1 t)) (fidf toks2 toks1 t))
                   (λ t, fmul (int (tf_get toks1 t)) (fidf toks1 toks2 t)))
    by (intros t; by rewrite idf_sym).
  apply (cosine_swap
           (λ t, fmul (int (tf_get toks1 t)) (fidf toks1 toks2 t))
           (λ t, fmul (int (tf_get toks2 t)) (fidf toks1 toks2 t)));
    [done|intros t; apply entry_nonneg..].
Qed.

Lemma overlap_nonneg (G1 G2 : gset string) :
  0 <= fdiv (int (size (G1 ∩ G2))) (int (size (G1 ∪ G2))).
Proof. cbn. apply rnd_nonneg, div_nonneg; apply rnd_nonneg, pos_INR. Qed.

Lemma ngram_nonneg text1 text2 :
  0 <= _ngram_similarity (float_ops := fl) text1 text2.
Proof.
  unfold _ngram_similarity, _ngram_similarity_of. cbn [fold_left length].
  rewrite of_int_0, of_int_2.
  assert (Hstep : ∀ total (G1 G2 : gset string), 0 <= total →
    0 <= (if bool_decide (G1 ≠ ∅) && bool_decide (G2 ≠ ∅)
          then fadd total (fdiv (int (size (G1 ∩ G2))) (int (size (G1 ∪ G2))))
          else total)).
  { intros total G1 G2 Ht. destruct (_ && _); [|done].
    pose proof (overlap_nonneg G1 G2). cbn. apply rnd_nonneg.
    cbn in H. lra. }
  cbn. apply rnd_nonneg, div_nonneg; [|lra].
  apply Hstep, Hstep. lra.
Qed.

Lemma jaccard_nonneg toks1 toks2 :
  0 <= _jaccard_similarity (float_ops := fl) toks1 toks2.
Proof.
  unfold _jaccard_similarity. cbn zeta.
  destruct (_ && _); [rewrite of_int_0; lra|apply overlap_nonneg].
Qed.

(** The combination of two scores near each other with the same two
    other parts. *)
Lemma combination_swap k T1 T2 N J :
  0 <= T2 → 0 <= N → 0 <= J → near k T1 T2 →
  near (k + 6)
    (fadd (fadd (fmul (literal (float_ops := fl) 4 10) T1)
                (fmul (literal (float_ops := fl) 35 100) N))
          (fmul (literal (float_ops := fl) 25 100) J))
    (fadd (fadd (fmul (literal (float_ops := fl) 4 10) T2)
                (fmul (literal (float_ops := fl) 35 100) N))
          (fmul (literal (float_ops := fl) 25 100) J)).
Proof.
  intros HT HN HJ Hk.
  pose proof (literal_nonneg 4 10 ltac:(lia)) as H4.
  pose proof (literal_nonneg 35 100 ltac:(lia)) as H35.
  pose proof (literal_nonneg 25 100 ltac:(lia)) as H25.
  set (c4 := literal (float_ops := fl) 4 10) in *.
  set (G := fmul (literal (float_ops := fl) 35 100) N).
  set (K := fmul (literal (float_ops := fl) 25 100) J).
  assert (HG : 0 <= G) by (apply rnd_nonneg; by apply Rmult_le_pos).
  assert (HK : 0 <= K) by (apply rnd_nonneg; by apply Rmult_le_pos).
  assert (X1 : near (S (S k)) (fmul c4 T1) (fmul c4 T2)).
  { apply near_rnd_both; [by apply Rmult_le_pos|].
    apply (near_mul 0 k); try done. apply near_refl. }
  assert (HX : 0 <= fmul c4 T2) by (apply rnd_nonneg; by apply Rmult_le_pos).
  assert (X2 : near (S (S (S (S k)))) (fadd (fmul c4 T1) G)
                    (fadd (fmul c4 T2) G)).
  { apply near_rnd_both; [lra|]. apply near_add; [done|].
    apply (near_weaken 0); [lia|done|apply near_refl]. }
  assert (HX2 : 0 <= fadd (fmul c4 T2) G) by (apply rnd_nonneg; lra).
  replace (k + 6)%nat with (S (S (S (S (S (S k)))))) by lia.
  apply near_rnd_both; [lra|]. apply near_add; [done|].
  apply (near_weaken 0); [lia|done|apply near_refl].
Qed.

End Rounded.

(** Exact arithmetic obeys the standard model. *)
Lemma exact_arithmetic : standard_model id ln exact_sum.
Proof.
  split.
  - intros x Hx. unfold near, id. pose proof one_rounding_bounds as [? ?].
    rewrite pow_1. split; nra.
  - done.
  - done.
  - apply ln_1.
  - intros x Hx. destruct (Req_dec_T x 1) as [->|Hne]; [rewrite ln_1; lra|].
    left. rewrite <- ln_1. apply ln_increasing; lra.
  - intros xs Hxs. apply (near_weaken 0); [lia| |apply near_refl].
    by apply exact_sum_nonneg.
Qed.

(** C5, as amended.  In an arithmetic that rounds as binary64 does (the
    standard model: relative error [2^-53] per operation), for every text
    of at least three characters whose token list is non-empty the
    heuristic similarity of the text with itself is within ten roundings
    of 1, with label high; for every two texts the similarity of [a] with
    [b] is the similarity of [b] with [a] when both calls iterate the set
    of tokens in the same order, and whatever the two orders the two
    scores are within [6n + 14] roundings of each other, [n] the number
    of distinct tokens. *)
Theorem similarity_reflexive_symmetric rnd flog fsum :
  standard_model rnd flog fsum →
  (∀ order t,
     listing order (all_tokens t t) →
     _tokenize t ≠ [] → (3 ≤ String.length t)%nat →
     near 10
       (score (_compute_heuristic_similarity
                 (float_ops := rounded rnd flog fsum) order t t)) 1
     ∧ label (_compute_heuristic_similarity
                (float_ops := rounded rnd flog fsum) order t t) = "high")
  ∧ (∀ order a b,
       _compute_heuristic_similarity
         (float_ops := rounded rnd flog fsum) order a b
       = _compute_heuristic_similarity
           (float_ops := rounded rnd flog fsum) order b a)
  ∧ (∀ order1 order2 a b,
       listing order1 (all_tokens a b) →
       listing order2 (all_tokens b a) →
       near (6 * size (all_tokens a b) + 14)
         (score (_compute_heuristic_similarity
                   (float_ops := rounded rnd flog fsum) order1 a b))
         (score (_compute_heuristic_similarity
                   (float_ops := rounded rnd flog fsum) order2 b a))).
Proof.
  intros Hstd. split; [|split].
  - intros order t Hlist Htok Hlen.
    assert (Hnear : near 10
      (score (_compute_heuristic_similarity
                (float_ops := rounded rnd flog fsum) order t t)) 1).
    { unfold _compute_heuristic_similarity. cbn zeta.
      pose proof (tfidf_self rnd flog fsum Hstd order _ Hlist Htok) as Ht.
      pose proof (jaccard_self rnd flog fsum Hstd _ Htok) as Hj.
      pose proof (ngram_self_long rnd flog fsum Hstd _ Hlen) as Hn.
      destruct (_tokenize t) as [|u toks]; [done|].
      cbn [score]. rewrite Hj, Hn.
      pose proof (combination_near rnd flog fsum Hstd 4 _ 1 1 1 1 1
                    ltac:(lra) ltac:(lra) ltac:(lra) ltac:(lia) Ht
                    (near_refl 1) (near_refl 1)) as Hc.
      replace (4 / 10 * 1 + 35 / 100 * 1 + 25 / 100 * 1) with 1 in Hc by lra.
      exact Hc. }
    split; [done|].
    pose proof (high_threshold_below rnd flog fsum Hstd _ Hnear) as Hhigh.
    unfold _compute_heuristic_similarity in *. cbn zeta in *.
    destruct (_tokenize t) as [|u toks]; [done|].
    cbn [score label] in *. by rewrite Hhigh.
  - apply similarity_sym.
  - intros order1 order2 a b Hl1 Hl2.
    assert (Hperm : order1 ≡ₚ order2).
    { apply (listing_perm _ _ _ Hl1). unfold all_tokens in *.
      by rewrite (union_comm_L (list_to_set (_tokenize a))). }
    rewrite <- (listing_length _ _ Hl1).
    unfold _compute_heuristic_similarity. cbn zeta.
    rewrite (jaccard_sym (_tokenize b)), (ngram_sym b).
    pose proof (tfidf_swap rnd flog fsum Hstd order1 order2
                  (_tokenize a) (_tokenize b) Hperm) as Hswap.
    pose proof (tfidf_nonneg rnd flog fsum Hstd order2
                  (_tokenize b) (_tokenize a)) as Hnn.
    pose proof (ngram_nonneg rnd flog fsum Hstd a b) as Hng.
    pose proof (jaccard_nonneg rnd flog fsum Hstd
                  (_tokenize a) (_tokenize b)) as Hjc.
    assert (Hzero : near (6 * length order1 + 14)
                         (@of_int R (rounded rnd flog fsum) 0)
                         (@of_int R (rounded rnd flog fsum) 0)).
    { rewrite (of_int_0 rnd flog fsum Hstd). split; lra. }
    destruct (_tokenize a) as [|u toks], (_tokenize b) as [|u' toks'];
      cbn [score]; try done.
    replace (6 * length order1 + 14)%nat
      with ((6 * length order1 + 8) + 6)%nat by lia.
    by apply (combination_swap rnd flog fsum Hstd).
Qed.

(** C5 as stated fails on the doubles.  A text of two letters has a
    token and no 3-gram, and the n-gram average still divides by two: the
    score is 0.825.  For ["hello world"] the root of 2 is rounded, its
    square is not 2 again, and the score is 0.9999999999999999, in
    whichever order the two tokens are iterated. *)
Lemma similarity_below_one :
  (_tokenize "ab" ≠ []
   ∧ listing ["ab"] (all_tokens "ab" "ab")
   ∧ score (_compute_heuristic_similarity (float_ops := binary64)
              ["ab"] "ab" "ab")
     = 0x1.a666666666666p-1%float
   ∧ PrimFloat.eqb
       (score (_compute_heuristic_similarity (float_ops := binary64)
                 ["ab"] "ab" "ab")) 1%float = false)
  ∧ (_tokenize "hello world" ≠ []
     ∧ (3 ≤ String.length "hello world")%nat
     ∧ listing ["hello"; "world"] (all_tokens "hello world" "hello world")
     ∧ listing ["world"; "hello"] (all_tokens "hello world" "hello world")
     ∧ score (_compute_heuristic_similarity (float_ops := binary64)
                ["hello"; "world"] "hello world" "hello world")
       = 0x1.fffffffffffffp-1%float
     ∧ score (_compute_heuristic_similarity (float_ops := binary64)
                ["world"; "hello"] "hello world" "hello world")
       = 0x1.fffffffffffffp-1%float
     ∧ PrimFloat.eqb 0x1.fffffffffffffp-1%float 1%float = false).
Proof.
  assert (Hab : _tokenize "ab" = ["ab"]) by by vm_compute.
  assert (Hhw : _tokenize "hello world" = ["hello"; "world"]) by by vm_compute.
  split.
  - split; [by rewrite Hab|]. split.
    { unfold all_tokens. rewrite Hab. split; [|set_solver].
      apply NoDup_singleton. }
    split; by vm_compute.
  - split; [by rewrite Hhw|]. split; [simpl; lia|].
    assert (Hnd : ∀ x y : string, x ≠ y → NoDup [x; y]).
    { intros x y Hxy. apply NoDup_cons. split; [set_solver|].
      apply NoDup_singleton. }
    split.
    { unfold all_tokens. rewrite Hhw. split; [by apply Hnd|set_solver]. }
    split.
    { unfold all_tokens. rewrite Hhw. split; [by apply Hnd|set_solver]. }
    split; [by vm_compute|]. split; by vm_compute.
Qed.

(** On the doubles the order in which the set of tokens is iterated
    shows in the last bit of the score, when the sums are added from left
    to right: the same two texts, a different order in the second
    call. *)
Lemma order_changes_score :
  let a := "aa bb bb cc cc cc cc dd" in
  let b := "dd" in
  listing ["aa"; "bb"; "cc"; "dd"] (all_tokens a b)
  ∧ listing ["cc"; "dd"; "aa"; "bb"] (all_tokens b a)
  ∧ score (_compute_heuristic_similarity (float_ops := binary64)
             ["aa"; "bb"; "cc"; "dd"] a b)
    = 0x1.2186b4f3e98cbp-3%float
  ∧ score (_compute_heuristic_similarity (float_ops := binary64)
             ["cc"; "dd"; "aa"; "bb"] b a)
    = 0x1.2186b4f3e98cap-3%float.
Proof.
  cbn zeta.
  assert (Ha : _tokenize "aa bb bb cc cc cc cc dd"
               = ["aa"; "bb"; "bb"; "cc"; "cc"; "cc"; "cc"; "dd"])
    by by vm_compute.
  assert (Hb : _tokenize "dd" = ["dd"]) by by vm_compute.
  split.
  { unfold all_tokens. rewrite Ha, Hb. split; [|set_solver].
    repeat (apply NoDup_cons; split; [set_solver|]). apply NoDup_nil_2. }
  split.
  { unfold all_tokens. rewrite Ha, Hb. split; [|set_solver].
    repeat (apply NoDup_cons; split; [set_solver|]). apply NoDup_nil_2. }
  split; by vm_compute.
Qed.

Lemma similarity_reflexive_symmetric_witness :
  near 10
    (score (_compute_heuristic_similarity
              (float_ops := rounded id ln exact_sum) ["abc"] "abc" "abc")) 1
  ∧ label (_compute_heuristic_similarity
             (float_ops := rounded id ln exact_sum) ["abc"] "abc" "abc")
    = "high".
Proof.
  apply (proj1 (similarity_reflexive_symmetric id ln exact_sum
                  exact_arithmetic) ["abc"] "abc").
  - assert (Htok : _tokenize "abc" = ["abc"]) by by vm_compute.
    unfold all_tokens. rewrite Htok. split; [|set_solver].
    apply NoDup_singleton.
  - vm_compute. discriminate.
  - simpl. lia.
Defined.

End EmbeddingsSpec.

Module ActivitiesSpec.

Import Schemas Activities ActivitiesVocab.

Lemma dict_merge_empty facts : dict_merge facts [] = facts.
Proof. done. Qed.

(** With a decision that is a non-empty string, C8 holds. *)
Lemma unchanged_scenario_decided evaluate rule_id baseline_facts :
  (∀ r, evaluate (safe_facts baseline_facts) rule_id = Py.Ok r →
        ∃ d, er_decision r = Some d ∧ d ≠ "") →
  unchanged_scenario_agrees evaluate rule_id baseline_facts.
Proof.
  intros Hdec baseline sid stype desc Hbase [st Hst].
  unfold evaluate_baseline_activity in Hbase.
  unfold analyze_counterfactual_activity. rewrite dict_merge_empty.
  destruct (evaluate (safe_facts baseline_facts) rule_id) as [r|e] eqn:He;
    [|done].
  destruct (Hdec r eq_refl) as (d & Hd & Hne).
  cbn [Py.bind] in *. injection Hbase as <-. cbn [decision].
  rewrite Hst, Hd. cbn [or_unknown].
  destruct d as [|c d]; [done|]. cbn [Py.truthy].
  rewrite bool_decide_true by done. cbn. by eexists.
Qed.

(** C8.  The code at an engine result without a decision: the baseline
    activity reports the decision ["unknown"]; the counterfactual activity
    with no modified fact and that baseline decision reports the same
    decision string ["unknown"], and yet [differs_from_baseline = true]
    and one key difference. *)
Theorem unchanged_scenario_undecided :
  ∃ baseline result,
    evaluate_baseline_activity undecided "rule" [("amount", VInt 5)]
    = Py.Ok baseline
    ∧ analyze_counterfactual_activity undecided "rule" [("amount", VInt 5)]
        "s1" "threshold" "no change" [] (decision baseline)
      = Py.Ok result
    ∧ decision baseline = "unknown"
    ∧ decision result = "unknown"
    ∧ differs_from_baseline result = true
    ∧ key_differences result = ["Decision changed from unknown to None"].
Proof. do 2 eexists. by split_and!. Qed.

Lemma unchanged_scenario_undecided_fails :
  ¬ unchanged_scenario_agrees undecided "rule" [("amount", VInt 5)].
Proof.
  intros H.
  destruct (H _ "s1" "threshold" "no change" eq_refl) as (r & Hr & Hd & _);
    [by eexists|].
  cbn in Hr. injection Hr as <-. done.
Qed.

End ActivitiesSpec.

Module WorkflowsSpec.

Import Schemas Workflows WorkflowsVocab.

Lemma deliver_skip signals st :
  deliver signals st = set_skip_tiers (_skip_tiers st ∪ list_to_set signals) st.
Proof.
  revert st. induction signals as [|s signals IH]; intros st; simpl.
  - destruct st; unfold set_skip_tiers; simpl. f_equal. set_solver.
  - rewrite IH. destruct st; unfold set_skip_tiers, skip_tier; simpl.
    f_equal. set_solver.
Qed.

(** *** Reading the results after the loop *)

Lemma scores_read results l :
  scores results = Py.Ok l →
  (∀ h, h ∈ results → ∃ r, h = AsModel r)
  ∧ l = score <$> (validate <$> results).
Proof.
  revert l. induction results as [|h results IH]; intros l; cbn [scores].
  - intros [= <-]. split; [by intros ? ?%elem_of_nil|done].
  - destruct h as [r|r]; cbn [getattr Py.bind]; [|done].
    destruct (scores results) as [l'|e]; cbn [Py.bind]; [|done].
    intros [= <-]. destruct (IH l' eq_refl) as [Hall ->]. split; [|done].
    intros h [->|Hin]%elem_of_cons; [by exists r|by apply Hall].
Qed.

Lemma all_passed_models results :
  (∀ h, h ∈ results → ∃ r, h = AsModel r) →
  all_passed results = Py.Ok (forallb passed (validate <$> results)).
Proof.
  induction results as [|h results IH]; intros Hall; [done|].
  destruct (Hall h) as [r ->]; [left|]. cbn.
  destruct (passed r); [|done]. apply IH. intros h Hin. apply Hall. by right.
Qed.

Lemma scores_models results :
  (∀ h, h ∈ results → ∃ r, h = AsModel r) →
  scores results = Py.Ok (score <$> (validate <$> results)).
Proof.
  induction results as [|h results IH]; intros Hall; [done|].
  destruct (Hall h) as [r ->]; [left|]. cbn.
  rewrite IH; [done|]. intros h Hin. apply Hall. by right.
Qed.

Lemma scan_passed_models l :
  (∀ h, h ∈ l → ∃ r, h = AsModel r) → ∃ hp, scan_passed l = Py.Ok hp.
Proof.
  induction l as [|h l IH]; intros Hall; [by eexists|].
  destruct (Hall h) as [r ->]; [left|]. cbn.
  destruct (passed r); [by eexists|]. apply IH. intros h Hin. apply Hall. by right.
Qed.

Lemma scan_passed_dict r l :
  scan_passed (AsDict r :: l) = Py.Raise (attribute_error "passed").
Proof. done. Qed.

(** The results were all read: each one is a model. *)
Lemma final_results_read results hp avg op :
  final_results results = Py.Ok (hp, avg, op) →
  (∀ h, h ∈ results → ∃ r, h = AsModel r)
  ∧ op = forallb passed (validate <$> results)
  ∧ avg = match results with
          | [] => 0.0%Q
          | _ :: _ =>
              (Py.sum (score <$> (validate <$> results))
               / Py.of_nat (length results))%Q
          end.
Proof.
  unfold final_results, average_score.
  destruct (highest_passed results) as [hp'|e]; cbn [Py.bind]; [|done].
  destruct (scores results) as [l|e] eqn:Hs; cbn [Py.bind]; [|done].
  apply scores_read in Hs as [Hall ->].
  rewrite (all_passed_models _ Hall). cbn [Py.bind].
  intros [= <- <- <-]. done.
Qed.

Lemma final_results_models results :
  (∀ h, h ∈ results → ∃ r, h = AsModel r) →
  ∃ hp avg,
    final_results results
    = Py.Ok (hp, avg, forallb passed (validate <$> results)).
Proof.
  intros Hall. unfold final_results, average_score, highest_passed.
  destruct (scan_passed_models (rev results)) as [hp ->].
  { intros h Hin. apply Hall. apply list_elem_of_In. apply in_rev.
    by apply list_elem_of_In. }
  cbn [Py.bind]. rewrite (scores_models _ Hall). cbn [Py.bind].
  rewrite (all_passed_models _ Hall). cbn [Py.bind]. by eexists _, _.
Qed.

(** A dict among the results makes the final computation raise. *)
Lemma final_results_last_dict results r :
  final_results (results ++ [AsDict r]) = Py.Raise (attribute_error "passed").
Proof.
  unfold final_results, highest_passed. by rewrite rev_unit.
Qed.

Section Loop.

Variable env : RuleVerificationEnv.
Variable input : RuleVerificationInput.

Lemma list_remove_head {A} `{EqDecision A} (x : A) l :
  list_remove x (x :: l) = Py.Ok l.
Proof. simpl. by rewrite decide_True. Qed.

Lemma run_tiers_skip t rest m :
  t ∈ _skip_tiers (self m) →
  _tiers_remaining (self m) = t :: rest →
  run_tiers env input (t :: rest) m
  = run_tiers env input rest
      {| self := set_tiers_remaining rest (self m); executed := executed m |}.
Proof.
  intros Hin Hrem. simpl. rewrite bool_decide_true by done.
  by rewrite Hrem, list_remove_head.
Qed.

Lemma run_tiers_raise t rest m e :
  t ∉ _skip_tiers (self m) →
  outcome_of env input t = Py.Raise e →
  run_tiers env input (t :: rest) m
  = (Py.Raise e,
     {| self := deliver (signals_during_tier env t)
                        (set_current_tier (Some t) (self m));
        executed := executed m ++ [t] |}).
Proof.
  intros Hin Hout. simpl. rewrite bool_decide_false by done.
  unfold execute_tier. unfold outcome_of in Hout. by rewrite Hout.
Qed.

(** A tier whose activity handed back a model. *)
Lemma run_tiers_model t rest m r :
  t ∉ _skip_tiers (self m) →
  _tiers_remaining (self m) = t :: rest →
  outcome_of env input t = Py.Ok (AsModel r) →
  run_tiers env input (t :: rest) m
  = if fail_fast input && negb (passed r) then
      (Py.Ok (),
       {| self := stop_early (stop_message t r)
                    (self (after_result env t (AsModel r) rest m));
          executed := executed m ++ [t] |})
    else run_tiers env input rest (after_result env t (AsModel r) rest m).
Proof.
  intros Hin Hrem Hout. simpl. rewrite bool_decide_false by done.
  unfold execute_tier. unfold outcome_of in Hout. rewrite Hout.
  cbn [self executed]. rewrite deliver_skip.
  cbn [_tiers_remaining set_skip_tiers set_current_tier].
  rewrite Hrem, list_remove_head. unfold after_result. rewrite deliver_skip.
  cbn [getattr]. by destruct (fail_fast input), (passed r).
Qed.

(** A tier whose activity handed back a dict. *)
Lemma run_tiers_dict t rest m r :
  t ∉ _skip_tiers (self m) →
  _tiers_remaining (self m) = t :: rest →
  outcome_of env input t = Py.Ok (AsDict r) →
  run_tiers env input (t :: rest) m
  = if fail_fast input then
      (Py.Raise (attribute_error "passed"),
       after_result env t (AsDict r) rest m)
    else run_tiers env input rest (after_result env t (AsDict r) rest m).
Proof.
  intros Hin Hrem Hout. simpl. rewrite bool_decide_false by done.
  unfold execute_tier. unfold outcome_of in Hout. rewrite Hout.
  cbn [self executed]. rewrite deliver_skip.
  cbn [_tiers_remaining set_skip_tiers set_current_tier].
  rewrite Hrem, list_remove_head. unfold after_result. rewrite deliver_skip.
  cbn [getattr]. by destruct (fail_fast input).
Qed.

Lemma ascending_cons t rest :
  ascending (t :: rest) →
  ascending rest ∧ ∀ t', t' ∈ rest → value t < value t'.
Proof.
  intros [Hall Hrest]. by split.
Qed.

Lemma ascending_singleton t : ascending [t].
Proof. split; [by intros ? ?%elem_of_nil|done]. Qed.

(** The loop goes on after tier [x] has handed back [h]. *)
Lemma summary_continues x rest m h ran results :
  ascending (x :: rest) →
  x ∉ _skip_tiers (self m) →
  outcome_of env input x = Py.Ok h →
  (fail_fast input = true → ∃ r, h = AsModel r ∧ passed r = true) →
  LoopSummary env input rest (after_result env x h rest m)
    (run_tiers env input rest (after_result env x h rest m)).1
    (run_tiers env input rest (after_result env x h rest m)).2
    ran results →
  LoopSummary env input (x :: rest) m
    (run_tiers env input rest (after_result env x h rest m)).1
    (run_tiers env input rest (after_result env x h rest m)).2
    (x :: ran) (h :: results).
Proof.
  intros [Hasc Hlt]%ascending_cons Hskip Hout Hgo
    [H1 H2 H3 Ha H4 Hc H5 H6 H7 Hd Hr H8].
  set (m1 := after_result env x h rest m) in *.
  assert (Hsk1 : _skip_tiers (self m1)
                 = _skip_tiers (self m) ∪ list_to_set (signals_during_tier env x)).
  { unfold m1, after_result. by rewrite deliver_skip. }
  split.
  - rewrite H1. unfold m1, after_result. cbn. by rewrite <- app_assoc.
  - rewrite H2. unfold m1, after_result. rewrite deliver_skip. cbn.
    by rewrite <- app_assoc.
  - intros t [->|Hin]%elem_of_cons; [left|right; by apply H3].
  - split; [|done]. intros t' Hin. by apply Hlt, H3.
  - cbn. by rewrite Hout, H4.
  - intros Hres. cbn. by rewrite (Hc Hres).
  - intros h' [->|Hin]%elem_of_cons.
    + exists x. split; [left|done].
    + destruct (H5 h' Hin) as (t & ? & ?). exists t. split; [by right|done].
  - intros t Hor. apply not_elem_of_cons. split.
    + destruct Hor as [?|(t' & [->|Hin]%elem_of_cons & ? & _)].
      * by intros ->.
      * intros ->. lia.
      * intros ->. apply H3, Hlt in Hin. lia.
    + apply H6. rewrite Hsk1.
      destruct Hor as [?|(t' & [->|Hin]%elem_of_cons & ? & ?)].
      * left. apply elem_of_union. by left.
      * left. apply elem_of_union. right. by apply elem_of_list_to_set.
      * right. by exists t'.
  - intros Hfast t r [->|Hin]%elem_of_cons Hout' Hpass.
    + exfalso. destruct (Hgo Hfast) as (r' & -> & Hp).
      rewrite Hout in Hout'. injection Hout' as <-. congruence.
    + destruct (H7 Hfast t r Hin Hout' Hpass) as (? & Hl1 & Hl2 & ? & ?).
      split_and!; try done.
      * destruct ran; [by apply elem_of_nil in Hin|done].
      * destruct results; [done|done].
  - intros Hfast t r [->|Hin]%elem_of_cons Hout'.
    + exfalso. destruct (Hgo Hfast) as (r' & -> & Hp). congruence.
    + destruct (Hd Hfast t r Hin Hout') as (? & Hl1 & Hl2 & Hlen).
      split_and!; try done.
      * destruct ran; [by apply elem_of_nil in Hin|done].
      * destruct results; [done|done].
      * cbn. by rewrite Hlen.
  - intros Hfast Hres h' [->|Hin]%elem_of_cons.
    + destruct (Hgo Hfast) as (r' & -> & _). by exists r'.
    + by apply Hr.
  - intros Hall. destruct Hskip. apply Hall. left.
Qed.

Lemma run_tiers_summary tiers : ∀ m,
  ascending tiers →
  _tiers_remaining (self m) = tiers →
  ∃ ran results,
    LoopSummary env input tiers m
      (run_tiers env input tiers m).1 (run_tiers env input tiers m).2
      ran results.
Proof.
  induction tiers as [|x rest IH]; intros m Hasc Hrem.
  { exists [], []. simpl.
    split;
      [ by rewrite app_nil_r | by rewrite app_nil_r
      | by intros t ?%elem_of_nil | done | done | done
      | by intros r ?%elem_of_nil
      | by intros t _ ?%elem_of_nil | by intros _ t r ?%elem_of_nil
      | by intros _ t r ?%elem_of_nil | by intros _ _ h ?%elem_of_nil
      | done ]. }
  pose proof Hasc as [Hasc' Hlt]%ascending_cons.
  destruct (decide (x ∈ _skip_tiers (self m))) as [Hskip|Hskip].
  { rewrite run_tiers_skip by done.
    destruct (IH {| self := set_tiers_remaining rest (self m);
                    executed := executed m |} Hasc' eq_refl)
      as (ran & results & [H1 H2 H3 Ha H4 Hc H5 H6 H7 Hd Hr H8]).
    exists ran, results.
    split; [done|done| |done|done|done|done|done|done|done|done|].
    - intros t Hin. right. by apply H3.
    - intros Hall. apply H8. intros t Hin. apply Hall. by right. }
  assert (Hnot : ∀ t,
    t ∈ _skip_tiers (self m)
    ∨ (∃ t', t' ∈ [x] ∧ value t' < value t ∧ t ∈ signals_during_tier env t') →
    t ∉ [x]).
  { intros t Hor ->%list_elem_of_singleton.
    destruct Hor as [?|(t' & ->%list_elem_of_singleton & ? & _)]; [done|lia]. }
  assert (Hlisted : ∀ t, t ∈ [x] → t ∈ x :: rest).
  { intros t ->%list_elem_of_singleton. left. }
  assert (Hsome : (∀ t, t ∈ x :: rest → t ∈ _skip_tiers (self m)) → False).
  { intros Hall. destruct Hskip. apply Hall. left. }
  destruct (outcome_of env input x) as [[r|r]|e] eqn:Hout.
  - rewrite run_tiers_model with (r := r) by done.
    destruct (fail_fast input && negb (passed r)) eqn:Hff.
    + apply andb_true_iff in Hff as [Hff Hpass]. apply negb_true_iff in Hpass.
      exists [x], [AsModel r]. cbn [fst snd self executed]. unfold after_result.
      rewrite deliver_skip. split.
      * done.
      * done.
      * done.
      * apply ascending_singleton.
      * cbn. by rewrite Hout.
      * done.
      * intros h ->%list_elem_of_singleton. exists x. split; [left|done].
      * done.
      * intros _ t r' ->%list_elem_of_singleton. rewrite Hout.
        by intros [= <-].
      * intros _ t r' ->%list_elem_of_singleton. by rewrite Hout.
      * intros _ _ h ->%list_elem_of_singleton. by exists r.
      * intros Hall. by destruct Hsome.
    + destruct (IH (after_result env x (AsModel r) rest m) Hasc' eq_refl)
        as (ran & results & Hsum).
      exists (x :: ran), (AsModel r :: results).
      apply summary_continues; try done.
      intros Hfast. exists r. split; [done|].
      rewrite Hfast in Hff. by destruct (passed r).
  - rewrite run_tiers_dict with (r := r) by done.
    destruct (fail_fast input) eqn:Hfast.
    + exists [x], [AsDict r]. cbn [fst snd self executed]. unfold after_result.
      rewrite deliver_skip. split.
      * done.
      * done.
      * done.
      * apply ascending_singleton.
      * cbn. by rewrite Hout.
      * done.
      * intros h ->%list_elem_of_singleton. exists x. split; [left|done].
      * done.
      * intros _ t r' ->%list_elem_of_singleton. by rewrite Hout.
      * intros _ t r' ->%list_elem_of_singleton. rewrite Hout.
        by intros [= <-].
      * by intros _ ?.
      * intros Hall. by destruct Hsome.
    + destruct (IH (after_result env x (AsDict r) rest m) Hasc' eq_refl)
        as (ran & results & Hsum).
      exists (x :: ran), (AsDict r :: results).
      apply summary_continues; try done.
      intros Hfast'. congruence.
  - rewrite run_tiers_raise with (e := e) by done.
    exists [x], []. cbn [fst snd self executed]. rewrite deliver_skip. split.
    + done.
    + by cbn; rewrite app_nil_r.
    + done.
    + apply ascending_singleton.
    + done.
    + done.
    + by intros r ?%elem_of_nil.
    + done.
    + intros _ t r ->%list_elem_of_singleton. by rewrite Hout.
    + intros _ t r ->%list_elem_of_singleton. by rewrite Hout.
    + done.
    + intros Hall. by destruct Hsome.
Qed.

(** The machine when the loop is entered, after the rule was loaded. *)
Lemma loaded_skip_tiers :
  _skip_tiers (deliver (signals_during_load env) (started env input))
  = list_to_set (signals_before_run env) ∪ list_to_set (skip_tiers input)
    ∪ list_to_set (signals_during_load env).
Proof.
  unfold started. rewrite !deliver_skip. cbn. set_solver.
Qed.

Lemma loaded_fields :
  let st := deliver (signals_during_load env) (started env input) in
  _tier_results st = [] ∧ _stopped_early st = false ∧ _stop_reason st = None.
Proof. unfold started. by rewrite !deliver_skip. Qed.

Lemma loaded_remaining :
  _tiers_remaining (deliver (signals_during_load env) (started env input))
  = _tiers_remaining (started env input).
Proof. by rewrite deliver_skip. Qed.

Lemma filter_all_tiers_ascending (keep : VerificationTier → bool) :
  ascending (List.filter keep all_tiers).
Proof.
  unfold all_tiers. simpl.
  repeat match goal with |- context [keep ?t] => destruct (keep t) end;
    simpl; repeat split; intros t' Hin;
    repeat (apply elem_of_cons in Hin as [->|Hin]; [simpl; lia|]);
    by apply elem_of_nil in Hin.
Qed.

Lemma started_ascending : ascending (_tiers_remaining (started env input)).
Proof. apply filter_all_tiers_ascending. Qed.

Lemma started_remaining t :
  t ∈ _tiers_remaining (started env input) →
  value t ≤ value (max_tier input).
Proof.
  unfold started. cbn [_tiers_remaining set_tiers_remaining].
  intros Hin. apply list_elem_of_In, filter_In in Hin as [_ H].
  apply andb_true_iff in H as [H _]. by apply Nat.leb_le.
Qed.

Lemma body_loaded u :
  load_rule_outcome env (rule_id input) = Py.Ok u →
  body env input
  = run_tiers env input (_tiers_remaining (started env input))
      {| self := deliver (signals_during_load env) (started env input);
         executed := [] |}.
Proof.
  intros Hload. unfold body. cbn [self executed]. rewrite Hload.
  by rewrite loaded_remaining.
Qed.

Lemma body_summary u :
  load_rule_outcome env (rule_id input) = Py.Ok u →
  ∃ ran results,
    LoopSummary env input (_tiers_remaining (started env input))
      {| self := deliver (signals_during_load env) (started env input);
         executed := [] |}
      (body env input).1 (body env input).2 ran results.
Proof.
  intros Hload. rewrite (body_loaded u Hload).
  apply run_tiers_summary; [apply started_ascending|apply loaded_remaining].
Qed.

Lemma body_not_loaded e :
  load_rule_outcome env (rule_id input) = Py.Raise e →
  executed (body env input).2 = [] ∧ (body env input).1 = Py.Raise e
  ∧ _tier_results (self (body env input).2) = [].
Proof.
  intros Hload. unfold body. rewrite Hload. cbn.
  by rewrite (proj1 loaded_fields).
Qed.

Lemma run_executed : executed (run env input).2 = executed (body env input).2.
Proof.
  unfold run, failed. destruct (body env input) as [[[]|e] m]; [|done].
  by destruct (final_results _) as [[[? ?] ?]|?].
Qed.

Lemma run_tier_results :
  tier_results (run env input).1
  = validate <$> _tier_results (self (body env input).2).
Proof.
  unfold run, failed. destruct (body env input) as [[[]|e] m]; [|done].
  by destruct (final_results _) as [[[? ?] ?]|?].
Qed.

(** What the body left decides how the run ends. *)
Lemma run_raised e :
  (body env input).1 = Py.Raise e →
  (run env input).1
  = {| rv_status := FAILED; rv_rule_id := rule_id input;
       tier_results := validate <$> _tier_results (self (body env input).2);
       highest_tier_passed := None; overall_score := 0.0%Q;
       overall_passed := false; stopped_early := true;
       stop_reason := Some e; rv_error := Some e |}.
Proof.
  unfold run, failed. destruct (body env input) as [[[]|e'] m]; [done|].
  by intros [= ->].
Qed.

Lemma first_tier_executed x rest m :
  ascending (x :: rest) →
  _tiers_remaining (self m) = x :: rest →
  x ∉ _skip_tiers (self m) →
  x ∈ executed (run_tiers env input (x :: rest) m).2.
Proof.
  intros [Hasc _]%ascending_cons Hrem Hskip.
  assert (Hgo : ∀ h, x ∈ executed
            (run_tiers env input rest (after_result env x h rest m)).2).
  { intros h.
    destruct (run_tiers_summary rest (after_result env x h rest m) Hasc eq_refl)
      as (ran & results & Hsum).
    rewrite (ran_logged _ _ _ _ _ _ _ _ Hsum). cbn.
    apply elem_of_app. left. apply elem_of_app. right. left. }
  destruct (outcome_of env input x) as [[r|r]|e] eqn:Hout.
  - rewrite run_tiers_model with (r := r) by done.
    destruct (fail_fast input && negb (passed r)); [|apply Hgo].
    cbn. apply elem_of_app. right. left.
  - rewrite run_tiers_dict with (r := r) by done.
    destruct (fail_fast input); [|apply Hgo].
    cbn. apply elem_of_app. right. left.
  - rewrite run_tiers_raise with (e := e) by done.
    cbn. apply elem_of_app. right. left.
Qed.

End Loop.

Lemma run_tiers_agree env env' input t tiers : ∀ m,
  agree_except t env env' →
  ascending tiers →
  _tiers_remaining (self m) = tiers →
  t ∉ executed (run_tiers env input tiers m).2 →
  run_tiers env' input tiers m = run_tiers env input tiers m.
Proof.
  intros m (_ & _ & _ & Hag).
  revert m. induction tiers as [|x rest IH]; intros m Hasc Hrem Hnot; [done|].
  pose proof Hasc as [Hasc' Hlt]%ascending_cons.
  destruct (decide (x ∈ _skip_tiers (self m))) as [Hskip|Hskip].
  { rewrite !run_tiers_skip by done. rewrite run_tiers_skip in Hnot by done.
    by apply IH. }
  assert (Hx : x ≠ t).
  { intros ->. apply Hnot. by apply first_tier_executed. }
  destruct (Hag x Hx) as [Ho Hs].
  assert (Hout' : outcome_of env' input x = outcome_of env input x).
  { unfold outcome_of. by rewrite Ho. }
  destruct (outcome_of env input x) as [[r|r]|e] eqn:Hout.
  - rewrite (run_tiers_model env) with (r := r) by done.
    rewrite (run_tiers_model env') with (r := r) by done.
    rewrite (run_tiers_model env) with (r := r) in Hnot by done.
    unfold after_result in *. rewrite Hs.
    destruct (fail_fast input && negb (passed r)); [done|].
    by apply IH.
  - rewrite (run_tiers_dict env) with (r := r) by done.
    rewrite (run_tiers_dict env') with (r := r) by done.
    rewrite (run_tiers_dict env) with (r := r) in Hnot by done.
    unfold after_result in *. rewrite Hs.
    destruct (fail_fast input); [done|].
    by apply IH.
  - rewrite (run_tiers_raise env) with (e := e) by done.
    rewrite (run_tiers_raise env') with (e := e) by done.
    by rewrite Hs.
Qed.

Lemma run_agree env env' input t :
  agree_except t env env' →
  t ∉ executed (run env input).2 →
  run env' input = run env input.
Proof.
  intros Hag Hnot. pose proof Hag as (Hpre & Hload & Hsig & Hrest).
  assert (Hstart : started env' input = started env input).
  { unfold started. by rewrite Hpre. }
  assert (Hbody : body env' input = body env input).
  { rewrite run_executed in Hnot. unfold body in *.
    cbn [self executed] in *. rewrite Hstart, Hsig, Hload.
    destruct (load_rule_outcome env (rule_id input)); [|done].
    apply run_tiers_agree with (t := t); try done.
    - rewrite loaded_remaining. apply started_ascending.
  }
  unfold run, failed. by rewrite Hbody.
Qed.

(** The summary of the loop of a run whose rule loaded, from the start of
    the run. *)
Lemma run_summary env input u :
  load_rule_outcome env (rule_id input) = Py.Ok u →
  ∃ results,
    LoopSummary env input (_tiers_remaining (started env input))
      {| self := deliver (signals_during_load env) (started env input);
         executed := [] |}
      (body env input).1 (body env input).2
      (executed (run env input).2) results
    ∧ _tier_results (self (body env input).2) = results
    ∧ tier_results (run env input).1 = validate <$> results.
Proof.
  intros Hload.
  destruct (body_summary env input u Hload) as (ran & results & Hsum).
  pose proof (ran_logged _ _ _ _ _ _ _ _ Hsum) as Hlog.
  pose proof (results_appended _ _ _ _ _ _ _ _ Hsum) as Hres.
  cbn [executed self] in Hlog, Hres. rewrite app_nil_l in Hlog.
  rewrite (proj1 (loaded_fields env input)), app_nil_l in Hres.
  exists results. rewrite run_executed, run_tier_results, Hlog, Hres. done.
Qed.

(** A run that was not cut short by an exception ends as its state says. *)
Lemma run_completed env input hp avg op :
  (body env input).1 = Py.Ok () →
  final_results (_tier_results (self (body env input).2))
  = Py.Ok (hp, avg, op) →
  (run env input).1
  = {| rv_status := COMPLETED; rv_rule_id := rule_id input;
       tier_results := validate <$> _tier_results (self (body env input).2);
       highest_tier_passed := hp; overall_score := avg;
       overall_passed := op;
       stopped_early := _stopped_early (self (body env input).2);
       stop_reason := _stop_reason (self (body env input).2);
       rv_error := None |}.
Proof.
  unfold run. destruct (body env input) as [[[]|e] m]; [|done].
  cbn [fst snd]. by intros _ ->.
Qed.

Lemma run_final_raised env input e :
  (body env input).1 = Py.Ok () →
  final_results (_tier_results (self (body env input).2)) = Py.Raise e →
  (run env input).1
  = {| rv_status := FAILED; rv_rule_id := rule_id input;
       tier_results := validate <$> _tier_results (self (body env input).2);
       highest_tier_passed := None; overall_score := 0.0%Q;
       overall_passed := false; stopped_early := true;
       stop_reason := Some e; rv_error := Some e |}.
Proof.
  unfold run, failed. destruct (body env input) as [[[]|e'] m]; [|done].
  cbn [fst snd]. by intros _ ->.
Qed.

Lemma last_fmap_validate {A} (results : list (Handed A)) h :
  last results = Some h → last (validate <$> results) = Some (validate h).
Proof. intros H. by rewrite fmap_last, H. Qed.

Lemma ascending_last_schema ran :
  ascending ran → last ran = Some SCHEMA → ran = [SCHEMA].
Proof.
  intros Hasc Hlast.
  destruct ran as [|a ran]; [done|].
  destruct ran as [|b ran]; [by injection Hlast as ->|]. exfalso.
  destruct Hasc as [Hlt _].
  assert (SCHEMA ∈ b :: ran) as Hs.
  { apply last_Some in Hlast as (l' & Hl').
    destruct l' as [|c l']; [done|]. injection Hl' as -> Hl'.
    rewrite Hl'. apply elem_of_app. right. left. }
  apply Hlt in Hs. simpl in Hs. lia.
Qed.

(** With [fail_fast] set and the results handed back as models, a failing
    tier ends a completed run whose [stop_reason] names the tier: the
    behaviour that the loop is written for. *)
Lemma fail_fast_stops_at_model env input t r :
  fail_fast input = true →
  t ∈ executed (run env input).2 →
  outcome_of env input t = Py.Ok (AsModel r) →
  passed r = false →
  let out := (run env input).1 in
  let ran := executed (run env input).2 in
  rv_status out = COMPLETED
  ∧ last ran = Some t
  ∧ outcome_of env input <$> ran = Py.Ok ∘ AsModel <$> tier_results out
  ∧ last (tier_results out) = Some r
  ∧ stopped_early out = true
  ∧ stop_reason out = Some (stop_message t r)
  ∧ (t = SCHEMA → ran = [SCHEMA] ∧ tier_results out = [r]).
Proof.
  intros Hfast Hin Hout Hpass out ran. subst out ran.
  destruct (load_rule_outcome env (rule_id input)) as [u|e] eqn:Hload.
  2: { rewrite run_executed in Hin.
       destruct (body_not_loaded env input e Hload) as [Hex _].
       rewrite Hex in Hin. by apply elem_of_nil in Hin. }
  destruct (run_summary env input u Hload) as (results & Hsum & Hst & Hres).
  destruct (failure_stops _ _ _ _ _ _ _ _ Hsum Hfast t r Hin Hout Hpass)
    as (Hok & Hlast & Hlastr & Hstop & Hreason).
  pose proof (results_of_ran _ _ _ _ _ _ _ _ Hsum) as Hmap.
  rewrite (results_complete _ _ _ _ _ _ _ _ Hsum Hok), firstn_all in Hmap.
  pose proof (ran_ascending _ _ _ _ _ _ _ _ Hsum) as Hasc.
  pose proof (read_results _ _ _ _ _ _ _ _ Hsum Hfast Hok) as Hread.
  destruct (final_results_models results Hread) as (hp & avg & Hfin).
  rewrite <- Hst in Hfin.
  rewrite (run_completed env input _ _ _ Hok Hfin).
  cbn [rv_status tier_results stopped_early stop_reason].
  rewrite Hst.
  assert (Hm : results = AsModel <$> (validate <$> results)).
  { clear -Hread. induction results as [|h results IH]; [done|].
    destruct (Hread h) as [r ->]; [left|]. cbn. f_equal. apply IH.
    intros h Hin. apply Hread. by right. }
  split_and!; try done.
  - rewrite Hmap. rewrite Hm at 1. by rewrite <- !list_fmap_compose.
  - by rewrite (last_fmap_validate _ _ Hlastr).
  - intros ->. pose proof (ascending_last_schema _ Hasc Hlast) as Hran.
    split; [done|]. rewrite Hran in Hmap. cbn in Hmap. rewrite Hout in Hmap.
    destruct results as [|r1 [|r2 results]]; cbn in Hmap; try done.
    by injection Hmap as <-.
Qed.

(** C1.  With [fail_fast] set, let a tier that the run executed hand back
    its result as the worker's data converter delivers it: a dict.  The
    test [not result.passed] then raises [AttributeError], whatever the
    result says: the run ends with status failed, that tier is the last
    one executed, its result is the last of [tier_results], and
    [stop_reason] and [error] hold the text of the exception instead of
    naming the tier.  When every activity hands back a dict, the first
    tier that returns is the only one executed. *)
Theorem fail_fast_reads_dict env input t r :
  fail_fast input = true →
  t ∈ executed (run env input).2 →
  outcome_of env input t = Py.Ok (AsDict r) →
  let out := (run env input).1 in
  let ran := executed (run env input).2 in
  rv_status out = FAILED
  ∧ last ran = Some t
  ∧ (∃ results, outcome_of env input <$> ran = Py.Ok <$> results
                ∧ tier_results out = validate <$> results)
  ∧ last (tier_results out) = Some r
  ∧ stopped_early out = true
  ∧ stop_reason out = Some (attribute_error "passed")
  ∧ rv_error out = Some (attribute_error "passed")
  ∧ stop_reason out ≠ Some (stop_message t r)
  ∧ (t = SCHEMA → ran = [SCHEMA] ∧ tier_results out = [r])
  ∧ (hands_dicts env → ran = [t] ∧ tier_results out = [r]).
Proof.
  intros Hfast Hin Hout out ran. subst out ran.
  destruct (load_rule_outcome env (rule_id input)) as [u|e] eqn:Hload.
  2: { rewrite run_executed in Hin.
       destruct (body_not_loaded env input e Hload) as [Hex _].
       rewrite Hex in Hin. by apply elem_of_nil in Hin. }
  destruct (run_summary env input u Hload) as (results & Hsum & Hst & Hres).
  destruct (dict_stops _ _ _ _ _ _ _ _ Hsum Hfast t r Hin Hout)
    as (Hraise & Hlast & Hlastr & Hlen).
  pose proof (results_of_ran _ _ _ _ _ _ _ _ Hsum) as Hmap.
  rewrite Hlen, firstn_all in Hmap.
  pose proof (ran_ascending _ _ _ _ _ _ _ _ Hsum) as Hasc.
  rewrite (run_raised env input _ Hraise).
  cbn [rv_status tier_results stopped_early stop_reason rv_error].
  rewrite Hst.
  assert (Hone : ∀ ran' results',
            outcome_of env input <$> ran' = Py.Ok <$> results' →
            ran' = [t] → validate <$> results' = [r]).
  { intros ran' results' Hmap' ->. cbn in Hmap'. rewrite Hout in Hmap'.
    destruct results' as [|r1 [|r2 results']]; cbn in Hmap'; try done.
    by injection Hmap' as <-. }
  split_and!; try done.
  - by exists results.
  - by rewrite (last_fmap_validate _ _ Hlastr).
  - intros ->. pose proof (ascending_last_schema _ Hasc Hlast) as Hran.
    split; [done|]. by apply (Hone _ _ Hmap).
  - intros Hdicts.
    assert (Hran : executed (run env input).2 = [t]).
    { destruct (executed (run env input).2) as [|a ran] eqn:Heq;
        [by apply elem_of_nil in Hin|].
      destruct ran as [|b ran]; [by injection Hlast as ->|]. exfalso.
      destruct results as [|h results]; [done|].
      cbn in Hmap. injection Hmap as Ha Hmap.
      destruct (Hdicts _ _ _ _ Ha) as [ra ->].
      destruct (dict_stops _ _ _ _ _ _ _ _ Hsum Hfast a ra) as (_ & Hl & _);
        [left|done|].
      rewrite Hlast in Hl. injection Hl as ->.
      destruct Hasc as [Hlt _].
      assert (a ∈ b :: ran) as Hs.
      { apply last_Some in Hlast as (l' & Hl').
        destruct l' as [|c l']; [done|]. injection Hl' as -> Hl'.
        rewrite Hl'. apply elem_of_app. right. left. }
      apply Hlt in Hs. lia. }
    split; [done|]. by apply (Hone _ _ Hmap).
Qed.

Lemma average_score_mean (results : list TierResult) :
  results ≠ [] →
  (Py.sum (score <$> results) / Py.of_nat (length results)
   == Common.mean (score <$> results))%Q.
Proof.
  intros Hne. destruct results as [|r results]; [done|].
  apply (CommonSpec.sum_mean_map score).
Qed.

(** C2.  Let the skip of tier [t] be requested before its turn: listed in
    the input's [skip_tiers], or signalled before the run, while the rule
    was loaded, or while an earlier tier of the run was executing.  Then
    [t] is not executed; every element of [tier_results] is the result of
    an executed tier other than [t], so none carries the tier [t] when the
    activities report under their own tier; in a completed run
    [overall_passed] is the conjunction of the [passed] flags and
    [overall_score] the mean of the scores of [tier_results] (0.0 when it
    is empty); and the run is the same whatever the runtime holds for
    tier [t]. *)
Theorem skipped_tier_absent env input t :
  requested_before env input (executed (run env input).2) t →
  let out := (run env input).1 in
  let ran := executed (run env input).2 in
  (t ∉ ran)
  ∧ (∀ r, r ∈ tier_results out →
       ∃ t' h, t' ∈ ran ∧ t' ≠ t
               ∧ outcome_of env input t' = Py.Ok h ∧ validate h = r)
  ∧ (tagged env → ∀ r, r ∈ tier_results out → tier r ≠ t)
  ∧ (rv_status out = COMPLETED →
       overall_passed out = forallb passed (tier_results out)
       ∧ (tier_results out = [] → overall_score out = 0.0%Q)
       ∧ (tier_results out ≠ [] →
          (overall_score out == Common.mean (score <$> tier_results out))%Q))
  ∧ (∀ env', agree_except t env env' → run env' input = run env input).
Proof.
  intros Hreq out ran. subst out ran.
  assert (Hnot : (t ∉ executed (run env input).2)
    ∧ ∀ r, r ∈ tier_results (run env input).1 →
        ∃ t' h, t' ∈ executed (run env input).2
                ∧ outcome_of env input t' = Py.Ok h ∧ validate h = r).
  { destruct (load_rule_outcome env (rule_id input)) as [u|e] eqn:Hload.
    2: { rewrite run_executed, run_tier_results.
         destruct (body_not_loaded env input e Hload) as (Hex & _ & Hres).
         rewrite Hex, Hres. split; [apply not_elem_of_nil|].
         by intros r ?%elem_of_nil. }
    destruct (run_summary env input u Hload) as (results & Hsum & Hst & Hres).
    split.
    - apply (skipped_not_ran _ _ _ _ _ _ _ _ Hsum). cbn [self].
      rewrite loaded_skip_tiers.
      destruct Hreq as [?|[?|[?|?]]]; [left..|by right].
      + apply elem_of_union. left. apply elem_of_union. right.
        by apply elem_of_list_to_set.
      + apply elem_of_union. left. apply elem_of_union. left.
        by apply elem_of_list_to_set.
      + apply elem_of_union. right. by apply elem_of_list_to_set.
    - rewrite Hres. intros r (h & -> & Hh)%list_elem_of_fmap.
      destruct (results_from_ran _ _ _ _ _ _ _ _ Hsum h Hh) as (t' & ? & ?).
      by exists t', h. }
  destruct Hnot as [Hnot Hfrom].
  split; [done|]. split; [|split; [|split]].
  - intros r Hr. destruct (Hfrom r Hr) as (t' & h & Hin & Hout & Hv).
    exists t', h. split_and!; try done. by intros ->.
  - intros Htag r Hr. destruct (Hfrom r Hr) as (t' & h & Hin & Hout & <-).
    apply Htag in Hout. rewrite Hout. by intros ->.
  - unfold run, failed. destruct (body env input) as [[[]|e] m]; [|done].
    destruct (final_results _) as [[[hp avg] op]|e] eqn:Hfin; [|done].
    apply final_results_read in Hfin as (_ & -> & ->).
    cbn. intros _. split; [done|]. split.
    + by destruct (_tier_results (self m)).
    + intros Hne. destruct (_tier_results (self m)) as [|h l] eqn:Hl; [done|].
      rewrite <- Hl. rewrite <- (length_fmap validate).
      apply average_score_mean. by rewrite Hl.
  - intros env' Hag. by apply run_agree with (t := t).
Qed.

(** C10.  If the rule loads and every tier up to [max_tier] has its skip
    requested before the loop starts (in the input, or by a signal before
    the run or during the load), no tier is executed and the run completes
    with an empty [tier_results], [overall_score = 0.0],
    [overall_passed = true], no [highest_tier_passed] and
    [stopped_early = false]. *)
Theorem all_tiers_skipped env input :
  load_rule_outcome env (rule_id input) = Py.Ok () →
  (∀ t, value t ≤ value (max_tier input) →
        t ∈ skip_tiers input ∨ t ∈ signals_before_run env
        ∨ t ∈ signals_during_load env) →
  (run env input).1
  = {| rv_status := COMPLETED; rv_rule_id := rule_id input;
       tier_results := []; highest_tier_passed := None;
       overall_score := 0.0%Q; overall_passed := true;
       stopped_early := false; stop_reason := None; rv_error := None |}
  ∧ executed (run env input).2 = [].
Proof.
  intros Hload Hall.
  destruct (run_summary env input () Hload) as (results & Hsum & Hst & Hres).
  destruct (loaded_fields env input) as (Hf1 & Hf2 & Hf3).
  destruct (nothing_ran _ _ _ _ _ _ _ _ Hsum) as (Hok & Hran & Hse & Hsr).
  { intros t Hin. cbn [self]. rewrite loaded_skip_tiers.
    apply started_remaining in Hin.
    destruct (Hall t Hin) as [?|[?|?]].
    - apply elem_of_union. left. apply elem_of_union. right.
      by apply elem_of_list_to_set.
    - apply elem_of_union. left. apply elem_of_union. left.
      by apply elem_of_list_to_set.
    - apply elem_of_union. right. by apply elem_of_list_to_set. }
  cbn [self] in Hse, Hsr. rewrite Hf2 in Hse. rewrite Hf3 in Hsr.
  assert (results = []) as ->.
  { destruct results as [|r results]; [done|].
    destruct (results_from_ran _ _ _ _ _ _ _ _ Hsum r) as (t & Hin & _); [left|].
    rewrite Hran in Hin. by apply elem_of_nil in Hin. }
  split; [|done].
  rewrite (run_completed env input None 0.0%Q true Hok); [|by rewrite Hst].
  by rewrite Hst, Hse, Hsr.
Qed.

Lemma fail_fast_reads_dict_witness :
  rv_status (run schema_fails verify_all).1 = FAILED
  ∧ executed (run schema_fails verify_all).2 = [SCHEMA]
  ∧ tier_results (run schema_fails verify_all).1 = [sample_result SCHEMA false]
  ∧ stop_reason (run schema_fails verify_all).1
    = Some "'dict' object has no attribute 'passed'".
Proof.
  assert (Hin : SCHEMA ∈ executed (run schema_fails verify_all).2)
    by (vm_compute; left).
  destruct (fail_fast_reads_dict schema_fails verify_all SCHEMA
              (sample_result SCHEMA false) eq_refl Hin eq_refl)
    as (Hstatus & _ & _ & _ & _ & Hreason & _ & _ & Hone & _).
  destruct (Hone eq_refl) as [Hran Hres].
  split; [exact Hstatus|]. split; [exact Hran|].
  split; [exact Hres|exact Hreason].
Defined.

Lemma skipped_tier_absent_witness :
  (SEMANTIC ∉ executed (run skip_semantic_signalled verify_all).2)
  ∧ (∀ r, r ∈ tier_results (run skip_semantic_signalled verify_all).1 →
          tier r ≠ SEMANTIC).
Proof.
  assert (Hreq : requested_before skip_semantic_signalled verify_all
                   (executed (run skip_semantic_signalled verify_all).2)
                   SEMANTIC).
  { right. right. right. exists SCHEMA. split; [vm_compute; left|].
    split; [simpl; lia|left]. }
  assert (Htag : tagged skip_semantic_signalled).
  { intros t rid src h H. injection H as <-. reflexivity. }
  destruct (skipped_tier_absent skip_semantic_signalled verify_all SEMANTIC Hreq)
    as (Hnot & _ & Htier & _).
  split; [exact Hnot|exact (Htier Htag)].
Defined.

Lemma all_tiers_skipped_witness :
  (run skip_lexical_on_load verify_two_skip_schema).1
  = {| rv_status := COMPLETED; rv_rule_id := "rule";
       tier_results := []; highest_tier_passed := None;
       overall_score := 0.0%Q; overall_passed := true;
       stopped_early := false; stop_reason := None; rv_error := None |}.
Proof.
  apply (all_tiers_skipped skip_lexical_on_load verify_two_skip_schema).
  - reflexivity.
  - intros t Ht. destruct t; simpl in Ht; try lia.
    + left. left.
    + right. right. left.
Defined.

End WorkflowsSpec.

Module DriftSpec.

Import Schemas Workflows DriftVocab.

Lemma gather_ok {A} (os : list (Py.Result A)) rs :
  gather os = Py.Ok rs ↔ os = Py.Ok <$> rs.
Proof.
  revert rs. induction os as [|o os IH]; intros rs; simpl.
  - split; [by intros [= <-]|]. by destruct rs.
  - destruct o as [a|e]; simpl.
    + destruct (gather os) as [l|e] eqn:E; simpl.
      * split.
        -- intros [= <-]. cbn. f_equal. by apply IH.
        -- destruct rs as [|r rs]; [done|]. intros [= -> Hos].
           apply IH in Hos. by injection Hos as ->.
      * split; [done|]. destruct rs as [|r rs]; [done|]. intros [= -> Hos].
        by apply IH in Hos.
    + split; [done|]. by destruct rs.
Qed.

(** The exception that leaves [gather] is the exception of one of the
    tasks. *)
Lemma gather_raise {A} (os : list (Py.Result A)) e :
  gather os = Py.Raise e → Py.Raise e ∈ os.
Proof.
  induction os as [|o os IH]; simpl; [done|].
  destruct o as [a|e0]; simpl.
  - destruct (gather os) as [l|e1]; simpl; [done|]. intros [= ->].
    right. by apply IH.
  - intros [= ->]. left.
Qed.

Lemma gather_raises {A} (os : list (Py.Result A)) e :
  Py.Raise e ∈ os → ∃ e', gather os = Py.Raise e'.
Proof.
  induction os as [|o os IH]; [by intros ?%elem_of_nil|].
  intros [<-|Hin]%elem_of_cons; simpl; [by eexists|].
  destruct o as [a|e0]; simpl; [|by eexists].
  destruct (IH Hin) as [e' ->]. simpl. by eexists.
Qed.

Lemma map_fmap {A B} (f : A → B) (l : list A) : map f l = f <$> l.
Proof. done. Qed.

Lemma recorded_nil st : recorded [] st st.
Proof. unfold recorded. cbn. rewrite app_nil_r. repeat split; lia. Qed.

Lemma recorded_app ds ds' st st' st'' :
  recorded ds st st' → recorded ds' st' st'' → recorded (ds ++ ds') st st''.
Proof.
  intros (H1 & H2 & H3 & H4 & H5) (K1 & K2 & K3 & K4 & K5). unfold recorded.
  rewrite K1, K2, K3, K4, K5, H1, H2, H3, H4, H5.
  rewrite fmap_app, List.filter_app, !length_app, <- app_assoc.
  repeat split; lia.
Qed.

(** Results that came back as models are all read. *)
Lemma record_batch_models ds : ∀ st,
  (record_batch (AsModel <$> ds) st).1 = Py.Ok ()
  ∧ recorded ds st (record_batch (AsModel <$> ds) st).2.
Proof.
  induction ds as [|d ds IH]; intros st; cbn [fmap list_fmap record_batch getattr].
  - split; [done|apply recorded_nil].
  - match goal with |- (record_batch _ ?s).1 = _ ∧ _ =>
      destruct (IH s) as (Hok & H1 & H2 & H3 & H4 & H5) end.
    split; [done|]. unfold recorded. rewrite H1, H2, H3, H4, H5. cbn.
    rewrite <- app_assoc. repeat split; try done; try lia.
    destruct (has_drift d); cbn; lia.
Qed.

(** A result that came back as a dict stops the loop where
    [result.has_drift] is read, once it has been appended and counted. *)
Lemma record_batch_dict ds d rest : ∀ st,
  (record_batch ((AsModel <$> ds) ++ AsDict d :: rest) st).1
  = Py.Raise (attribute_error "has_drift")
  ∧ _drift_results (record_batch ((AsModel <$> ds) ++ AsDict d :: rest) st).2
    = _drift_results st ++ (AsModel <$> ds) ++ [AsDict d]
  ∧ _checked_rules (record_batch ((AsModel <$> ds) ++ AsDict d :: rest) st).2
    = _checked_rules st + length ds + 1.
Proof.
  induction ds as [|d' ds IH]; intros st;
    cbn [fmap list_fmap app record_batch getattr].
  - cbn. split; [done|]. split; [done|lia].
  - match goal with |- (record_batch _ ?s).1 = _ ∧ _ =>
      destruct (IH s) as (Hr & H1 & H2) end.
    rewrite Hr, H1, H2. cbn. rewrite <- app_assoc.
    split; [done|]. split; [done|lia].
Qed.

(** Results handed back as models are copied field by field into the
    dicts of the notification. *)
Lemma drift_results_dicts_models ds :
  drift_results_dicts (AsModel <$> ds) = Py.Ok (List.filter has_drift ds).
Proof.
  induction ds as [|d ds IH]; [done|].
  cbn [fmap list_fmap drift_results_dicts getattr Py.bind List.filter].
  change (list_fmap _ _ AsModel ds) with (AsModel <$> ds). rewrite IH.
  destruct (has_drift d) eqn:Hd; [|done].
  unfold drift_result_dict. cbn. by destruct d.
Qed.

Section Sweep.

Variable env : DriftEnv.
Variable ids : list string.

Lemma returns_models_results rules :
  returns_models env rules →
  ∃ ds, check_rule_drift_outcome env <$> rules = Py.Ok ∘ AsModel <$> ds.
Proof.
  induction rules as [|rid rules IH]; intros Hall; [by exists []|].
  destruct (Hall rid) as [d Hd]; [left|].
  destruct IH as [ds Hds]; [intros r Hr; apply Hall; by right|].
  exists (d :: ds). cbn. by rewrite Hd, Hds.
Qed.

Lemma batches_split a m :
  take (batch_size + m) (drop (a * batch_size) ids)
  = take batch_size (drop (a * batch_size) ids)
    ++ take m (drop (S a * batch_size) ids).
Proof. rewrite <- take_take_drop, drop_drop. do 3 f_equal. lia. Qed.

(** The batches whose checks all return models are recorded, and the
    loop goes on with the batches after them. *)
Lemma run_batches_prefix k : ∀ a n st,
  returns_models env (take (k * batch_size) (drop (a * batch_size) ids)) →
  ∃ ds st',
    check_rule_drift_outcome env
      <$> take (k * batch_size) (drop (a * batch_size) ids)
    = Py.Ok ∘ AsModel <$> ds
    ∧ run_batches env (batches_from ids a (k + n)) st
      = run_batches env (batches_from ids (a + k) n) st'
    ∧ recorded ds st st'.
Proof.
  induction k as [|k IH]; intros a n st Hall.
  { exists [], st. rewrite Nat.add_0_r. split; [done|]. split; [done|].
    apply recorded_nil. }
  replace (S k * batch_size) with (batch_size + k * batch_size) in * by lia.
  rewrite batches_split in *.
  destruct (returns_models_results
              (take batch_size (drop (a * batch_size) ids))) as [ds Hds].
  { intros rid Hin. apply Hall, elem_of_app. by left. }
  destruct (record_batch_models ds st) as [Hok Hrec].
  destruct (IH (S a) n (record_batch (AsModel <$> ds) st).2)
    as (ds' & st' & Hds' & Hrun & Hrec').
  { intros rid Hin. apply Hall, elem_of_app. by right. }
  exists (ds ++ ds'), st'. split; [by rewrite !fmap_app, Hds, Hds'|].
  split; [|by eapply recorded_app].
  unfold batches_from at 1. cbn [Nat.add seq map run_batches].
  fold (batches_from ids (S a) (k + n)). rewrite map_fmap, Hds.
  rewrite list_fmap_compose.
  rewrite (proj2 (gather_ok _ (AsModel <$> ds)) eq_refl).
  destruct (record_batch (AsModel <$> ds) st) as [res st1].
  cbn [fst snd] in *. subst res. rewrite Hrun. do 2 f_equal. lia.
Qed.

(** A sweep whose loop ends normally has heard from every check. *)
Lemma run_batches_returns n : ∀ a st,
  (run_batches env (batches_from ids a n) st).1 = Py.Ok () →
  ∃ new,
    check_rule_drift_outcome env
      <$> take (n * batch_size) (drop (a * batch_size) ids)
    = Py.Ok <$> new.
Proof.
  induction n as [|n IH]; intros a st; [by exists []|].
  unfold batches_from. cbn [seq map run_batches].
  fold (batches_from ids (S a) n). rewrite map_fmap.
  destruct (gather _) as [rs|e] eqn:Hg; [|done].
  apply gather_ok in Hg.
  destruct (record_batch rs st) as [[[]|e] st1]; [|done].
  intros Hok. destruct (IH (S a) st1 Hok) as [new Hnew].
  exists (rs ++ new).
  replace (S n * batch_size) with (batch_size + n * batch_size) by lia.
  by rewrite batches_split, !fmap_app, Hg, Hnew.
Qed.

End Sweep.

Lemma batches_of_from ids :
  batches_of ids
  = batches_from ids 0 ((length ids + batch_size - 1) / batch_size).
Proof. unfold batches_of, batches_from, range_step. by rewrite map_map. Qed.

Lemma batches_cover (n : nat) :
  let k := (n + batch_size - 1) / batch_size in
  n ≤ k * batch_size ∧ ∀ j, j < k → j * batch_size < n.
Proof.
  intros k. subst k. unfold batch_size.
  pose proof (Nat.div_mod_eq (n + 10 - 1) 10) as Hdm.
  pose proof (Nat.mod_upper_bound (n + 10 - 1) 10 ltac:(lia)) as Hub.
  set (q := (n + 10 - 1) / 10) in *. set (r := (n + 10 - 1) mod 10) in *.
  clearbody q r. split; [lia|]. intros j Hj. lia.
Qed.

Lemma drift_body_batches env input ids :
  resolve_rule_ids env input = Py.Ok ids →
  drift_body env input
  = let st :=
      {| d_status := RUNNING; _total_rules := length ids;
         _checked_rules := 0; _drift_detected := 0;
         _drift_results := []; _notifications_sent := 0;
         d_error := None |} in
    match run_batches env
            (batches_from ids 0 ((length ids + batch_size - 1) / batch_size))
            st with
    | (Py.Raise e, st) => (Py.Raise e, st)
    | (Py.Ok _, st) =>
        if notify_on_drift input && (0 <? _drift_detected st) then
          match drift_results_dicts (_drift_results st) with
          | Py.Raise e => (Py.Raise e, st)
          | Py.Ok dicts =>
              match notify_drift_detected_outcome env dicts with
              | Py.Raise e => (Py.Raise e, st)
              | Py.Ok sent =>
                  (Py.Ok (),
                   {| d_status := d_status st;
                      _total_rules := _total_rules st;
                      _checked_rules := _checked_rules st;
                      _drift_detected := _drift_detected st;
                      _drift_results := _drift_results st;
                      _notifications_sent := sent;
                      d_error := d_error st |})
              end
          end
        else (Py.Ok (), st)
    end.
Proof.
  intros Hres. unfold drift_body. rewrite Hres.
  fold (batches_of ids). by rewrite batches_of_from.
Qed.

Lemma validate_models {A} (ds : list A) : validate <$> (AsModel <$> ds) = ds.
Proof. induction ds as [|d ds IH]; [done|]. cbn. by rewrite IH. Qed.

(** Every check returned a model: the sweep completes. *)
Lemma sweep_completes env input ids :
  resolve_rule_ids env input = Py.Ok ids →
  returns_models env ids →
  (∀ l, ∃ k, notify_drift_detected_outcome env l = Py.Ok k) →
  dd_status (drift_run env input) = COMPLETED
  ∧ check_rule_drift_outcome env <$> ids
    = Py.Ok ∘ AsModel <$> drift_results (drift_run env input)
  ∧ rules_checked (drift_run env input) = length ids.
Proof.
  intros Hres Hall Hnotify. unfold drift_run.
  rewrite (drift_body_batches env input ids Hres). cbn zeta.
  set (n := (length ids + batch_size - 1) / batch_size).
  destruct (batches_cover (length ids)) as [Hcover _]. fold n in Hcover.
  match goal with |- context [run_batches env _ ?s] => set (st := s) end.
  destruct (run_batches_prefix env ids n 0 0 st)
    as (ds & st' & Hds & Hrun & Hr1 & Hr2 & _).
  { rewrite Nat.mul_0_l, drop_0, take_ge by lia. exact Hall. }
  rewrite Nat.mul_0_l, drop_0, take_ge in Hds by lia.
  rewrite Nat.add_0_r in Hrun. rewrite Hrun.
  unfold batches_from. cbn [seq map run_batches].
  cbn in Hr1, Hr2.
  assert (Hlen : length ds = length ids).
  { apply (f_equal length) in Hds. by rewrite !length_fmap in Hds. }
  destruct (notify_on_drift input && (0 <? _drift_detected st')).
  - rewrite Hr1, drift_results_dicts_models.
    destruct (Hnotify (List.filter has_drift ds)) as [k ->].
    cbn. by rewrite Hr2, validate_models, Hlen.
  - cbn. by rewrite Hr1, Hr2, validate_models, Hlen.
Qed.

(** A raising check fails the sweep, however the results come back. *)
Lemma raising_check_fails env input ids rid e :
  resolve_rule_ids env input = Py.Ok ids →
  rid ∈ ids →
  check_rule_drift_outcome env rid = Py.Raise e →
  dd_status (drift_run env input) = FAILED
  ∧ ∃ e', dd_error (drift_run env input) = Some e'.
Proof.
  intros Hres Hin Hraise. unfold drift_run.
  rewrite (drift_body_batches env input ids Hres). cbn zeta.
  set (n := (length ids + batch_size - 1) / batch_size).
  destruct (batches_cover (length ids)) as [Hcover _]. fold n in Hcover.
  match goal with |- context [run_batches env _ ?s] => set (st := s) end.
  pose proof (run_batches_returns env ids n 0 st) as Hret.
  destruct (run_batches env _ st) as [[[]|e0] st']; [|by split; [|eexists]].
  exfalso. destruct (Hret eq_refl) as [new Hnew].
  rewrite Nat.mul_0_l, drop_0, take_ge in Hnew by lia.
  apply list_elem_of_lookup in Hin as [i Hi].
  apply (f_equal (λ l, l !! i)) in Hnew.
  rewrite !list_lookup_fmap, Hi in Hnew. cbn in Hnew. rewrite Hraise in Hnew.
  by destruct (new !! i).
Qed.

(** The batch that fails the sweep is the first one with a raising check,
    when the results of the batches before it were read. *)
Lemma failing_batch env input ids j :
  resolve_rule_ids env input = Py.Ok ids →
  raises_in env (batch ids j) →
  returns_models env (before_batch ids j) →
  dd_status (drift_run env input) = FAILED
  ∧ (∃ rid e, rid ∈ batch ids j
              ∧ check_rule_drift_outcome env rid = Py.Raise e
              ∧ dd_error (drift_run env input) = Some e)
  ∧ check_rule_drift_outcome env <$> before_batch ids j
    = Py.Ok ∘ AsModel <$> drift_results (drift_run env input)
  ∧ rules_checked (drift_run env input) = j * batch_size
  ∧ rules_with_drift (drift_run env input)
    = length (List.filter has_drift (drift_results (drift_run env input)))
  ∧ notifications_sent (drift_run env input) = 0.
Proof.
  intros Hres (rid & e & Hin & Hraise) Hall. unfold drift_run.
  rewrite (drift_body_batches env input ids Hres). cbn zeta.
  set (n := (length ids + batch_size - 1) / batch_size).
  destruct (batches_cover (length ids)) as [Hcover _]. fold n in Hcover.
  assert (Hj : j * batch_size < length ids).
  { unfold batch in Hin. apply elem_of_take in Hin as (i & Hi & _).
    rewrite lookup_drop in Hi. apply lookup_lt_Some in Hi. lia. }
  assert (Hn : ∃ n', n = j + S n').
  { exists (n - j - 1). unfold batch_size in *. nia. }
  destruct Hn as [n' ->].
  match goal with |- context [run_batches env _ ?s] => set (st := s) end.
  destruct (run_batches_prefix env ids j 0 (S n') st)
    as (ds & st' & Hds & Hrun & Hr1 & Hr2 & _ & Hr4 & Hr5).
  { rewrite Nat.mul_0_l, drop_0. exact Hall. }
  rewrite Nat.mul_0_l, drop_0 in Hds. rewrite Hrun.
  unfold batches_from. cbn [Nat.add seq map run_batches]. rewrite map_fmap.
  assert (Hbad : Py.Raise e ∈ check_rule_drift_outcome env <$> batch ids j).
  { apply list_elem_of_fmap. by exists rid. }
  destruct (gather_raises _ _ Hbad) as [e' Hg]. unfold batch in Hg.
  rewrite Hg. apply gather_raise in Hg.
  apply list_elem_of_fmap in Hg as (rid' & Hraise' & Hin').
  cbn in Hr1, Hr2, Hr4, Hr5. cbn.
  rewrite Hr1, Hr2, Hr4, Hr5, validate_models.
  assert (Hlen : length ds = j * batch_size).
  { apply (f_equal length) in Hds. unfold before_batch in Hds.
    rewrite !length_fmap, length_take in Hds. lia. }
  split_and!; try done.
  by exists rid', e'.
Qed.

(** In the deployment the first result of the sweep already stops it:
    read as a dict, it fails the run with the text of the
    [AttributeError], after it was appended and counted. *)
Lemma first_dict_fails_sweep env input ids d :
  resolve_rule_ids env input = Py.Ok ids →
  head (check_rule_drift_outcome env <$> ids) = Some (Py.Ok (AsDict d)) →
  (∀ rid, rid ∈ batch ids 0 →
     ∃ h, check_rule_drift_outcome env rid = Py.Ok h) →
  drift_run env input
  = {| dd_status := FAILED; rules_checked := 1; rules_with_drift := 0;
       drift_results := [d]; notifications_sent := 0;
       dd_error := Some (attribute_error "has_drift") |}.
Proof.
  intros Hres Hhead Hall. unfold drift_run.
  rewrite (drift_body_batches env input ids Hres). cbn zeta.
  destruct ids as [|rid ids]; [done|].
  replace ((length (rid :: ids) + batch_size - 1) / batch_size)
    with (S (length ids / batch_size)).
  2: { cbn [length]. unfold batch_size.
       replace (S (length ids) + 10 - 1) with (length ids + 1 * 10) by lia.
       rewrite Nat.div_add by lia. lia. }
  unfold batches_from. cbn [seq map run_batches]. rewrite map_fmap.
  assert (Hrs : ∃ rs, check_rule_drift_outcome env
                        <$> take batch_size (drop (0 * batch_size) (rid :: ids))
                      = Py.Ok <$> (AsDict d :: rs)).
  { unfold batch in Hall. cbn in Hhead. injection Hhead as Hhead.
    set (l := take batch_size (drop (0 * batch_size) (rid :: ids))) in *.
    assert (Hl : ∃ l', l = rid :: l') by (by eexists).
    destruct Hl as [l' Hl]. rewrite Hl in *. clearbody l. clear Hl.
    assert (Hl' : ∃ rs, check_rule_drift_outcome env <$> l' = Py.Ok <$> rs).
    { assert (Hall' : ∀ r, r ∈ l' →
                ∃ h, check_rule_drift_outcome env r = Py.Ok h)
        by (intros r Hr; apply Hall; by right).
      clear -Hall'. induction l' as [|r l' IH]; [by exists []|].
      destruct (Hall' r) as [h Hh]; [left|].
      destruct IH as [rs Hrs]; [intros r' Hr'; apply Hall'; by right|].
      exists (h :: rs). cbn. by rewrite Hh, Hrs. }
    destruct Hl' as [rs Hrs]. exists rs. cbn. by rewrite Hhead, Hrs. }
  destruct Hrs as [rs Hrs]. rewrite Hrs.
  rewrite (proj2 (gather_ok _ (AsDict d :: rs)) eq_refl).
  done.
Qed.

Lemma missing_rule_is_drift get_rule verify_rule rid :
  get_rule rid = None →
  Activities.check_rule_drift_activity get_rule verify_rule rid
  = Py.Ok {| dr_rule_id := rid; has_drift := true;
             drift_types := ["rule_missing"];
             dr_details := ["Rule no longer exists in rule data"];
             dr_severity := "critical" |}.
Proof. intros H. unfold Activities.check_rule_drift_activity. by rewrite H. Qed.

Lemma drift_scan_types evidence :
  (Activities.drift_scan evidence).1
  = flat_map (λ e,
      if bool_decide (CrossRule.label e = "fail") then ["schema_drift"]
      else if bool_decide (CrossRule.label e = "warning")
              && bool_decide (CrossRule.category e = "source_exists")
           then ["reference_drift"] else []) evidence.
Proof.
  unfold Activities.drift_scan.
  match goal with |- (fold_left ?f _ _).1 = _ => set (step := f) end.
  enough (H : ∀ acc, (fold_left step evidence acc).1
    = acc.1 ++ flat_map (λ e,
      if bool_decide (CrossRule.label e = "fail") then ["schema_drift"]
      else if bool_decide (CrossRule.label e = "warning")
              && bool_decide (CrossRule.category e = "source_exists")
           then ["reference_drift"] else []) evidence) by by rewrite H.
  induction evidence as [|e evidence IH]; intros [types details].
  - simpl. by rewrite app_nil_r.
  - change (fold_left step (e :: evidence) (types, details))
      with (fold_left step evidence (step (types, details) e)).
    rewrite IH. unfold step. cbn [flat_map].
    case_bool_decide; cbn [fst]; [by rewrite <- app_assoc|].
    destruct (_ && _); cbn [fst]; [by rewrite <- app_assoc|done].
Qed.

Lemma failed_check_is_drift get_rule verify_rule rid rule evidence status :
  get_rule rid = Some rule →
  verify_rule rule None 0 = Py.Ok (evidence, status) →
  ∃ d, Activities.check_rule_drift_activity get_rule verify_rule rid = Py.Ok d
       ∧ dr_rule_id d = rid
       ∧ ((∃ e, e ∈ evidence ∧ CrossRule.label e = "fail") →
          has_drift d = true ∧ "schema_drift" ∈ drift_types d
          ∧ dr_severity d = "high").
Proof.
  intros Hrule Hver. unfold Activities.check_rule_drift_activity.
  rewrite Hrule, Hver. cbn [Py.bind].
  pose proof (drift_scan_types evidence) as Htypes.
  destruct (Activities.drift_scan evidence) as [types details].
  cbn [fst] in Htypes. eexists. split; [done|]. split; [done|]. cbn.
  intros (e & Hin & Hfail).
  assert (Hs : "schema_drift" ∈ types).
  { rewrite Htypes. apply list_elem_of_In, in_flat_map. exists e.
    split; [by apply list_elem_of_In|]. rewrite bool_decide_true by done. by left. }
  split_and!; [|done|].
  - apply bool_decide_eq_true. destruct types; [by apply elem_of_nil in Hs|].
    simpl. lia.
  - unfold Activities.drift_severity. by rewrite bool_decide_true.
Qed.

(** C9, as amended.  Once the rule ids are resolved, an exception of a
    drift check is not isolated: it leaves its batch and the run ends
    with status failed and an error.  The failing batch is the first one
    that holds a raising check: when the results of the batches before it
    came back as models, [drift_results] holds exactly the results of the
    rules of those batches, in order, [rules_checked] counts them,
    [rules_with_drift] counts those with drift, no notification is sent
    and [error] is the exception of a check of that batch.  When every
    check returns a model and the notification returns, the sweep
    completes with one entry per rule, in order.  What the drift check
    itself turns into an entry is a missing rule ([rule_missing],
    critical) and failed Tier-0 evidence ([schema_drift], high). *)
Theorem drift_check_exception_fails_run env input ids :
  resolve_rule_ids env input = Py.Ok ids →
  (returns_models env ids →
   (∀ l, ∃ k, notify_drift_detected_outcome env l = Py.Ok k) →
   dd_status (drift_run env input) = COMPLETED
   ∧ check_rule_drift_outcome env <$> ids
     = Py.Ok ∘ AsModel <$> drift_results (drift_run env input)
   ∧ rules_checked (drift_run env input) = length ids)
  ∧ (∀ rid e, rid ∈ ids → check_rule_drift_outcome env rid = Py.Raise e →
     dd_status (drift_run env input) = FAILED
     ∧ ∃ e', dd_error (drift_run env input) = Some e')
  ∧ (∀ j, raises_in env (batch ids j) →
          returns_models env (before_batch ids j) →
     dd_status (drift_run env input) = FAILED
     ∧ (∃ rid e, rid ∈ batch ids j
                 ∧ check_rule_drift_outcome env rid = Py.Raise e
                 ∧ dd_error (drift_run env input) = Some e)
     ∧ check_rule_drift_outcome env <$> before_batch ids j
       = Py.Ok ∘ AsModel <$> drift_results (drift_run env input)
     ∧ rules_checked (drift_run env input) = j * batch_size
     ∧ rules_with_drift (drift_run env input)
       = length (List.filter has_drift (drift_results (drift_run env input)))
     ∧ notifications_sent (drift_run env input) = 0)
  ∧ (∀ get_rule verify_rule rid,
       get_rule rid = None →
       ∃ d, Activities.check_rule_drift_activity get_rule verify_rule rid = Py.Ok d
            ∧ dr_rule_id d = rid ∧ has_drift d = true
            ∧ drift_types d = ["rule_missing"] ∧ dr_severity d = "critical")
  ∧ (∀ get_rule verify_rule rid rule evidence status,
       get_rule rid = Some rule →
       verify_rule rule None 0 = Py.Ok (evidence, status) →
       ∃ d, Activities.check_rule_drift_activity get_rule verify_rule rid = Py.Ok d
            ∧ dr_rule_id d = rid
            ∧ ((∃ e, e ∈ evidence ∧ CrossRule.label e = "fail") →
               has_drift d = true ∧ "schema_drift" ∈ drift_types d
               ∧ dr_severity d = "high")).
Proof.
  intros Hres. split; [|split; [|split; [|split]]].
  - by apply sweep_completes.
  - intros rid e. by apply raising_check_fails.
  - intros j. by apply failing_batch.
  - intros get_rule verify_rule rid Hnone.
    rewrite missing_rule_is_drift by done. by eexists.
  - intros get_rule verify_rule rid rule evidence status.
    apply failed_check_is_drift.
Qed.

(** C9 as stated fails when the drift check of one rule raises. *)
Lemma one_bad_rule_fails_sweep :
  ¬ isolates_failures one_bad_rule sweep_two.
Proof.
  intros H.
  destruct (H ["r1"; "r2"] "r2" "ActivityError: drift check failed")
    as [Hstatus _]; [done|by right; left|done|].
  by apply Hstatus.
Qed.

Lemma one_bad_rule_output :
  drift_run one_bad_rule sweep_two
  = {| dd_status := FAILED; rules_checked := 0; rules_with_drift := 0;
       drift_results := []; notifications_sent := 0;
       dd_error := Some "ActivityError: drift check failed" |}.
Proof. reflexivity. Qed.

(** Twelve rules, the eleventh raising: the ten results of the first
    batch are kept, the twelfth rule has no entry. *)
Lemma eleventh_bad_output :
  drift_run eleventh_bad sweep_all
  = {| dd_status := FAILED; rules_checked := 10; rules_with_drift := 0;
       drift_results := clean <$> take 10 twelve_rules;
       notifications_sent := 0;
       dd_error := Some "ActivityError: drift check failed" |}.
Proof. reflexivity. Qed.

Lemma drift_check_exception_fails_run_witness :
  dd_status (drift_run eleventh_bad sweep_all) = FAILED
  ∧ rules_checked (drift_run eleventh_bad sweep_all) = 10
  ∧ notifications_sent (drift_run eleventh_bad sweep_all) = 0.
Proof.
  destruct (drift_check_exception_fails_run eleventh_bad sweep_all
              twelve_rules eq_refl) as (_ & _ & Hfail & _).
  destruct (Hfail 1) as (Hstatus & _ & _ & Hchecked & _ & Hsent).
  - exists "r11", "ActivityError: drift check failed".
    split; [|reflexivity]. left.
  - intros rid Hin. unfold before_batch, twelve_rules in Hin. cbn in Hin.
    repeat (apply elem_of_cons in Hin as [->|Hin]; [by eexists|]).
    by apply elem_of_nil in Hin.
  - split; [exact Hstatus|]. split; [exact Hchecked|exact Hsent].
Defined.

End DriftSpec.
